(** * go_eval_agent: execution and scoring engine

    A shallow embedding of the core of the evaluation framework: the
    execution trace ([pkg/trace]), the mock tool registry ([pkg/mock]),
    the composite scorer ([pkg/judge]), the run-to-run diff engine
    ([pkg/diff]) and the case runner ([pkg/runner]); around them the
    suites ([pkg/suite]), the prompts ([pkg/prompt]), the summary of a
    run ([pkg/result]), the tool-call judge, the labels of the report
    and the test harness ([evaltest]).  One Rocq module per Go package
    ([summary] holds the functions of package result that read the
    result of the runner); definitions keep the names of the Go
    declarations they embed.

    Conventions.
    - Go [int] is the 64-bit two's-complement integer of the usual
      targets: a [Z] reduced by [wrap] after every arithmetic operation.
    - Go [float64] is IEEE 754 binary64, embedded as [spec_float] with
      precision 53 and exponent bound 1024; comparisons are the IEEE ones
      (every comparison with a NaN is false); every operation rounds on
      its own (no fused multiply-add).
    - [time.Time] and [time.Duration] are integers (nanoseconds); a
      function that reads the clock receives the reading as an argument
      or threads a clock value, which only [time.Sleep] and the provider
      advance.
    - Go maps are [gmap]s; a missing key reads as the zero value, as the
      Go index expression does.
    - A panic (a slice index or a slice bound out of range) is [None].
    - A method that takes its mutex is a state transformer of its
      object; the interleaving of goroutines is modelled where a claim
      is about it (the runner), not inside the single calls. *)

From Stdlib Require Import ZArith Lia.
From Stdlib Require Import Floats.SpecFloat.
From stdpp Require Import gmap strings list pretty sorting.

Open Scope Z_scope.

(** ** Machine integers *)

Module goint.

Definition bits : Z := 64.
Definition max_int : Z := 2 ^ (bits - 1) - 1.
Definition min_int : Z := - 2 ^ (bits - 1).

(** Two's-complement reduction into [min_int .. max_int]. *)
Definition wrap (z : Z) : Z :=
  (z + 2 ^ (bits - 1)) mod 2 ^ bits - 2 ^ (bits - 1).

Definition add (a b : Z) : Z := wrap (a + b).

Definition in_range (z : Z) : Prop := min_int <= z <= max_int.

End goint.

(** ** IEEE 754 binary64 *)

Module float64.

Definition prec : Z := 53.
Definition emax : Z := 1024.

Abbreviation t := spec_float.

Definition zero : t := S754_zero false.
Definition of_Z (z : Z) : t := binary_normalize prec emax z 0 false.
Definition one : t := Eval vm_compute in of_Z 1.

Definition add : t -> t -> t := SFadd prec emax.
Definition sub : t -> t -> t := SFsub prec emax.
Definition mul : t -> t -> t := SFmul prec emax.
Definition div : t -> t -> t := SFdiv prec emax.
Definition abs : t -> t := SFabs.
Definition opp : t -> t := SFopp.

(** Go's [==], [<], [<=] on floats; [a > b] is [ltb b a] and
    [a >= b] is [leb b a]. *)
Definition eqb : t -> t -> bool := SFeqb.
Definition ltb : t -> t -> bool := SFltb.
Definition leb : t -> t -> bool := SFleb.

(** The decimal literal [n/d] for small integers, correctly rounded. *)
Definition lit (n d : Z) : t := div (of_Z n) (of_Z d).

(** Neither a NaN nor an infinity. *)
Definition isFinite (x : t) : bool :=
  match x with
  | S754_zero _ | S754_finite _ _ _ => true
  | S754_infinity _ | S754_nan => false
  end.

(** [int(math.Floor(x))], [int(math.Ceil(x))] and the conversion [int(x)]
    (towards zero) of a finite [x] that is within the range of [int];
    outside of it the conversion is left to the implementation by the
    language, and is given here as the amd64 instruction gives it. *)
Definition scaled (x : t) : option (Z * Z) :=
  match x with
  | S754_zero _ => Some (0, 0)
  | S754_finite s m e => Some (if s then Z.neg m else Z.pos m, e)
  | S754_infinity _ | S754_nan => None
  end.

Definition convert (z : Z) : Z :=
  if (goint.min_int <=? z) && (z <=? goint.max_int) then z
  else goint.min_int.

Definition floorInt (x : t) : Z :=
  match scaled x with
  | Some (v, e) => convert (if 0 <=? e then v * 2 ^ e else v / 2 ^ (- e))
  | None => goint.min_int
  end.

Definition ceilInt (x : t) : Z :=
  match scaled x with
  | Some (v, e) =>
      convert (if 0 <=? e then v * 2 ^ e else - ((- v) / 2 ^ (- e)))
  | None => goint.min_int
  end.

Definition toInt (x : t) : Z :=
  match scaled x with
  | Some (v, e) =>
      convert (if 0 <=? e then v * 2 ^ e else Z.quot v (2 ^ (- e)))
  | None => goint.min_int
  end.

End float64.

(** ** Package trace *)

Module trace.

Definition Time := Z.
Definition Duration := Z.

(** [Time.Sub] (and [time.Since]): the difference of two instants,
    saturated to the range of a [Duration]. *)
Definition Sub (t u : Time) : Duration :=
  Z.max goint.min_int (Z.min goint.max_int (t - u)).

(** [map[string]interface{}]: parameters are opaque to the engine; only
    their identity and the nil map matter. *)
Inductive Value :=
| VNull
| VBool (b : bool)
| VInt (z : Z)
| VString (s : string).

Definition Params := option (gmap string Value).

Record Message := mkMessage {
  Role : string;
  Content : string;
  Timestamp : Time
}.

Record ToolCallTrace := mkToolCallTrace {
  ToolName : string;
  Parameters : Params;
  Response : string;
  Error : string;
  tcStartTime : Time;
  tcEndTime : Time;
  tcDuration : Duration
}.

Record TokenUsage := mkTokenUsage {
  InputTokens : Z;
  OutputTokens : Z;
  TotalTokens : Z
}.

Record AgentTrace := mkAgentTrace {
  Messages : list Message;
  ToolCalls : list ToolCallTrace;
  Usage : TokenUsage;
  StartTime : Time;
  EndTime : Time;
  Duration_ : Duration
}.

Definition New (now : Time) : AgentTrace :=
  {| Messages := []; ToolCalls := [];
     Usage := mkTokenUsage 0 0 0;
     StartTime := now; EndTime := 0; Duration_ := 0 |}.

Definition AddMessage (t : AgentTrace) (now : Time) (role content : string)
  : AgentTrace :=
  {| Messages := Messages t ++ [mkMessage role content now];
     ToolCalls := ToolCalls t; Usage := Usage t;
     StartTime := StartTime t; EndTime := EndTime t;
     Duration_ := Duration_ t |}.

Definition AddToolCall (t : AgentTrace) (tc : ToolCallTrace) : AgentTrace :=
  {| Messages := Messages t;
     ToolCalls := ToolCalls t ++ [tc]; Usage := Usage t;
     StartTime := StartTime t; EndTime := EndTime t;
     Duration_ := Duration_ t |}.

Definition AddUsage (t : AgentTrace) (input output : Z) : AgentTrace :=
  {| Messages := Messages t; ToolCalls := ToolCalls t;
     Usage :=
       {| InputTokens := goint.add (InputTokens (Usage t)) input;
          OutputTokens := goint.add (OutputTokens (Usage t)) output;
          TotalTokens :=
            goint.add (TotalTokens (Usage t)) (goint.add input output) |};
     StartTime := StartTime t; EndTime := EndTime t;
     Duration_ := Duration_ t |}.

Definition Finish (t : AgentTrace) (now : Time) : AgentTrace :=
  {| Messages := Messages t; ToolCalls := ToolCalls t; Usage := Usage t;
     StartTime := StartTime t; EndTime := now;
     Duration_ := Sub now (StartTime t) |}.

Definition GetMessages (t : AgentTrace) : list Message := Messages t.
Definition GetToolCalls (t : AgentTrace) : list ToolCallTrace := ToolCalls t.
Definition GetUsage (t : AgentTrace) : TokenUsage := Usage t.

(** A sequence of [AddUsage] calls, oldest first. *)
Definition addUsages (t : AgentTrace) (calls : list (Z * Z)) : AgentTrace :=
  foldl (fun t c => AddUsage t c.1 c.2) t calls.

Definition sumZ (l : list Z) : Z := foldr Z.add 0 l.

(** The sums of the input counts, of the output counts and of both, over
    a sequence of calls; a call with non-negative arguments. *)
Definition inputs (calls : list (Z * Z)) : Z := sumZ (map fst calls).
Definition outputs (calls : list (Z * Z)) : Z := sumZ (map snd calls).
Definition totals (calls : list (Z * Z)) : Z :=
  sumZ (map (fun c => c.1 + c.2) calls).
Definition nonneg (c : Z * Z) : Prop := 0 <= c.1 /\ 0 <= c.2.

(** A call of one of the mutating methods, with the clock reading where
    the method takes one; a sequence of calls, oldest first. *)
Inductive Op :=
| OpAddMessage (now : Time) (role content : string)
| OpAddToolCall (tc : ToolCallTrace)
| OpAddUsage (input output : Z)
| OpFinish (now : Time).

Definition applyOp (t : AgentTrace) (op : Op) : AgentTrace :=
  match op with
  | OpAddMessage now role content => AddMessage t now role content
  | OpAddToolCall tc => AddToolCall t tc
  | OpAddUsage input output => AddUsage t input output
  | OpFinish now => Finish t now
  end.

Definition applyOps (t : AgentTrace) (ops : list Op) : AgentTrace :=
  foldl applyOp t ops.

(** The messages, the tool calls and the usage arguments among a
    sequence of calls, in call order. *)
Definition messagesOf (ops : list Op) : list Message :=
  omap (fun op => match op with
                  | OpAddMessage now role content =>
                      Some (mkMessage role content now)
                  | _ => None
                  end) ops.

Definition toolCallsOf (ops : list Op) : list ToolCallTrace :=
  omap (fun op => match op with OpAddToolCall tc => Some tc | _ => None end)
       ops.

Definition usagesOf (ops : list Op) : list (Z * Z) :=
  omap (fun op => match op with
                  | OpAddUsage input output => Some (input, output)
                  | _ => None
                  end) ops.

End trace.

(** ** Formatting verbs of package fmt

    [%q] (a Go-quoted string, [strconv.Quote]) is taken as an interface;
    [%.2f] is the correctly rounded decimal with two fractional digits. *)

Module fmt.

Class Quote := { q : string -> string }.

(** [%v] of a parameter value, as an interface. *)
Class Printer := { v : trace.Value -> string }.

(** [a / 2^k] rounded to the nearest integer, ties to even; [0 < k]. *)
Definition roundHalfEven (a k : Z) : Z :=
  let quo := Z.shiftr a k in
  let r := a - Z.shiftl quo k in
  let half := Z.shiftl 1 (k - 1) in
  if (half <? r) || ((r =? half) && Z.odd quo) then quo + 1 else quo.

Definition twoDigits (n : N) : string :=
  (if (n <? 10)%N then "0" else "") +:+ pretty n.

Definition f2 (x : float64.t) : string :=
  match x with
  | S754_nan => "NaN"
  | S754_infinity s => if s then "-Inf" else "+Inf"
  | S754_zero s => (if s then "-" else "") +:+ "0.00"
  | S754_finite s m e =>
      let h := if 0 <=? e then Z.shiftl (Z.pos m * 100) e
               else roundHalfEven (Z.pos m * 100) (- e) in
      (if s then "-" else "") +:+ pretty (Z.to_N (h / 100)) +:+ "." +:+
      twoDigits (Z.to_N (h mod 100))
  end.

End fmt.

(** ** Package mock *)

Module mock.

Import trace.

Record MockResponse := mkMockResponse {
  Content : string;
  Error : string;
  Delay : Duration
}.

Record MockConfig := mkMockConfig {
  ToolName : string;
  Responses : list MockResponse;
  DefaultResponse : option MockResponse
}.

(** Fields of [ToolCallRecord] carry the prefix [rec], the names being
    taken by the records above. *)
Record ToolCallRecord := mkToolCallRecord {
  recToolName : string;
  recParameters : Params;
  recResponse : string;
  recError : string;
  recDuration : Duration;
  recTimestamp : Time
}.

Record MockRegistry := mkMockRegistry {
  mocks : gmap string MockConfig;
  calls : list ToolCallRecord;
  callIdx : gmap string nat
}.

(** The three [fmt.Errorf] values of [Resolve]. *)
Inductive ResolveError :=
| ErrNoMock (toolName : string)
| ErrExhausted (toolName : string)
| ErrMock (toolName errMsg : string).

(** The [Error()] method of those values. *)
Definition ErrorString `{fmt.Quote} (e : ResolveError) : string :=
  match e with
  | ErrNoMock tool => "no mock configured for tool " +:+ fmt.q tool
  | ErrExhausted tool =>
      "mock for tool " +:+ fmt.q tool +:+
      ": sequential responses exhausted and no default_response configured"
  | ErrMock tool msg =>
      "mock error for tool " +:+ fmt.q tool +:+ ": " +:+ msg
  end.

Definition NewRegistry (configs : list MockConfig) : MockRegistry :=
  {| mocks := foldl (fun m c => <[ToolName c := c]> m) ∅ configs;
     calls := [];
     callIdx := ∅ |}.

Definition Register (r : MockRegistry) (config : MockConfig) : MockRegistry :=
  {| mocks := <[ToolName config := config]> (mocks r);
     calls := calls r;
     callIdx := callIdx r |}.

(** The response a call selects, with the counter map after the call:
    the next one-shot response while the counter is inside the list,
    otherwise the default response; [None] when neither exists. *)
Definition selectResponse (cfg : MockConfig) (toolName : string)
    (idxs : gmap string nat) : option (MockResponse * gmap string nat) :=
  let idx := default 0%nat (idxs !! toolName) in
  match Responses cfg !! idx with
  | Some resp => Some (resp, <[toolName := S idx]> idxs)
  | None =>
      match DefaultResponse cfg with
      | Some resp => Some (resp, idxs)
      | None => None
      end
  end.

(** [Resolve] threads the registry and the clock: [time.Sleep] advances
    the clock by the configured delay. *)
Definition Resolve (r : MockRegistry) (clock : Time)
    (toolName : string) (params : Params)
  : (string * option ResolveError) * MockRegistry * Time :=
  let start := clock in
  match mocks r !! toolName with
  | None => (("", Some (ErrNoMock toolName)), r, clock)
  | Some cfg =>
      match selectResponse cfg toolName (callIdx r) with
      | None => (("", Some (ErrExhausted toolName)), r, clock)
      | Some (resp, idxs) =>
          let content := Content resp in
          let errMsg := Error resp in
          let delay := Delay resp in
          let clock := if 0 <? delay then clock + delay else clock in
          let duration := Sub clock start in
          let record :=
            {| recToolName := toolName; recParameters := params;
               recResponse := content; recError := errMsg;
               recDuration := duration; recTimestamp := start |} in
          let r := {| mocks := mocks r;
                      calls := calls r ++ [record];
                      callIdx := idxs |} in
          if decide (errMsg = "")
          then ((content, None), r, clock)
          else (("", Some (ErrMock toolName errMsg)), r, clock)
      end
  end.

Definition GetCalls (r : MockRegistry) : list ToolCallRecord := calls r.


(** What a call that selects [resp] returns. *)
Definition outcome (toolName : string) (resp : MockResponse)
  : string * option ResolveError :=
  if decide (Error resp = "")
  then (Content resp, None)
  else ("", Some (ErrMock toolName (Error resp))).

(** The per-tool call counter, as the index expression reads it. *)
Definition counter (r : MockRegistry) (toolName : string) : nat :=
  default 0%nat (callIdx r !! toolName).

(** What the call that finds the counter at [k] returns for a tool
    configured with [cfg]. *)
Definition expected (cfg : MockConfig) (toolName : string) (k : nat)
  : string * option ResolveError :=
  match Responses cfg !! k with
  | Some resp => outcome toolName resp
  | None =>
      match DefaultResponse cfg with
      | Some resp => outcome toolName resp
      | None => ("", Some (ErrExhausted toolName))
      end
  end.

(** A sequence of [Resolve] calls, oldest first, with their results. *)
Fixpoint resolveAll (r : MockRegistry) (clock : Time)
    (reqs : list (string * Params))
  : list (string * option ResolveError) * MockRegistry * Time :=
  match reqs with
  | [] => ([], r, clock)
  | (tool, params) :: reqs =>
      let '(res, r, clock) := Resolve r clock tool params in
      let '(ress, r, clock) := resolveAll r clock reqs in
      (res :: ress, r, clock)
  end.

(** The results of the calls for [toolName] among the calls [reqs] with
    results [ress], in call order. *)
Definition resultsFor (toolName : string) (reqs : list (string * Params))
    (ress : list (string * option ResolveError))
  : list (string * option ResolveError) :=
  map snd (filter (fun p => p.1.1 = toolName) (zip reqs ress)).


(** A result that comes with a record in the call log: every result but
    the two guard errors. *)
Definition recorded (res : string * option ResolveError) : bool :=
  match res.2 with
  | Some (ErrNoMock _) | Some (ErrExhausted _) => false
  | Some (ErrMock _ _) | None => true
  end.

End mock.

(** ** Package judge *)

Module judge.

Definition Status := string.
Definition StatusPass : Status := "pass".
Definition StatusFail : Status := "fail".
Definition StatusReview : Status := "review".
Definition StatusError : Status := "error".

Record Result := mkResult {
  Pass : bool;
  Score : float64.t;
  Reason : string
}.

Record Input := mkInput {
  Output : string;
  ExpectedOutput : string;
  ToolCalls : list trace.ToolCallTrace
}.

(** The [Judge] interface: an object is the record of its methods.  The
    error of [Evaluate] is the message of the Go [error], [None] for
    [nil]. *)
Record Judge := mkJudge {
  Evaluate : Input -> Result * option string;
  Name : string
}.

(** [HumanReviewJudge] of review.go. *)
Definition HumanReviewJudge (reason : string) : Judge :=
  {| Evaluate := fun _ =>
       let reason := if decide (reason = "") then "review" else reason in
       ({| Pass := false; Score := float64.zero; Reason := reason |}, None);
     Name := "human_review" |}.

(** Fields of [JudgeScore] and [CompositeResult] carry the prefixes [js]
    and [cr], the names being taken by [Result]. *)
Record JudgeScore := mkJudgeScore {
  jsJudgeName : string;
  jsPass : bool;
  jsScore : float64.t;
  jsWeight : float64.t;
  jsReason : string;
  jsStatus : Status
}.

Record CompositeResult := mkCompositeResult {
  crStatus : Status;
  CompositeScore : float64.t;
  crPass : bool;
  Scores : list JudgeScore;
  crReason : string
}.

Record JudgeConfig := mkJudgeConfig {
  Judge_ : Judge;
  Weight : float64.t
}.

Record CompositeScorer := mkCompositeScorer {
  Threshold : float64.t
}.

Definition NewCompositeScorer (threshold : float64.t) : CompositeScorer :=
  let threshold :=
    if float64.eqb threshold float64.zero then float64.lit 1 2
    else threshold in
  {| Threshold := threshold |}.

(** The weight a config is scored with: [1.0] when the field is zero. *)
Definition effectiveWeight (cfg : JudgeConfig) : float64.t :=
  if float64.eqb (Weight cfg) float64.zero then float64.one else Weight cfg.

(** The local variables of [Score] that the loop over the configs
    updates. *)
Record loopState := mkLoopState {
  scores : list JudgeScore;
  totalWeight : float64.t;
  weightedSum : float64.t;
  hasReview : bool;
  hasError : bool;
  reasons : list string
}.

Definition loopInit : loopState :=
  {| scores := []; totalWeight := float64.zero; weightedSum := float64.zero;
     hasReview := false; hasError := false; reasons := [] |}.

(** One iteration of the loop of [Score]. *)
Definition loopBody (input : Input) (st : loopState)
    (cfg : JudgeConfig) : loopState :=
  let w := effectiveWeight cfg in
  let '(result, err) := Evaluate (Judge_ cfg) input in
  let name := Name (Judge_ cfg) in
  match err with
  | Some e =>
      let js := {| jsJudgeName := name; jsPass := false;
                   jsScore := float64.zero; jsWeight := w;
                   jsReason := e; jsStatus := StatusError |} in
      {| scores := scores st ++ [js];
         totalWeight := totalWeight st;
         weightedSum := weightedSum st;
         hasReview := hasReview st;
         hasError := true;
         reasons := reasons st ++ [name +:+ ": error: " +:+ e] |}
  | None =>
      let review := bool_decide (Reason result = "review") in
      let status :=
        if review then StatusReview
        else if Pass result then StatusPass else StatusFail in
      let js := {| jsJudgeName := name; jsPass := Pass result;
                   jsScore := Score result; jsWeight := w;
                   jsReason := Reason result; jsStatus := status |} in
      {| scores := scores st ++ [js];
         totalWeight := float64.add (totalWeight st) w;
         weightedSum :=
           float64.add (weightedSum st) (float64.mul (Score result) w);
         hasReview := if review then true else hasReview st;
         hasError := hasError st;
         reasons := reasons st ++
           [name +:+ ": " +:+ Reason result +:+
            " (score=" +:+ fmt.f2 (Score result) +:+ ")"] |}
  end.

(** The method [Score] of [CompositeScorer]; the plain name is the field
    of [Result]. *)
Definition CompositeScorer_Score (cs : CompositeScorer) (input : Input)
    (configs : list JudgeConfig) : CompositeResult :=
  let st := foldl (loopBody input) loopInit configs in
  let composite :=
    if float64.ltb float64.zero (totalWeight st)
    then float64.div (weightedSum st) (totalWeight st)
    else float64.zero in
  let pass := float64.leb (Threshold cs) composite in
  let '(status, pass) :=
    if hasError st then (StatusError, false)
    else if hasReview st then (StatusReview, false)
    else if pass then (StatusPass, pass)
    else (StatusFail, pass) in
  {| crStatus := status;
     CompositeScore := composite;
     crPass := pass;
     Scores := scores st;
     crReason := String.concat "; " (reasons st) |}.

(** The judges of a scoring pass by outcome: the invocation failed; it
    succeeded with the reserved reason "review". *)
Definition errored (input : Input) (cfg : JudgeConfig) : bool :=
  match (Evaluate (Judge_ cfg) input).2 with
  | Some _ => true
  | None => false
  end.

Definition flaggedReview (input : Input) (cfg : JudgeConfig) : bool :=
  negb (errored input cfg) &&
  bool_decide (Reason (Evaluate (Judge_ cfg) input).1 = "review").

(** The judges whose invocation succeeded, in configuration order. *)
Definition contributing (input : Input) (configs : list JudgeConfig)
  : list JudgeConfig :=
  filter (fun cfg => errored input cfg = false) configs.

(** The weighted sum of the scores and the sum of the weights of a list
    of judges, added up from zero in list order. *)
Definition weightedSumOf (input : Input) (configs : list JudgeConfig)
  : float64.t :=
  foldl (fun acc cfg =>
           float64.add acc
             (float64.mul (Score (Evaluate (Judge_ cfg) input).1)
                          (effectiveWeight cfg)))
        float64.zero configs.

Definition weightSumOf (configs : list JudgeConfig) : float64.t :=
  foldl (fun acc cfg => float64.add acc (effectiveWeight cfg))
        float64.zero configs.

(** What [Score] keeps of one judge: the entry [js] of the breakdown for
    the config [cfg]. *)
Definition breakdownOf (input : Input) (cfg : JudgeConfig) (js : JudgeScore)
  : Prop :=
  jsJudgeName js = Name (Judge_ cfg) /\
  jsWeight js = effectiveWeight cfg /\
  match Evaluate (Judge_ cfg) input with
  | (_, Some e) =>
      jsStatus js = StatusError /\ jsReason js = e /\
      jsPass js = false /\ jsScore js = float64.zero
  | (res, None) =>
      jsPass js = Pass res /\ jsScore js = Score res /\
      jsReason js = Reason res /\
      jsStatus js =
        if decide (Reason res = "review") then StatusReview
        else if Pass res then StatusPass else StatusFail
  end.

(** *** ToolCallJudge *)

Record ExpectedToolCall := mkExpectedToolCall {
  etToolName : string;
  etParameters : trace.Params;
  Negate : bool;
  MatchMode : string
}.

Record ToolCallJudge := mkToolCallJudge {
  Expected : list ExpectedToolCall
}.

(** [len(m)], [m[k]] and the entries [range m] visits, for a map that
    may be nil. *)
Definition paramsLen (p : trace.Params) : nat :=
  match p with Some m => size m | None => 0 end.

Definition paramsLookup (p : trace.Params) (k : string)
  : option trace.Value :=
  match p with Some m => m !! k | None => None end.

Definition entries (p : trace.Params) : list (string * trace.Value) :=
  match p with Some m => map_to_list m | None => [] end.

(** The loop of [isSubset] and of [mapsEqual]: [false] at the first
    entry that [superset] lacks or holds with another printed value.
    The order in which [range] visits the entries is not specified; the
    result does not depend on it. *)
Definition isSubset `{fmt.Printer} (subset superset : trace.Params) : bool :=
  forallb (fun kv =>
             match paramsLookup superset kv.1 with
             | Some sv => bool_decide (fmt.v kv.2 = fmt.v sv)
             | None => false
             end)
          (entries subset).

Definition mapsEqual `{fmt.Printer} (a b : trace.Params) : bool :=
  if decide (paramsLen a = paramsLen b) then isSubset a b else false.

Definition paramsMatch `{fmt.Printer} (expected actual : trace.Params)
    (mode : string) : bool :=
  if decide (paramsLen expected = 0%nat) then true
  else if decide (mode = "exact") then mapsEqual expected actual
  else isSubset expected actual.

(** The test of the inner loop over the calls. *)
Definition callMatches `{fmt.Printer} (exp : ExpectedToolCall)
    (call : trace.ToolCallTrace) : bool :=
  bool_decide (trace.ToolName call = etToolName exp) &&
  paramsMatch (etParameters exp) (trace.Parameters call) (MatchMode exp).

(** The inner loop [for callIdx < len(input.ToolCalls)]: the calls from
    [callIdx] on are consumed up to and including the first match. *)
Fixpoint findCall `{fmt.Printer} (exp : ExpectedToolCall)
    (calls : list trace.ToolCallTrace) : bool * list trace.ToolCallTrace :=
  match calls with
  | [] => (false, [])
  | call :: calls =>
      if callMatches exp call then (true, calls) else findCall exp calls
  end.

Definition wasCalled (name : string) (calls : list trace.ToolCallTrace)
  : bool :=
  existsb (fun call => bool_decide (trace.ToolName call = name)) calls.

Definition ToolCallJudge_Evaluate `{fmt.Quote} `{fmt.Printer}
    (j : ToolCallJudge) (input : Input) : Result * option string :=
  let positives := filter (fun exp => Negate exp = false) (Expected j) in
  let negatives := filter (fun exp => Negate exp = true) (Expected j) in
  let failures :=
    foldl (fun failures neg =>
             if wasCalled (etToolName neg) (ToolCalls input)
             then failures ++
                  ["tool " +:+ fmt.q (etToolName neg) +:+
                   " was called but should not have been"]
             else failures)
          [] negatives in
  let '(failures, _) :=
    foldl (fun '(failures, calls) exp =>
             let '(found, calls) := findCall exp calls in
             (if found then failures
              else failures ++
                   ["expected tool call " +:+ fmt.q (etToolName exp) +:+
                    " not found in sequence"],
              calls))
          (failures, ToolCalls input) positives in
  if decide (length failures = 0%nat)
  then ({| Pass := true; Score := float64.one;
           Reason := "all tool call assertions passed" |}, None)
  else ({| Pass := false; Score := float64.zero;
           Reason := String.concat "; " failures |}, None).

(** The expectations [exps] can be met, in their order, by calls of
    [calls] taken in their order. *)
Inductive embeds `{fmt.Printer}
  : list ExpectedToolCall -> list trace.ToolCallTrace -> Prop :=
| embeds_nil calls : embeds [] calls
| embeds_match exp exps call calls :
    callMatches exp call = true -> embeds exps calls ->
    embeds (exp :: exps) (call :: calls)
| embeds_skip exps call calls :
    embeds exps calls -> embeds exps (call :: calls).

(** The parameters [actual] hold every entry of [expected], up to the
    printed form of the values. *)
Definition covers `{fmt.Printer} (expected actual : trace.Params) : Prop :=
  forall k v, paramsLookup expected k = Some v ->
    exists sv, paramsLookup actual k = Some sv /\ fmt.v v = fmt.v sv.

(** *** [truncate] of the exact judge (and of package evaltest): the
    slice expression [s[:maxLen]] panics for a negative [maxLen], which
    is [None] here. *)
Definition truncate (s : string) (maxLen : Z) : option string :=
  if Z.of_nat (String.length s) <=? maxLen then Some s
  else if maxLen <? 0 then None
  else Some (String.substring 0 (Z.to_nat maxLen) s +:+ "...").

End judge.

(** ** Package result (the types the diff engine reads) *)

Module result.

Record Stats := mkStats {
  TotalCases : Z;
  PassedCases : Z;
  FailedCases : Z;
  ErroredCases : Z;
  PassRate : float64.t;
  AvgScore : float64.t;
  LatencyP50 : trace.Duration;
  LatencyP95 : trace.Duration;
  TotalInputTokens : Z;
  TotalOutputTokens : Z
}.

Record CaseResult := mkCaseResult {
  CaseID : string;
  CaseName : string;
  Prompt : string;
  Model : string;
  FinalResponse : string;
  Score : float64.t;
  Pass : bool;
  Error : string;
  Duration : trace.Duration;
  InputTokens : Z;
  OutputTokens : Z
}.

Record RunSummary := mkRunSummary {
  RunID : string;
  SuiteName : string;
  StartTime : trace.Time;
  EndTime : trace.Time;
  rsDuration : trace.Duration;
  Stats_ : Stats;
  Results : list CaseResult
}.

End result.

(** ** Package diff *)

Module diff.

Definition Category := string.
Definition Improved : Category := "improved".
Definition Regressed : Category := "regressed".
Definition Unchanged : Category := "unchanged".
Definition New : Category := "new".
Definition Removed : Category := "removed".

Record CaseDiff := mkCaseDiff {
  CaseName : string;
  Category_ : Category;
  ScoreA : float64.t;
  ScoreB : float64.t;
  ScoreDelta : float64.t;
  StatusA : string;
  StatusB : string
}.

(** Counters of [Summary] count entries of a slice, whose length fits
    an [int]: they are natural numbers. *)
Record Summary := mkSummary {
  sImproved : nat;
  sRegressed : nat;
  sUnchanged : nat;
  sNew : nat;
  sRemoved : nat
}.

Record DiffResult := mkDiffResult {
  RunA : string;
  RunB : string;
  Cases : list CaseDiff;
  Summary_ : Summary
}.

Definition statusStr (cr : result.CaseResult) : string :=
  if decide (result.Error cr = "") then
    if result.Pass cr then "pass" else "fail"
  else "error".

(** [aMap] and [bMap]: the last case of a name wins. *)
Definition indexByName (rs : list result.CaseResult)
  : gmap string result.CaseResult :=
  foldl (fun m cr => <[result.CaseName cr := cr]> m) ∅ rs.

Definition appendCase (dr : DiffResult) (cd : CaseDiff)
    (bump : Summary -> Summary) : DiffResult :=
  {| RunA := RunA dr; RunB := RunB dr;
     Cases := Cases dr ++ [cd];
     Summary_ := bump (Summary_ dr) |}.

Definition incImproved (s : Summary) : Summary :=
  mkSummary (S (sImproved s)) (sRegressed s) (sUnchanged s) (sNew s) (sRemoved s).
Definition incRegressed (s : Summary) : Summary :=
  mkSummary (sImproved s) (S (sRegressed s)) (sUnchanged s) (sNew s) (sRemoved s).
Definition incUnchanged (s : Summary) : Summary :=
  mkSummary (sImproved s) (sRegressed s) (S (sUnchanged s)) (sNew s) (sRemoved s).
Definition incNew (s : Summary) : Summary :=
  mkSummary (sImproved s) (sRegressed s) (sUnchanged s) (S (sNew s)) (sRemoved s).
Definition incRemoved (s : Summary) : Summary :=
  mkSummary (sImproved s) (sRegressed s) (sUnchanged s) (sNew s) (S (sRemoved s)).

(** Body of the loop over the cases of run B; the state is [seen] and
    the result under construction. *)
Definition compareB (aMap : gmap string result.CaseResult)
    (threshold : float64.t)
    (st : gmap string bool * DiffResult) (crB : result.CaseResult)
  : gmap string bool * DiffResult :=
  let '(seen, dr) := st in
  let seen := <[result.CaseName crB := true]> seen in
  match aMap !! result.CaseName crB with
  | None =>
      let cd := {| CaseName := result.CaseName crB; Category_ := New;
                   ScoreA := float64.zero; ScoreB := result.Score crB;
                   ScoreDelta := float64.zero;
                   StatusA := ""; StatusB := statusStr crB |} in
      (seen, appendCase dr cd incNew)
  | Some crA =>
      let delta := float64.sub (result.Score crB) (result.Score crA) in
      let mk cat := {| CaseName := result.CaseName crB; Category_ := cat;
                       ScoreA := result.Score crA; ScoreB := result.Score crB;
                       ScoreDelta := delta;
                       StatusA := statusStr crA; StatusB := statusStr crB |} in
      if float64.leb (float64.abs delta) threshold
      then (seen, appendCase dr (mk Unchanged) incUnchanged)
      else if float64.ltb float64.zero delta
      then (seen, appendCase dr (mk Improved) incImproved)
      else (seen, appendCase dr (mk Regressed) incRegressed)
  end.

(** Body of the loop over the cases of run A. *)
Definition compareA (seen : gmap string bool) (dr : DiffResult)
    (crA : result.CaseResult) : DiffResult :=
  if default false (seen !! result.CaseName crA) then dr
  else
    appendCase dr
      {| CaseName := result.CaseName crA; Category_ := Removed;
         ScoreA := result.Score crA; ScoreB := float64.zero;
         ScoreDelta := float64.zero;
         StatusA := statusStr crA; StatusB := "" |}
      incRemoved.

Definition Compare (a b : result.RunSummary) (threshold : float64.t)
  : DiffResult :=
  let dr := {| RunA := result.RunID a; RunB := result.RunID b;
               Cases := []; Summary_ := mkSummary 0 0 0 0 0 |} in
  let aMap := indexByName (result.Results a) in
  let bMap := indexByName (result.Results b) in
  let '(seen, dr) :=
    foldl (compareB aMap threshold) (∅, dr) (result.Results b) in
  foldl (compareA seen) dr (result.Results a).

Definition Filter (dr : DiffResult) (categories : list Category)
  : DiffResult :=
  if decide (length categories = 0%nat) then dr
  else
    let catSet : gmap Category bool :=
      foldl (fun m c => <[c := true]> m) ∅ categories in
    let filtered :=
      foldl (fun acc cd =>
               if default false (catSet !! Category_ cd)
               then acc ++ [cd] else acc)
            [] (Cases dr) in
    {| RunA := RunA dr; RunB := RunB dr;
       Cases := filtered;
       Summary_ := Summary_ dr |}.

(** The number of entries of a category. *)
Definition countCat (c : Category) (cds : list CaseDiff) : nat :=
  length (filter (fun cd => Category_ cd = c) cds).

(** The counters of the summary are the numbers of entries per
    category. *)
Definition countsOK (dr : DiffResult) : Prop :=
  sImproved (Summary_ dr) = countCat Improved (Cases dr) /\
  sRegressed (Summary_ dr) = countCat Regressed (Cases dr) /\
  sUnchanged (Summary_ dr) = countCat Unchanged (Cases dr) /\
  sNew (Summary_ dr) = countCat New (Cases dr) /\
  sRemoved (Summary_ dr) = countCat Removed (Cases dr).

Definition names (rs : list result.CaseResult) : list string :=
  map result.CaseName rs.

(** The case a name denotes in a run: the last case of that name, which
    is the only one when the names of the run are unique. *)
Definition caseNamed (rs : list result.CaseResult) (name : string)
  : option result.CaseResult :=
  last (filter (fun cr => result.CaseName cr = name) rs).

(** The entry of a case of run A that run B lacks. *)
Definition removedEntry (crA : result.CaseResult) : CaseDiff :=
  {| CaseName := result.CaseName crA; Category_ := Removed;
     ScoreA := result.Score crA; ScoreB := float64.zero;
     ScoreDelta := float64.zero;
     StatusA := statusStr crA; StatusB := "" |}.

(** The category the code gives a score delta. *)
Definition categoryOf (threshold delta : float64.t) : Category :=
  if float64.leb (float64.abs delta) threshold then Unchanged
  else if float64.ltb float64.zero delta then Improved
  else Regressed.

(** [cd] is the entry of the case [crB] of run B, given the index of
    run A. *)
Definition entryOfB (aMap : gmap string result.CaseResult)
    (threshold : float64.t) (crB : result.CaseResult) (cd : CaseDiff)
  : Prop :=
  CaseName cd = result.CaseName crB /\
  ScoreB cd = result.Score crB /\
  StatusB cd = statusStr crB /\
  match aMap !! result.CaseName crB with
  | None => Category_ cd = New
  | Some crA =>
      ScoreA cd = result.Score crA /\
      StatusA cd = statusStr crA /\
      ScoreDelta cd = float64.sub (result.Score crB) (result.Score crA) /\
      Category_ cd = categoryOf threshold (ScoreDelta cd)
  end.

(** The five categories. *)
Definition categories : list Category :=
  [Improved; Regressed; Unchanged; New; Removed].

End diff.

(** ** Package context (the part the runner uses) *)

Module context.

Record Context := mkContext {
  Deadline : option trace.Time;
  Cancelled : bool
}.

Definition Background : Context := {| Deadline := None; Cancelled := false |}.

(** [context.WithTimeout]: the earlier of the parent's deadline and
    [now + timeout]. *)
Definition WithTimeout (parent : Context) (now : trace.Time)
    (timeout : trace.Duration) : Context :=
  let d := now + timeout in
  {| Deadline := Some (match Deadline parent with
                       | Some d0 => Z.min d0 d
                       | None => d
                       end);
     Cancelled := Cancelled parent |}.

End context.

(** ** Package provider *)

Module provider.

Record ToolCall := mkToolCall {
  ID : string;
  Name : string;
  Parameters : trace.Params
}.

Record Message := mkMessage {
  Role : string;
  Content : string;
  ToolCalls : list ToolCall;
  ToolCallID : string
}.

(** Fields of [Tool], [Response] and [Request] carry a prefix where the
    name is taken. *)
Record Tool := mkTool {
  toolName : string;
  toolDescription : string;
  toolParameters : trace.Params
}.

Record Usage := mkUsage {
  InputTokens : Z;
  OutputTokens : Z
}.

Record Response := mkResponse {
  respContent : string;
  respToolCalls : list ToolCall;
  Usage_ : Usage;
  StopReason : string
}.

Record Request := mkRequest {
  Model : string;
  System : string;
  Messages : list Message;
  Tools : list Tool;
  Temperature : float64.t;
  MaxTokens : Z
}.

(** The [Provider] interface.  A provider is a stateful object: [Complete]
    threads its state and the clock, and returns the response or the
    message of the error. *)
Class Provider (PS : Type) := {
  Complete : PS -> context.Context -> trace.Time -> Request ->
             (Response + string) * PS * trace.Time;
  ProviderName : PS -> string
}.

End provider.

(** ** Package prompt *)

Module prompt.

Record ToolDefinition := mkToolDefinition {
  tdName : string;
  tdDescription : string;
  tdParameters : trace.Params
}.

Record PromptVariant := mkPromptVariant {
  Name : string;
  Description : string;
  System : string;
  User : string;
  Tools : list ToolDefinition;
  Metadata : gmap string string
}.

(** Package text/template with the option [missingkey=error], as an
    interface: parsing and execution either succeed or give the message
    of their error. *)
Class Engine := {
  Template : Type;
  Parse : string -> string -> Template + string;
  Execute : Template -> trace.Params -> string + string
}.

Definition renderTemplate `{Engine} (name text : string)
    (vars : trace.Params) : string + string :=
  if decide (text = "") then inl ""
  else
    match Parse name text with
    | inr err => inr ("parsing template: " +:+ err)
    | inl tmpl =>
        match Execute tmpl vars with
        | inr err => inr ("executing template: " +:+ err)
        | inl s => inl s
        end
    end.

Definition Interpolate `{fmt.Quote} `{Engine} (p : PromptVariant)
    (vars : trace.Params) : PromptVariant + string :=
  match renderTemplate (Name p +:+ ".system") (System p) vars with
  | inr err =>
      inr ("interpolating system prompt for " +:+ fmt.q (Name p) +:+
           ": " +:+ err)
  | inl sys =>
      match renderTemplate (Name p +:+ ".user") (User p) vars with
      | inr err =>
          inr ("interpolating user prompt for " +:+ fmt.q (Name p) +:+
               ": " +:+ err)
      | inl usr =>
          inl {| Name := Name p; Description := Description p;
                 System := sys; User := usr;
                 Tools := Tools p; Metadata := Metadata p |}
      end
  end.

(** [Validate]: the error, if there is one. *)
Definition Validate `{fmt.Quote} (p : PromptVariant) : option string :=
  if decide (Name p = "") then Some "prompt name is required"
  else if decide (System p = "" /\ User p = "")
  then Some ("prompt " +:+ fmt.q (Name p) +:+
             " must have at least a system or user prompt")
  else None.

End prompt.

(** ** Package suite (types) *)

Module suite.

Record JudgeConfig := mkJudgeConfig {
  Type_ : string;
  Value : string;
  Weight : float64.t;
  Comment : string
}.

Record EvalCase := mkEvalCase {
  ID : string;
  Name : string;
  Input : trace.Params;
  Context : string;
  Mocks : list mock.MockConfig;
  Judges : list JudgeConfig;
  ExpectedOutput : string;
  ExpectedTools : list string;
  Tags : list string;
  Timeout : trace.Duration
}.

Record EvalSuite := mkEvalSuite {
  suiteName : string;
  Description : string;
  Prompt : string;
  DefaultJudges : list JudgeConfig;
  DefaultMocks : list mock.MockConfig;
  Cases : list EvalCase
}.

(** [Validate]: the error, if there is one.  [validateCases] is the loop
    over the cases, [i] being the index of the first case of the list. *)
Fixpoint validateCases `{fmt.Quote} (name : string) (i : nat)
    (cases : list EvalCase) : option string :=
  match cases with
  | [] => None
  | c :: cases =>
      if decide (Name c = "")
      then Some ("suite " +:+ fmt.q name +:+ ": case " +:+ pretty i +:+
                 " has no name")
      else validateCases name (S i) cases
  end.

Definition Validate `{fmt.Quote} (s : EvalSuite) : option string :=
  if decide (suiteName s = "") then Some "suite name is required"
  else if decide (length (Cases s) = 0%nat)
  then Some ("suite " +:+ fmt.q (suiteName s) +:+
             " must have at least one case")
  else validateCases (suiteName s) 0 (Cases s).

(** [FilterByTag].  [tagSet[t]] is [false] for a tag that is not a key;
    [anyTag] is the loop over the tags of a case, left at the first
    tag of the set. *)
Definition tagSetOf (tags : list string) : gmap string bool :=
  foldl (fun m t => <[t := true]> m) ∅ tags.

Definition hasTag (tagSet : gmap string bool) (t : string) : bool :=
  default false (tagSet !! t).

Fixpoint anyTag (tagSet : gmap string bool) (tags : list string) : bool :=
  match tags with
  | [] => false
  | t :: tags => if hasTag tagSet t then true else anyTag tagSet tags
  end.

Definition FilterByTag (s : EvalSuite) (tags : list string) : EvalSuite :=
  if decide (length tags = 0%nat) then s
  else
    let tagSet := tagSetOf tags in
    {| suiteName := suiteName s; Description := Description s;
       Prompt := Prompt s; DefaultJudges := DefaultJudges s;
       DefaultMocks := DefaultMocks s;
       Cases := foldl (fun cases c =>
                         if anyTag tagSet (Tags c) then cases ++ [c]
                         else cases)
                      [] (Cases s) |}.

(** [applyDefaults], returning the suite it leaves. *)
Definition applyDefaults (s : EvalSuite) : EvalSuite :=
  {| suiteName := suiteName s; Description := Description s;
     Prompt := Prompt s; DefaultJudges := DefaultJudges s;
     DefaultMocks := DefaultMocks s;
     Cases :=
       map (fun c =>
              let judges :=
                if (length (Judges c) =? 0)%nat &&
                   (0 <? length (DefaultJudges s))%nat
                then DefaultJudges s else Judges c in
              let mocks :=
                if (length (Mocks c) =? 0)%nat &&
                   (0 <? length (DefaultMocks s))%nat
                then DefaultMocks s else Mocks c in
              {| ID := ID c; Name := Name c; Input := Input c;
                 Context := Context c; Mocks := mocks; Judges := judges;
                 ExpectedOutput := ExpectedOutput c;
                 ExpectedTools := ExpectedTools c; Tags := Tags c;
                 Timeout := Timeout c |})
           (Cases s) |}.

(** The judges and the mocks a case runs with once the defaults of the
    suite are applied. *)
Definition effectiveJudges (s : EvalSuite) (c : EvalCase)
  : list JudgeConfig :=
  match Judges c with [] => DefaultJudges s | _ :: _ => Judges c end.

Definition effectiveMocks (s : EvalSuite) (c : EvalCase)
  : list mock.MockConfig :=
  match Mocks c with [] => DefaultMocks s | _ :: _ => Mocks c end.

(** A case that carries one of the tags. *)
Definition tagged (tags : list string) (c : EvalCase) : Prop :=
  Exists (fun t => t ∈ tags) (Tags c).

End suite.

(** ** Package runner *)

Module runner.

Definition MaxToolLoopIterations : nat := 20.

Record CaseResult := mkCaseResult {
  CaseName : string;
  CaseID : string;
  Prompt : string;
  Model : string;
  FinalResponse : string;
  Trace : option trace.AgentTrace;
  Error : string;
  Duration : trace.Duration
}.

Record RunResult := mkRunResult {
  SuiteName : string;
  StartTime : trace.Time;
  EndTime : trace.Time;
  rrDuration : trace.Duration;
  Cases : list CaseResult
}.

Record Config := mkConfig {
  Concurrency : Z;
  Timeout : trace.Duration
}.

Record Runner := mkRunner { cfg : Config }.

Definition Second : trace.Duration := 1000000000.

Definition New (cfg : Config) : Runner :=
  let conc := if Concurrency cfg <? 1 then 1 else Concurrency cfg in
  let tmo := if Timeout cfg <=? 0 then 60 * Second else Timeout cfg in
  {| cfg := {| Concurrency := conc; Timeout := tmo |} |}.

(** *** The tool loop of [runCase] *)

(** The variables the loop updates: the fields of [cr] it assigns, the
    trace, the message history, the mock registry, the provider and the
    clock. *)
Record loopState (PS : Type) := mkLoopState {
  lsModel : string;
  lsFinalResponse : string;
  lsError : string;
  lsTrace : trace.AgentTrace;
  lsMessages : list provider.Message;
  lsRegistry : mock.MockRegistry;
  lsProvider : PS;
  lsClock : trace.Time
}.

Arguments mkLoopState {PS}.
Arguments lsModel {PS}.
Arguments lsFinalResponse {PS}.
Arguments lsError {PS}.
Arguments lsTrace {PS}.
Arguments lsMessages {PS}.
Arguments lsRegistry {PS}.
Arguments lsProvider {PS}.
Arguments lsClock {PS}.

(** Body of the loop over the tool calls of one response. *)
Definition resolveToolCall `{fmt.Quote} {PS : Type} (st : loopState PS)
    (tc : provider.ToolCall) : loopState PS :=
  let tcStart := lsClock st in
  let '(res, registry, clock) :=
    mock.Resolve (lsRegistry st) (lsClock st)
      (provider.Name tc) (provider.Parameters tc) in
  let '(content, mockErr) := res in
  let tcDuration := trace.Sub clock tcStart in
  let tcTrace :=
    {| trace.ToolName := provider.Name tc;
       trace.Parameters := provider.Parameters tc;
       trace.Response := content;
       trace.Error := match mockErr with
                      | Some e => mock.ErrorString e
                      | None => ""
                      end;
       trace.tcStartTime := tcStart;
       trace.tcEndTime := clock;
       trace.tcDuration := tcDuration |} in
  let tr := trace.AddToolCall (lsTrace st) tcTrace in
  let toolContent :=
    match mockErr with
    | Some e => "Error: " +:+ mock.ErrorString e
    | None => content
    end in
  let messages :=
    lsMessages st ++
    [{| provider.Role := "tool"; provider.Content := toolContent;
        provider.ToolCalls := [];
        provider.ToolCallID := provider.ID tc |}] in
  {| lsModel := lsModel st; lsFinalResponse := lsFinalResponse st;
     lsError := lsError st;
     lsTrace := trace.AddMessage tr clock "tool" toolContent;
     lsMessages := messages;
     lsRegistry := registry;
     lsProvider := lsProvider st;
     lsClock := clock |}.

(** The loop [for iteration := 0; iteration < MaxToolLoopIterations;
    iteration++]; [fuel] is the number of iterations left.  A [break]
    returns the state; falling out of the loop returns it as well. *)
Fixpoint toolLoop `{fmt.Quote} {PS : Type} `{provider.Provider PS}
    (caseCtx : context.Context) (system : string)
    (tools : list provider.Tool) (fuel : nat) (st : loopState PS)
  : loopState PS :=
  match fuel with
  | O => st
  | S fuel =>
      let req :=
        {| provider.Model := ""; provider.System := system;
           provider.Messages := lsMessages st; provider.Tools := tools;
           provider.Temperature := float64.zero;
           provider.MaxTokens := 0 |} in
      let '(reply, p, clock) :=
        provider.Complete (lsProvider st) caseCtx (lsClock st) req in
      match reply with
      | inr err =>
          {| lsModel := lsModel st; lsFinalResponse := lsFinalResponse st;
             lsError := "provider error: " +:+ err;
             lsTrace := lsTrace st; lsMessages := lsMessages st;
             lsRegistry := lsRegistry st;
             lsProvider := p; lsClock := clock |}
      | inl resp =>
          let tr :=
            trace.AddUsage (lsTrace st)
              (provider.InputTokens (provider.Usage_ resp))
              (provider.OutputTokens (provider.Usage_ resp)) in
          let tr :=
            trace.AddMessage tr clock "assistant" (provider.respContent resp) in
          match provider.respToolCalls resp with
          | [] =>
              {| lsModel := provider.Model req;
                 lsFinalResponse := provider.respContent resp;
                 lsError := lsError st;
                 lsTrace := tr; lsMessages := lsMessages st;
                 lsRegistry := lsRegistry st;
                 lsProvider := p; lsClock := clock |}
          | _ :: _ =>
              let messages :=
                lsMessages st ++
                [{| provider.Role := "assistant";
                    provider.Content := provider.respContent resp;
                    provider.ToolCalls := provider.respToolCalls resp;
                    provider.ToolCallID := "" |}] in
              let st :=
                {| lsModel := provider.Model req;
                   lsFinalResponse := lsFinalResponse st;
                   lsError := lsError st;
                   lsTrace := tr; lsMessages := messages;
                   lsRegistry := lsRegistry st;
                   lsProvider := p; lsClock := clock |} in
              toolLoop caseCtx system tools fuel
                (foldl resolveToolCall st (provider.respToolCalls resp))
          end
      end
  end.

(** [runCase] returns the case result with the provider and the clock
    after the case.  The clock is an idealisation: time passes only
    inside [Resolve] (by the configured delay) and inside [Complete],
    and the reads of [time.Now] between two such calls see one value,
    whereas the program reads the wall clock anew each time.  What is
    proved of the time stamps and durations of a case is therefore
    relative to this clock. *)
Definition runCase `{fmt.Quote} `{prompt.Engine} {PS : Type}
    `{provider.Provider PS}
    (r : Runner) (ctx : context.Context) (c : suite.EvalCase)
    (pv : prompt.PromptVariant) (p : PS) (clock : trace.Time)
  : CaseResult * PS * trace.Time :=
  let start := clock in
  let timeout :=
    if 0 <? suite.Timeout c then suite.Timeout c else Timeout (cfg r) in
  let caseCtx := context.WithTimeout ctx clock timeout in
  let registry := mock.NewRegistry (suite.Mocks c) in
  match prompt.Interpolate pv (suite.Input c) with
  | inr err =>
      ({| CaseName := suite.Name c; CaseID := suite.ID c;
          Prompt := prompt.Name pv; Model := "";
          FinalResponse := ""; Trace := None;
          Error := "interpolating prompt: " +:+ err;
          Duration := trace.Sub clock start |}, p, clock)
  | inl rendered =>
      let tools :=
        map (fun t => {| provider.toolName := prompt.tdName t;
                         provider.toolDescription := prompt.tdDescription t;
                         provider.toolParameters := prompt.tdParameters t |})
            (prompt.Tools rendered) in
      let tr := trace.New clock in
      let messages :=
        [{| provider.Role := "user";
            provider.Content := prompt.User rendered;
            provider.ToolCalls := []; provider.ToolCallID := "" |}] in
      let tr := trace.AddMessage tr clock "user" (prompt.User rendered) in
      let st :=
        toolLoop caseCtx (prompt.System rendered) tools
          MaxToolLoopIterations
          {| lsModel := ""; lsFinalResponse := ""; lsError := "";
             lsTrace := tr; lsMessages := messages;
             lsRegistry := registry; lsProvider := p; lsClock := clock |} in
      let tr := trace.Finish (lsTrace st) (lsClock st) in
      ({| CaseName := suite.Name c; CaseID := suite.ID c;
          Prompt := prompt.Name pv; Model := lsModel st;
          FinalResponse := lsFinalResponse st; Trace := Some tr;
          Error := lsError st;
          Duration := trace.Sub (lsClock st) start |},
       lsProvider st, lsClock st)
  end.

(** The tool-result messages of a trace and the tool-call ledger say the
    same: the content of the [i]-th message of role "tool" is the
    response of the [i]-th tool call, or "Error: " and its error. *)
Definition toolContent (tc : trace.ToolCallTrace) : string :=
  if decide (trace.Error tc = "") then trace.Response tc
  else "Error: " +:+ trace.Error tc.

Definition toolMessages (tr : trace.AgentTrace) : list string :=
  map trace.Content
      (filter (fun m => trace.Role m = "tool") (trace.Messages tr)).

(** How a case ended: with the final response of the provider, with a
    provider error, or with neither. *)
Definition endedWell (err final : string) : Prop :=
  err = "" \/
  (final = "" /\ exists msg, err = "provider error: " +:+ msg).

(** What the loop keeps true of its state: the model is never set, the
    trace starts with the message [m0] and at [t0], and its tool
    messages agree with its tool calls. *)
Definition running {PS : Type} (m0 : trace.Message) (t0 : trace.Time)
    (st : loopState PS) : Prop :=
  lsModel st = "" /\
  trace.Messages (lsTrace st) !! 0%nat = Some m0 /\
  trace.StartTime (lsTrace st) = t0 /\
  toolMessages (lsTrace st) = map toolContent (trace.ToolCalls (lsTrace st)).

(** The messages the loop adds to the trace: assistant and tool
    messages. *)
Definition replies (ms : list trace.Message) : Prop :=
  Forall (fun m => trace.Role m = "assistant" \/ trace.Role m = "tool") ms.

(** The conversation between two requests that follow each other: the
    later one repeats the earlier one and adds the assistant message
    that asked for tools and one message of role "tool" per tool call,
    in the order of the calls and under their ids. *)
Definition turn (a b : list provider.Message) : Prop :=
  exists asst tools,
    b = a ++ asst :: tools /\
    provider.Role asst = "assistant" /\
    provider.ToolCalls asst <> [] /\
    map provider.ToolCallID tools = map provider.ID (provider.ToolCalls asst) /\
    Forall (fun m => provider.Role m = "tool") tools.

Fixpoint chained (prev : list provider.Message)
    (reqs : list (list provider.Message)) : Prop :=
  match reqs with
  | [] => True
  | req :: reqs => turn prev req /\ chained req reqs
  end.

(** A provider that answers every request with tool calls. *)
Definition alwaysRequestsTools (PS : Type) `{provider.Provider PS} : Prop :=
  forall (p : PS) ctx clock req,
    exists resp,
      (provider.Complete p ctx clock req).1.1 = inl resp /\
      provider.respToolCalls resp <> [].

(** *** [Run]: one goroutine per case, under an interleaving semantics

    [Run] starts one goroutine per case and waits for all of them.  Each
    goroutine goes through the points below; a step of the whole program
    is a step of one goroutine (or the start of the next one by the
    loop of [Run]).  The buffered channel [sem] is the number of elements
    it holds: a send is enabled while that number is below the capacity.
    The section under the mutex is one step.  The provider is shared by
    the goroutines, so the replies a case sees depend on the interleaving:
    the step that runs a case takes the provider as the case saw it. *)

Record ProgressCall := mkProgressCall {
  pcIndex : Z;
  pcTotal : Z;
  pcCaseName : string;
  pcElapsed : trace.Duration;
  pcErr : option string
}.

Inductive goroutine :=
| Spawned                                (* before [sem <- struct{}{}] *)
| Acquired                               (* in [runCase] *)
| Returned (cr : CaseResult)             (* [runCase] returned [cr] *)
| Stored (cr : CaseResult) (current : Z) (* after [mu.Unlock()] *)
| Reported (cr : CaseResult)             (* after the progress callback *)
| Released (cr : CaseResult)             (* after [<-sem] *)
| Finished (cr : CaseResult).            (* after [wg.Done()] *)

Record runState := mkRunState {
  sem : nat;
  gos : list goroutine;
  resultCases : list CaseResult;
  completed : Z;
  progressCalls : list ProgressCall
}.

Record providerView := mkProviderView {
  PS : Type;
  PS_provider : provider.Provider PS;
  pstate : PS
}.

Inductive action :=
| Spawn
| Acquire (i : nat)
| RunCase (i : nat) (p : providerView) (clock : trace.Time)
| Store (i : nat)
| Report (i : nat) (clock : trace.Time)
| Release (i : nat)
| Done (i : nat).

(** A goroutine between [sem <- struct{}{}] and [<-sem]. *)
Definition holding (g : goroutine) : bool :=
  match g with
  | Acquired | Returned _ | Stored _ _ | Reported _ => true
  | Spawned | Released _ | Finished _ => false
  end.

Definition active (st : runState) : nat := length (filter holding (gos st)).

Definition isFinished (g : goroutine) : bool :=
  match g with Finished _ => true | _ => false end.

Definition zeroCaseResult : CaseResult :=
  {| CaseName := ""; CaseID := ""; Prompt := ""; Model := "";
     FinalResponse := ""; Trace := None; Error := ""; Duration := 0 |}.

(** The result a goroutine got from [runCase], once it has one; the
    result it has stored in its slot, once it has done so. *)
Definition resultOf (g : goroutine) : option CaseResult :=
  match g with
  | Spawned | Acquired => None
  | Returned cr | Stored cr _ | Reported cr | Released cr | Finished cr =>
      Some cr
  end.

Definition storedOf (g : goroutine) : option CaseResult :=
  match g with
  | Spawned | Acquired | Returned _ => None
  | Stored cr _ | Reported cr | Released cr | Finished cr => Some cr
  end.

Section Run.

Context `{fmt.Quote} `{prompt.Engine}.
Variables (r : Runner) (ctx : context.Context) (s : suite.EvalSuite)
  (pv : prompt.PromptVariant).
(** Whether a progress callback was given, and [result.StartTime]. *)
Variables (progress : bool) (start : trace.Time).

Definition capacity : nat := Z.to_nat (Concurrency (cfg r)).

Definition initState : runState :=
  {| sem := 0;
     gos := [];
     resultCases := replicate (length (suite.Cases s)) zeroCaseResult;
     completed := 0;
     progressCalls := [] |}.

Definition setGo (st : runState) (i : nat) (g : goroutine) : runState :=
  {| sem := sem st; gos := <[i := g]> (gos st);
     resultCases := resultCases st; completed := completed st;
     progressCalls := progressCalls st |}.

Definition step (a : action) (st : runState) : option runState :=
  match a with
  | Spawn =>
      if decide (length (gos st) < length (suite.Cases s))%nat
      then Some {| sem := sem st; gos := gos st ++ [Spawned];
                   resultCases := resultCases st;
                   completed := completed st;
                   progressCalls := progressCalls st |}
      else None
  | Acquire i =>
      match gos st !! i with
      | Some Spawned =>
          if decide (sem st < capacity)%nat
          then Some {| sem := S (sem st); gos := <[i := Acquired]> (gos st);
                       resultCases := resultCases st;
                       completed := completed st;
                       progressCalls := progressCalls st |}
          else None
      | _ => None
      end
  | RunCase i p clock =>
      match gos st !! i, suite.Cases s !! i with
      | Some Acquired, Some ec =>
          let cr :=
            (@runCase _ _ (PS p) (PS_provider p) r ctx ec pv
                      (pstate p) clock).1.1 in
          Some (setGo st i (Returned cr))
      | _, _ => None
      end
  | Store i =>
      match gos st !! i with
      | Some (Returned cr) =>
          let current := completed st + 1 in
          Some {| sem := sem st;
                  gos := <[i := Stored cr current]> (gos st);
                  resultCases := <[i := cr]> (resultCases st);
                  completed := current;
                  progressCalls := progressCalls st |}
      | _ => None
      end
  | Report i clock =>
      match gos st !! i, suite.Cases s !! i with
      | Some (Stored cr current), Some ec =>
          let caseErr :=
            if decide (Error cr = "") then None else Some (Error cr) in
          let call :=
            {| pcIndex := current - 1;
               pcTotal := Z.of_nat (length (suite.Cases s));
               pcCaseName := suite.Name ec;
               pcElapsed := trace.Sub clock start;
               pcErr := caseErr |} in
          Some {| sem := sem st;
                  gos := <[i := Reported cr]> (gos st);
                  resultCases := resultCases st;
                  completed := completed st;
                  progressCalls :=
                    if progress then progressCalls st ++ [call]
                    else progressCalls st |}
      | _, _ => None
      end
  | Release i =>
      match gos st !! i with
      | Some (Reported cr) =>
          Some {| sem := pred (sem st);
                  gos := <[i := Released cr]> (gos st);
                  resultCases := resultCases st;
                  completed := completed st;
                  progressCalls := progressCalls st |}
      | _ => None
      end
  | Done i =>
      match gos st !! i with
      | Some (Released cr) => Some (setGo st i (Finished cr))
      | _ => None
      end
  end.

(** A schedule: the steps of an execution, in order. *)
Fixpoint exec (sched : list action) (st : runState) : option runState :=
  match sched with
  | [] => Some st
  | a :: sched =>
      match step a st with
      | Some st => exec sched st
      | None => None
      end
  end.

(** [wg.Wait()] returns: every case has its goroutine and every
    goroutine has called [wg.Done()]. *)
Definition finished (st : runState) : bool :=
  bool_decide (length (gos st) = length (suite.Cases s)) &&
  forallb isFinished (gos st).

(** [Run] under the schedule [sched], returning at time [stop]; [None]
    when [sched] is not a complete execution. *)
Definition Run (sched : list action) (stop : trace.Time)
  : option RunResult :=
  match exec sched initState with
  | Some st =>
      if finished st
      then Some {| SuiteName := suite.suiteName s;
                   StartTime := start; EndTime := stop;
                   rrDuration := trace.Sub stop start;
                   Cases := resultCases st |}
      else None
  | None => None
  end.

(** The results [runCase] can return for a case. *)
Definition caseOutcome (ec : suite.EvalCase) (cr : CaseResult) : Prop :=
  exists (p : providerView) (clock : trace.Time),
    cr = (@runCase _ _ (PS p) (PS_provider p) r ctx ec pv
                   (pstate p) clock).1.1.

(** The schedule that runs the case of index [i] from start to end with
    the provider [p], and the schedule that runs the cases [i], [i+1],
    ... one after the other. *)
Definition caseSchedule (i : nat) (p : providerView) (clock : trace.Time)
  : list action :=
  [Spawn; Acquire i; RunCase i p clock; Store i; Report i clock;
   Release i; Done i].

Fixpoint sequentialSchedule (i count : nat) (p : providerView)
    (clock : trace.Time) : list action :=
  match count with
  | O => []
  | S count =>
      caseSchedule i p clock ++ sequentialSchedule (S i) count p clock
  end.

(** The invariant of [Run]: no more goroutines than cases, one slot per
    case, the semaphore counts the goroutines that hold it and stays
    within the capacity, every result a goroutine holds came from
    [runCase] on the case of its own index, and every goroutine past the
    store has its result in the slot of its own index. *)
Definition invariant (st : runState) : Prop :=
  (length (gos st) <= length (suite.Cases s))%nat /\
  length (resultCases st) = length (suite.Cases s) /\
  sem st = active st /\
  (sem st <= capacity)%nat /\
  (forall i g cr, gos st !! i = Some g -> resultOf g = Some cr ->
     exists ec, suite.Cases s !! i = Some ec /\ caseOutcome ec cr) /\
  (forall i g cr, gos st !! i = Some g -> storedOf g = Some cr ->
     resultCases st !! i = Some cr).

End Run.

(** The steps a goroutine still has to take, and the steps [Run] still
    has to take before [wg.Wait()] returns: those of the goroutines
    started and seven for each case whose goroutine is still to start. *)
Definition stepsLeft (g : goroutine) : nat :=
  match g with
  | Spawned => 6
  | Acquired => 5
  | Returned _ => 4
  | Stored _ _ => 3
  | Reported _ => 2
  | Released _ => 1
  | Finished _ => 0
  end.

Definition workLeft (s : suite.EvalSuite) (st : runState) : nat :=
  (sum_list (map stepsLeft (gos st)) +
   7 * (length (suite.Cases s) - length (gos st)))%nat.

(** The index a goroutine will pass to the progress callback, between
    its store and its report; the goroutines past the report. *)
Definition pendingIndex (g : goroutine) : option Z :=
  match g with
  | Stored _ current => Some (current - 1)
  | _ => None
  end.

Definition pastReport (g : goroutine) : bool :=
  match g with
  | Reported _ | Released _ | Finished _ => true
  | Spawned | Acquired | Returned _ | Stored _ _ => false
  end.

(** What holds of the progress callback in every state of [Run]: the
    counter [completed] is some [k]; the indices passed to the callback
    so far, with those of the goroutines between store and report, are
    the numbers below [k], each once; one call has been made per
    goroutine past its report; every call was given the number of
    cases as the total. *)
Definition reportedIndices (st : runState) : list Z :=
  map pcIndex (progressCalls st).

Definition pendingIndices (st : runState) : list Z :=
  omap pendingIndex (gos st).

Definition callbackInvariant (s : suite.EvalSuite) (st : runState) : Prop :=
  exists k : nat,
    completed st = Z.of_nat k /\
    reportedIndices st ++ pendingIndices st ≡ₚ Z.of_nat <$> seq 0 k /\
    length (progressCalls st) = length (filter pastReport (gos st)) /\
    Forall (fun call => pcTotal call = Z.of_nat (length (suite.Cases s)))
           (progressCalls st).

(** A goroutine that can take its next step whatever the others do. *)
Definition inFlight (g : goroutine) : bool :=
  match g with
  | Spawned | Finished _ => false
  | Acquired | Returned _ | Stored _ _ | Reported _ | Released _ => true
  end.

End runner.

(** ** Package result: from the result of a run to its summary

    The functions of package result that read a [runner.RunResult].
    [Time.Format] is taken as an interface.  A slice index out of range
    is a panic: [percentile], and with it [ComputeStats] and
    [FromRunResult], return [None] then. *)

Module summary.

Import result.

Class Calendar := { Format : trace.Time -> string -> string }.

Definition percentile (sorted : list trace.Duration) (p : float64.t)
  : option trace.Duration :=
  if decide (length sorted = 0%nat) then Some 0
  else
    let idx := float64.mul p (float64.of_Z (Z.of_nat (length sorted) - 1)) in
    let lower := float64.floorInt idx in
    let upper := float64.ceilInt idx in
    let at_ (i : Z) : option trace.Duration :=
      if i <? 0 then None else sorted !! Z.to_nat i in
    if (lower =? upper) || (Z.of_nat (length sorted) <=? upper)
    then at_ lower
    else
      let frac := float64.sub idx (float64.of_Z lower) in
      lo ← at_ lower;
      hi ← at_ upper;
      Some (float64.toInt
              (float64.add
                 (float64.mul (float64.of_Z lo)
                    (float64.sub float64.one frac))
                 (float64.mul (float64.of_Z hi) frac))).

(** The variables the loop of [ComputeStats] updates.  The three
    counters are incremented at most once per element of the slice. *)
Record tally := mkTally {
  errored : Z;
  passed : Z;
  failed : Z;
  totalScore : float64.t;
  durations : list trace.Duration;
  inputTokens : Z;
  outputTokens : Z
}.

Definition tallyInit : tally :=
  {| errored := 0; passed := 0; failed := 0; totalScore := float64.zero;
     durations := []; inputTokens := 0; outputTokens := 0 |}.

Definition tallyStep (t : tally) (r : CaseResult) : tally :=
  {| errored := if decide (Error r = "") then errored t else errored t + 1;
     passed := if decide (Error r = "") then
                 if Pass r then passed t + 1 else passed t
               else passed t;
     failed := if decide (Error r = "") then
                 if Pass r then failed t else failed t + 1
               else failed t;
     totalScore := float64.add (totalScore t) (Score r);
     durations := durations t ++ [Duration r];
     inputTokens := goint.add (inputTokens t) (InputTokens r);
     outputTokens := goint.add (outputTokens t) (OutputTokens r) |}.

Definition ComputeStats (results : list CaseResult) : option Stats :=
  let total := Z.of_nat (length results) in
  if decide (length results = 0%nat)
  then Some {| TotalCases := total; PassedCases := 0; FailedCases := 0;
               ErroredCases := 0; PassRate := float64.zero;
               AvgScore := float64.zero; LatencyP50 := 0; LatencyP95 := 0;
               TotalInputTokens := 0; TotalOutputTokens := 0 |}
  else
    let t := foldl tallyStep tallyInit results in
    let nonErrored := total - errored t in
    let passRate :=
      if 0 <? nonErrored
      then float64.div (float64.of_Z (passed t)) (float64.of_Z nonErrored)
      else float64.zero in
    let avgScore := float64.div (totalScore t) (float64.of_Z total) in
    let sorted := merge_sort Z.le (durations t) in
    p50 ← percentile sorted (float64.lit 5 10);
    p95 ← percentile sorted (float64.lit 95 100);
    Some {| TotalCases := total; PassedCases := passed t;
            FailedCases := failed t; ErroredCases := errored t;
            PassRate := passRate; AvgScore := avgScore;
            LatencyP50 := p50; LatencyP95 := p95;
            TotalInputTokens := inputTokens t;
            TotalOutputTokens := outputTokens t |}.

(** The body of the loop of [FromRunResult]. *)
Definition caseResultOf (cr : runner.CaseResult) : CaseResult :=
  {| CaseID := runner.CaseID cr; CaseName := runner.CaseName cr;
     Prompt := runner.Prompt cr; Model := runner.Model cr;
     FinalResponse := runner.FinalResponse cr;
     Score := float64.zero; Pass := false;
     Error := runner.Error cr; Duration := runner.Duration cr;
     InputTokens :=
       match runner.Trace cr with
       | Some tr => trace.InputTokens (trace.GetUsage tr)
       | None => 0
       end;
     OutputTokens :=
       match runner.Trace cr with
       | Some tr => trace.OutputTokens (trace.GetUsage tr)
       | None => 0
       end |}.

Definition FromRunResult `{Calendar} (rr : runner.RunResult)
  : option RunSummary :=
  let runID :=
    Format (runner.StartTime rr) "20060102-150405" +:+ "-" +:+
    runner.SuiteName rr in
  let results := map caseResultOf (runner.Cases rr) in
  stats ← ComputeStats results;
  Some {| RunID := runID; SuiteName := runner.SuiteName rr;
          StartTime := runner.StartTime rr; EndTime := runner.EndTime rr;
          rsDuration := runner.rrDuration rr;
          Stats_ := stats; Results := results |}.

(** The number of results that satisfy a test. *)
Definition count (f : CaseResult -> bool) (results : list CaseResult) : Z :=
  Z.of_nat (length (filter (fun r => f r = true) results)).

Definition isErrored (r : CaseResult) : bool :=
  negb (bool_decide (Error r = "")).

Definition isPassed (r : CaseResult) : bool :=
  bool_decide (Error r = "") && Pass r.

Definition isFailed (r : CaseResult) : bool :=
  bool_decide (Error r = "") && negb (Pass r).

End summary.

(** ** Package report *)

Module report.

Definition esc : string := String (Ascii.ascii_of_nat 27) EmptyString.
Definition colorReset : string := esc +:+ "[0m".
Definition colorRed : string := esc +:+ "[31m".
Definition colorGreen : string := esc +:+ "[32m".

Definition StatusLabel (cr : result.CaseResult) : string :=
  if decide (result.Error cr = "") then
    if result.Pass cr then colorGreen +:+ "PASS" +:+ colorReset
    else colorRed +:+ "FAIL" +:+ colorReset
  else colorRed +:+ "ERROR" +:+ colorReset.

Definition StatusLabelPlain (cr : result.CaseResult) : string :=
  if decide (result.Error cr = "") then
    if result.Pass cr then "PASS" else "FAIL"
  else "ERROR".

(** [truncate]: the slice expression [s[:max-3]] panics when [max-3] is
    negative, which is [None] here. *)
Definition truncate (s : string) (max : Z) : option string :=
  if Z.of_nat (String.length s) <=? max then Some s
  else if max - 3 <? 0 then None
  else Some (String.substring 0 (Z.to_nat (max - 3)) s +:+ "...").

(** The number of results that carry a label. *)
Definition labelled (label : string) (results : list result.CaseResult) : Z :=
  Z.of_nat (length (filter (fun cr => StatusLabelPlain cr = label) results)).

End report.

(** ** Package evaltest: the scripted and the echoing provider *)

Module evaltest.

(** [MockProvider]: the scripted responses and the index of the next
    one. *)
Record MockProvider := mkMockProvider {
  responses : list provider.Response;
  idx : nat
}.

Definition NewMockProvider (responses : list provider.Response)
  : MockProvider :=
  {| responses := responses; idx := 0 |}.

#[global] Instance MockProvider_Provider : provider.Provider MockProvider :=
  {| provider.Complete := fun m _ clock _ =>
       match responses m !! idx m with
       | None =>
           (inr ("mock provider: no more responses (consumed " +:+
                 pretty (idx m) +:+ "/" +:+
                 pretty (length (responses m)) +:+ ")"),
            m, clock)
       | Some resp =>
           (inl resp, {| responses := responses m; idx := S (idx m) |}, clock)
       end;
     provider.ProviderName := fun _ => "mock" |}.

(** [echoProvider]: the content of the last user message, searched from
    the end of the conversation. *)
Inductive echoProvider := EchoProvider.

#[global] Instance echoProvider_Provider : provider.Provider echoProvider :=
  {| provider.Complete := fun e _ clock req =>
       let content :=
         match find (fun m => bool_decide (provider.Role m = "user"))
                    (reverse (provider.Messages req)) with
         | Some m => provider.Content m
         | None => ""
         end in
       (inl {| provider.respContent := content;
               provider.respToolCalls := [];
               provider.Usage_ := provider.mkUsage 0 0;
               provider.StopReason := "end_turn" |}, e, clock);
     provider.ProviderName := fun _ => "echo" |}.

(** A response that asks for tools; the names of the tools a script of
    responses asks for, in order; the token counts of a response as
    [AddUsage] takes them. *)
Definition requestsTools (resp : provider.Response) : Prop :=
  provider.respToolCalls resp <> [].

Definition requested (steps : list provider.Response) : list string :=
  map provider.Name (concat (map provider.respToolCalls steps)).

Definition usageOf (resp : provider.Response) : Z * Z :=
  (provider.InputTokens (provider.Usage_ resp),
   provider.OutputTokens (provider.Usage_ resp)).

(** *** The harness *)

(** [Config] without the provider, which is threaded as a state, and
    without the result file, which is written when the test ends. *)
Record Config := mkConfig {
  System : string;
  Tools : list provider.Tool;
  Timeout : trace.Duration
}.

Record CaseResult := mkCaseResult {
  Name : string;
  Output : string;
  ToolCalls : list trace.ToolCallTrace;
  Duration : trace.Duration;
  Error : string
}.

(** The harness with the messages it has passed to [t.Error] and
    [t.Errorf]. *)
Record Harness := mkHarness {
  cfg : Config;
  results : list CaseResult;
  reported : list string
}.

Record TestCase := mkTestCase {
  name : string;
  registry : mock.MockRegistry;
  output : string;
  trace_ : option trace.AgentTrace;
  executed : bool
}.

Definition New (cfg : Config) : Harness :=
  {| cfg := {| System := System cfg; Tools := Tools cfg;
               Timeout := if Timeout cfg =? 0 then 30 * runner.Second
                          else Timeout cfg |};
     results := []; reported := [] |}.

(** The test case [Harness.Run] hands to the body of the subtest. *)
Definition newTestCase (name : string) : TestCase :=
  {| name := name; registry := mock.NewRegistry []; output := "";
     trace_ := None; executed := false |}.

Definition register (tc : TestCase) (config : mock.MockConfig) : TestCase :=
  {| name := name tc; registry := mock.Register (registry tc) config;
     output := output tc; trace_ := trace_ tc; executed := executed tc |}.

Definition MockTool (tc : TestCase) (name response : string) : TestCase :=
  register tc
    {| mock.ToolName := name; mock.Responses := [];
       mock.DefaultResponse := Some (mock.mkMockResponse response "" 0) |}.

Definition MockToolSequence (tc : TestCase) (name : string)
    (responses : list string) : TestCase :=
  register tc
    {| mock.ToolName := name;
       mock.Responses := map (fun r => mock.mkMockResponse r "" 0) responses;
       mock.DefaultResponse := None |}.

Definition MockToolError (tc : TestCase) (name errMsg : string) : TestCase :=
  register tc
    {| mock.ToolName := name; mock.Responses := [];
       mock.DefaultResponse := Some (mock.mkMockResponse "" errMsg 0) |}.

(** The variables the loop of [Input] updates, and the three ways the
    loop is left. *)
Record loopVars (PS : Type) := mkLoopVars {
  lvTrace : trace.AgentTrace;
  lvMessages : list provider.Message;
  lvRegistry : mock.MockRegistry;
  lvProvider : PS;
  lvClock : trace.Time
}.

Arguments mkLoopVars {PS}.
Arguments lvTrace {PS}.
Arguments lvMessages {PS}.
Arguments lvRegistry {PS}.
Arguments lvProvider {PS}.
Arguments lvClock {PS}.

Inductive loopExit :=
| ProviderFailed (err : string)
| Answered (content : string)
| Exceeded.

Definition maxIterations : nat := 20.

(** Body of the loop over the tool calls of one response. *)
Definition resolveCall `{fmt.Quote} {PS : Type} (vars : loopVars PS)
    (call : provider.ToolCall) : loopVars PS :=
  let tcStart := lvClock vars in
  let '(res, registry, clock) :=
    mock.Resolve (lvRegistry vars) (lvClock vars)
      (provider.Name call) (provider.Parameters call) in
  let '(content, mockErr) := res in
  let tcDuration := trace.Sub clock tcStart in
  let tcTrace :=
    {| trace.ToolName := provider.Name call;
       trace.Parameters := provider.Parameters call;
       trace.Response := content;
       trace.Error := match mockErr with
                      | Some e => mock.ErrorString e
                      | None => ""
                      end;
       trace.tcStartTime := tcStart;
       trace.tcEndTime := clock;
       trace.tcDuration := tcDuration |} in
  let tr := trace.AddToolCall (lvTrace vars) tcTrace in
  let toolContent :=
    match mockErr with
    | Some e => "Error: " +:+ mock.ErrorString e
    | None => content
    end in
  {| lvTrace := trace.AddMessage tr clock "tool" toolContent;
     lvMessages :=
       lvMessages vars ++
       [{| provider.Role := "tool"; provider.Content := toolContent;
           provider.ToolCalls := [];
           provider.ToolCallID := provider.ID call |}];
     lvRegistry := registry;
     lvProvider := lvProvider vars;
     lvClock := clock |}.

(** The loop [for i := 0; i < maxIterations; i++] of [Input]; [fuel] is
    the number of iterations left. *)
Fixpoint inputLoop `{fmt.Quote} {PS : Type} `{provider.Provider PS}
    (ctx : context.Context) (system : string) (tools : list provider.Tool)
    (fuel : nat) (vars : loopVars PS) : loopVars PS * loopExit :=
  match fuel with
  | O => (vars, Exceeded)
  | S fuel =>
      let req :=
        {| provider.Model := ""; provider.System := system;
           provider.Messages := lvMessages vars; provider.Tools := tools;
           provider.Temperature := float64.zero;
           provider.MaxTokens := 0 |} in
      let '(reply, p, clock) :=
        provider.Complete (lvProvider vars) ctx (lvClock vars) req in
      match reply with
      | inr err =>
          ({| lvTrace := lvTrace vars; lvMessages := lvMessages vars;
              lvRegistry := lvRegistry vars;
              lvProvider := p; lvClock := clock |},
           ProviderFailed err)
      | inl resp =>
          let tr :=
            trace.AddUsage (lvTrace vars)
              (provider.InputTokens (provider.Usage_ resp))
              (provider.OutputTokens (provider.Usage_ resp)) in
          let tr :=
            trace.AddMessage tr clock "assistant" (provider.respContent resp) in
          match provider.respToolCalls resp with
          | [] =>
              ({| lvTrace := tr; lvMessages := lvMessages vars;
                  lvRegistry := lvRegistry vars;
                  lvProvider := p; lvClock := clock |},
               Answered (provider.respContent resp))
          | _ :: _ =>
              let messages :=
                lvMessages vars ++
                [{| provider.Role := "assistant";
                    provider.Content := provider.respContent resp;
                    provider.ToolCalls := provider.respToolCalls resp;
                    provider.ToolCallID := "" |}] in
              let vars :=
                {| lvTrace := tr; lvMessages := messages;
                   lvRegistry := lvRegistry vars;
                   lvProvider := p; lvClock := clock |} in
              inputLoop ctx system tools fuel
                (foldl resolveCall vars (provider.respToolCalls resp))
          end
      end
  end.

Definition recordResult (h : Harness) (tc : TestCase) (errMsg : string)
  : Harness :=
  let result :=
    {| Name := name tc; Output := output tc;
       ToolCalls := match trace_ tc with
                    | Some tr => trace.GetToolCalls tr
                    | None => []
                    end;
       Duration := match trace_ tc with
                   | Some tr => trace.Duration_ tr
                   | None => 0
                   end;
       Error := errMsg |} in
  {| cfg := cfg h; results := results h ++ [result];
     reported := reported h |}.

Definition report (h : Harness) (msg : string) : Harness :=
  {| cfg := cfg h; results := results h; reported := reported h ++ [msg] |}.

(** [Input], returning the harness, the test case, the provider and the
    clock it leaves. *)
Definition Input `{fmt.Quote} {PS : Type} `{provider.Provider PS}
    (h : Harness) (tc : TestCase) (text : string) (p : PS)
    (now : trace.Time) : Harness * TestCase * PS * trace.Time :=
  let ctx := context.WithTimeout context.Background now (Timeout (cfg h)) in
  let tr := trace.New now in
  let messages :=
    [{| provider.Role := "user"; provider.Content := text;
        provider.ToolCalls := []; provider.ToolCallID := "" |}] in
  let tr := trace.AddMessage tr now "user" text in
  let '(vars, exit) :=
    inputLoop ctx (System (cfg h)) (Tools (cfg h)) maxIterations
      {| lvTrace := tr; lvMessages := messages; lvRegistry := registry tc;
         lvProvider := p; lvClock := now |} in
  let tr := trace.Finish (lvTrace vars) (lvClock vars) in
  let ran (out : string) (done : bool) : TestCase :=
    {| name := name tc; registry := lvRegistry vars; output := out;
       trace_ := Some tr; executed := done |} in
  match exit with
  | ProviderFailed err =>
      let tc := ran (output tc) (executed tc) in
      (recordResult (report h ("provider error: " +:+ err)) tc err,
       tc, lvProvider vars, lvClock vars)
  | Answered content =>
      let tc := ran content true in
      (recordResult h tc "", tc, lvProvider vars, lvClock vars)
  | Exceeded =>
      let tc := ran (output tc) (executed tc) in
      (recordResult (report h "agent loop exceeded maximum iterations") tc
         "max iterations exceeded",
       tc, lvProvider vars, lvClock vars)
  end.

(** [contains] and [searchString]: [count] is the number of iterations
    the loop [for i := 0; i <= len(s)-len(substr); i++] has left. *)
Fixpoint searchLoop (s substr : string) (i count : nat) : bool :=
  match count with
  | O => false
  | S count =>
      if String.eqb (String.substring i (String.length substr) s) substr
      then true
      else searchLoop s substr (S i) count
  end.

Definition searchString (s substr : string) : bool :=
  searchLoop s substr 0
    (Z.to_nat (Z.of_nat (String.length s) -
               Z.of_nat (String.length substr) + 1)).

Definition contains (s substr : string) : bool :=
  (String.length substr =? 0)%nat ||
  ((String.length substr <=? String.length s)%nat && searchString s substr).

(** [AssertOutputContains], returning the harness with what the
    assertion has reported. *)
Definition AssertOutputContains `{fmt.Quote} (h : Harness) (tc : TestCase)
    (substr : string) : Harness :=
  if negb (executed tc)
  then report h "AssertOutputContains called before Input()"
  else if contains (output tc) substr then h
  else report h ("output does not contain " +:+ fmt.q substr +:+
                 String (Ascii.ascii_of_nat 10) "  output: " +:+
                 default "" (judge.truncate (output tc) 200)).

(** [substr] occurs in [s]. *)
Definition occurs (substr s : string) : Prop :=
  exists pre post, s = pre +:+ substr +:+ post.

(** The variables of the loop of [Input] as a state of the loop of
    [runCase] that has the final response [final] and the error [err]. *)
Definition asRunner {PS : Type} (final err : string) (vars : loopVars PS)
  : runner.loopState PS :=
  {| runner.lsModel := ""; runner.lsFinalResponse := final;
     runner.lsError := err; runner.lsTrace := lvTrace vars;
     runner.lsMessages := lvMessages vars;
     runner.lsRegistry := lvRegistry vars;
     runner.lsProvider := lvProvider vars; runner.lsClock := lvClock vars |}.

(** The tools of a rendered prompt as [runCase] hands them to the
    provider. *)
Definition toolsOf (pv : prompt.PromptVariant) : list provider.Tool :=
  map (fun t => {| provider.toolName := prompt.tdName t;
                   provider.toolDescription := prompt.tdDescription t;
                   provider.toolParameters := prompt.tdParameters t |})
      (prompt.Tools pv).

End evaltest.

(** ** Fixtures of the test suites *)

Module examples.

Definition scored (name : string) (score : float64.t) (pass : bool)
  : result.CaseResult :=
  {| result.CaseID := ""; result.CaseName := name; result.Prompt := "";
     result.Model := ""; result.FinalResponse := "";
     result.Score := score; result.Pass := pass; result.Error := "";
     result.Duration := 0; result.InputTokens := 0;
     result.OutputTokens := 0 |}.

Definition noStats : result.Stats :=
  result.mkStats 0 0 0 0 float64.zero float64.zero 0 0 0 0.

(** [runA] and [runB] of the tests of package diff. *)
Definition runA : result.RunSummary :=
  {| result.RunID := "run-a"; result.SuiteName := "test";
     result.StartTime := 0; result.EndTime := 0; result.rsDuration := 0;
     result.Stats_ := noStats;
     result.Results :=
       [scored "stable" (float64.lit 8 10) true;
        scored "improved" (float64.lit 5 10) false;
        scored "regressed" (float64.lit 9 10) true;
        scored "removed-case" (float64.lit 7 10) true] |}.

Definition runB : result.RunSummary :=
  {| result.RunID := "run-b"; result.SuiteName := "test";
     result.StartTime := 0; result.EndTime := 0; result.rsDuration := 0;
     result.Stats_ := noStats;
     result.Results :=
       [scored "stable" (float64.lit 8 10) true;
        scored "improved" (float64.lit 9 10) true;
        scored "regressed" (float64.lit 4 10) false;
        scored "new-case" (float64.lit 1 1) true] |}.

(** [stubJudge] of the tests of package judge: a fixed result or a fixed
    error. *)
Definition stubJudge (name : string) (res : judge.Result)
    (err : option string) : judge.Judge :=
  {| judge.Evaluate := fun _ => (res, err); judge.Name := name |}.

Definition noInput : judge.Input := judge.mkInput "" "" [].

(** Quoting of a name without quotes, backslashes or control characters;
    a template without actions renders to its text. *)
Definition plainQuote : fmt.Quote :=
  {| fmt.q := fun s => String (Ascii.ascii_of_nat 34) s +:+
                     String (Ascii.ascii_of_nat 34) EmptyString |}.

Definition literalEngine : prompt.Engine :=
  {| prompt.Template := string;
     prompt.Parse := fun _ text => inl text;
     prompt.Execute := fun tmpl _ => inl tmpl |}.

(** A provider that requests the tool "loop" on every call, and a case
    whose mock for "loop" always answers; the provider state counts the
    calls. *)
Definition loopingProvider : provider.Provider nat :=
  {| provider.Complete := fun n _ clock _ =>
       (inl {| provider.respContent := "";
               provider.respToolCalls :=
                 [{| provider.ID := "call"; provider.Name := "loop";
                     provider.Parameters := None |}];
               provider.Usage_ := provider.mkUsage 1 1;
               provider.StopReason := "tool_use" |},
        S n, clock);
     provider.ProviderName := fun _ => "looping" |}.

Definition loopCase : suite.EvalCase :=
  {| suite.ID := "loop-1"; suite.Name := "loop"; suite.Input := None;
     suite.Context := "";
     suite.Mocks :=
       [mock.mkMockConfig "loop" []
          (Some (mock.mkMockResponse "again" "" 0))];
     suite.Judges := []; suite.ExpectedOutput := "";
     suite.ExpectedTools := []; suite.Tags := []; suite.Timeout := 0 |}.

Definition loopPrompt : prompt.PromptVariant :=
  {| prompt.Name := "p"; prompt.Description := "";
     prompt.System := "You are helpful."; prompt.User := "Go on.";
     prompt.Tools := []; prompt.Metadata := ∅ |}.

(** A turn that asks for the tool "loop" and a final answer. *)
Definition toolTurn : provider.Response :=
  {| provider.respContent := "";
     provider.respToolCalls :=
       [{| provider.ID := "call"; provider.Name := "loop";
           provider.Parameters := None |}];
     provider.Usage_ := provider.mkUsage 3 2;
     provider.StopReason := "tool_use" |}.

Definition answer : provider.Response :=
  {| provider.respContent := "done"; provider.respToolCalls := [];
     provider.Usage_ := provider.mkUsage 5 1;
     provider.StopReason := "end_turn" |}.

(** A provider that fails on every call. *)
Definition errorProvider : provider.Provider unit :=
  {| provider.Complete := fun u _ clock _ =>
       (inr "provider unavailable", u, clock);
     provider.ProviderName := fun _ => "error" |}.

(** A suite of two cases, the failing provider as the cases see it, and
    an execution with two cases in flight in which the second case
    finishes first. *)
Definition namedCase (id name : string) : suite.EvalCase :=
  {| suite.ID := id; suite.Name := name; suite.Input := None;
     suite.Context := ""; suite.Mocks := []; suite.Judges := [];
     suite.ExpectedOutput := ""; suite.ExpectedTools := [];
     suite.Tags := []; suite.Timeout := 0 |}.

Definition twoCases : suite.EvalSuite :=
  {| suite.suiteName := "two"; suite.Description := ""; suite.Prompt := "p";
     suite.DefaultJudges := []; suite.DefaultMocks := [];
     suite.Cases := [namedCase "1" "c1"; namedCase "2" "c2"] |}.

Definition errorView : runner.providerView :=
  runner.mkProviderView unit errorProvider tt.

Definition secondFinishesFirst : list runner.action :=
  [runner.Spawn; runner.Spawn; runner.Acquire 1; runner.Acquire 0;
   runner.RunCase 1 errorView 3; runner.Store 1;
   runner.RunCase 0 errorView 4; runner.Report 1 5; runner.Release 1;
   runner.Done 1; runner.Store 0; runner.Report 0 6; runner.Release 0;
   runner.Done 0].

(** An execution in which the first case stores its result first and
    reports last. *)
Definition reportsOutOfOrder : list runner.action :=
  [runner.Spawn; runner.Spawn; runner.Acquire 0; runner.Acquire 1;
   runner.RunCase 0 errorView 3; runner.RunCase 1 errorView 3;
   runner.Store 0; runner.Store 1; runner.Report 1 5; runner.Report 0 6;
   runner.Release 0; runner.Release 1; runner.Done 0; runner.Done 1].

(** A case with tags. *)
Definition taggedCase (name : string) (tags : list string) : suite.EvalCase :=
  {| suite.ID := name; suite.Name := name; suite.Input := None;
     suite.Context := ""; suite.Mocks := []; suite.Judges := [];
     suite.ExpectedOutput := ""; suite.ExpectedTools := [];
     suite.Tags := tags; suite.Timeout := 0 |}.

(** A result of package result with the fields the statistics read, and
    the four results of the tests of [ComputeStats]. *)
Definition timed (err : string) (pass : bool) (score : float64.t)
    (duration inputTokens outputTokens : Z) : result.CaseResult :=
  {| result.CaseID := ""; result.CaseName := ""; result.Prompt := "";
     result.Model := ""; result.FinalResponse := "";
     result.Score := score; result.Pass := pass; result.Error := err;
     result.Duration := duration; result.InputTokens := inputTokens;
     result.OutputTokens := outputTokens |}.

Definition fourResults : list result.CaseResult :=
  [timed "" true float64.one 100000000 10 5;
   timed "" true (float64.lit 8 10) 200000000 20 10;
   timed "" false (float64.lit 3 10) 300000000 15 8;
   timed "timeout" false float64.zero 500000000 5 2].

(** A calendar that prints the instant as a number. *)
Definition plainCalendar : summary.Calendar :=
  {| summary.Format := fun t _ => pretty t |}.

(** The result of a run of two cases, the second of which failed in the
    provider. *)
Definition ranCase (name err : string) (tr : option trace.AgentTrace)
  : runner.CaseResult :=
  {| runner.CaseName := name; runner.CaseID := name;
     runner.Prompt := "p"; runner.Model := "";
     runner.FinalResponse := ""; runner.Trace := tr;
     runner.Error := err; runner.Duration := 5 |}.

Definition twoRan : runner.RunResult :=
  {| runner.SuiteName := "two"; runner.StartTime := 10;
     runner.EndTime := 20; runner.rrDuration := 10;
     runner.Cases :=
       [ranCase "c1" "" (Some (trace.AddUsage (trace.New 10) 7 3));
        ranCase "c2" "provider error: down" None] |}.

(** [%v] of the values of the model, and a recorded call of a tool. *)
Definition plainPrinter : fmt.Printer :=
  {| fmt.v := fun x =>
       match x with
       | trace.VNull => "<nil>"
       | trace.VBool b => if b then "true" else "false"
       | trace.VInt z => pretty z
       | trace.VString s => s
       end |}.

Definition called (name : string) (params : trace.Params)
  : trace.ToolCallTrace :=
  {| trace.ToolName := name; trace.Parameters := params;
     trace.Response := ""; trace.Error := "";
     trace.tcStartTime := 0; trace.tcEndTime := 0; trace.tcDuration := 0 |}.

(** A provider that hands its calls on to another provider and keeps a
    log of them. *)
Record Call := mkCall {
  callCtx : context.Context;
  callRequest : provider.Request
}.

Definition loggingProvider {PS : Type} `{provider.Provider PS}
  : provider.Provider (PS * list Call) :=
  {| provider.Complete := fun s ctx clock req =>
       let '(reply, p, clock) := provider.Complete s.1 ctx clock req in
       (reply, (p, s.2 ++ [mkCall ctx req]), clock);
     provider.ProviderName := fun s => provider.ProviderName s.1 |}.

Definition requestsOf (log : list Call) : list (list provider.Message) :=
  map (fun call => provider.Messages (callRequest call)) log.

(** An engine that rejects every template. *)
Definition rejectingEngine : prompt.Engine :=
  {| prompt.Template := string;
     prompt.Parse := fun _ _ => inr "unexpected }";
     prompt.Execute := fun tmpl _ => inl tmpl |}.

End examples.

(** * Properties *)

(** ** Machine integers *)

Lemma wrap_id z : goint.in_range z -> goint.wrap z = z.
Proof.
  unfold goint.in_range, goint.wrap, goint.min_int, goint.max_int, goint.bits.
  intros Hz. rewrite Z.mod_small; lia.
Qed.

Lemma add_exact a b : goint.in_range (a + b) -> goint.add a b = a + b.
Proof. apply wrap_id. Qed.

Lemma max_int_pos : 0 < goint.max_int.
Proof. reflexivity. Qed.

Lemma in_range_nonneg z : 0 <= z <= goint.max_int -> goint.in_range z.
Proof. unfold goint.in_range, goint.min_int, goint.bits. lia. Qed.

(** ** Trace: token usage *)

Section Usage.

Import trace.

Lemma totals_split calls : totals calls = inputs calls + outputs calls.
Proof.
  unfold totals, inputs, outputs.
  induction calls as [|c calls IH]; simpl; lia.
Qed.

Lemma sums_nonneg calls :
  Forall nonneg calls -> 0 <= inputs calls /\ 0 <= outputs calls.
Proof.
  unfold inputs, outputs.
  induction 1 as [|c calls [Hi Ho] _ IH]; simpl; lia.
Qed.

Lemma totals_app pre post : totals (pre ++ post) = totals pre + totals post.
Proof.
  unfold totals. induction pre as [|c pre IH]; simpl; lia.
Qed.

Lemma inputs_app pre post : inputs (pre ++ post) = inputs pre + inputs post.
Proof.
  unfold inputs. induction pre as [|c pre IH]; simpl; lia.
Qed.

Lemma outputs_app pre post :
  outputs (pre ++ post) = outputs pre + outputs post.
Proof.
  unfold outputs. induction pre as [|c pre IH]; simpl; lia.
Qed.

(** Without overflow the three counters are the running sums. *)
Lemma addUsages_exact calls : forall t,
  Forall nonneg calls ->
  0 <= InputTokens (Usage t) -> 0 <= OutputTokens (Usage t) ->
  0 <= TotalTokens (Usage t) ->
  InputTokens (Usage t) + inputs calls <= goint.max_int ->
  OutputTokens (Usage t) + outputs calls <= goint.max_int ->
  TotalTokens (Usage t) + totals calls <= goint.max_int ->
  Usage (addUsages t calls) =
    {| InputTokens := InputTokens (Usage t) + inputs calls;
       OutputTokens := OutputTokens (Usage t) + outputs calls;
       TotalTokens := TotalTokens (Usage t) + totals calls |}.
Proof.
  induction calls as [|[i o] calls IH]; intros t Hnn Hi Ho Ht Bi Bo Bt.
  - destruct t as [? ? [? ? ?] ? ? ?]; simpl.
    unfold inputs, outputs, totals; simpl. f_equal; lia.
  - apply Forall_cons in Hnn as [[Hci Hco] Hnn]; simpl in Hci, Hco.
    destruct (sums_nonneg calls Hnn) as [Si So].
    pose proof (totals_split calls) as St.
    unfold inputs, outputs, totals in *; simpl in *.
    unfold addUsages in *; simpl.
    rewrite IH; clear IH; simpl; auto;
      rewrite ?(add_exact i o), ?add_exact
        by (apply in_range_nonneg; rewrite ?(add_exact i o)
              by (apply in_range_nonneg; lia); lia);
      try lia.
    f_equal; lia.
Qed.

End Usage.

(** C8 (as stated, refuted).  Two token counts that are non-negative
    [int]s can add up to more than an [int] holds: after the single call
    [AddUsage(2^62, 2^62)] on a new trace the total is [-2^63], which is
    neither the sum [2^63] of the arguments nor at least the total [0]
    before the call. *)
Lemma AddUsage_total_wraps :
  let calls := [(2 ^ 62, 2 ^ 62)] in
  let before := trace.Usage (trace.New 0) in
  let after := trace.Usage (trace.addUsages (trace.New 0) calls) in
  Forall trace.nonneg calls /\
  Forall (fun c => goint.in_range c.1 /\ goint.in_range c.2) calls /\
  trace.TotalTokens after = - 2 ^ 63 /\
  trace.TotalTokens after <> trace.totals calls /\
  trace.TotalTokens after < trace.TotalTokens before.
Proof.
  repeat split; try (repeat constructor; vm_compute; congruence);
    vm_compute; congruence.
Qed.

(** C8 (amended).  For every sequence of [AddUsage] calls with
    non-negative arguments on a new trace whose grand total (all inputs
    plus all outputs) does not exceed the largest [int], the three usage
    counters are the sum of the inputs, the sum of the outputs and the
    sum of input+output over the calls, and no call of the sequence
    decreases any of the three counters. *)
Theorem AddUsage_accumulates (now : trace.Time) (calls : list (Z * Z)) :
  Forall trace.nonneg calls ->
  trace.totals calls <= goint.max_int ->
  let usage pre := trace.Usage (trace.addUsages (trace.New now) pre) in
  trace.InputTokens (usage calls) = trace.inputs calls /\
  trace.OutputTokens (usage calls) = trace.outputs calls /\
  trace.TotalTokens (usage calls) = trace.totals calls /\
  forall pre c post, calls = pre ++ c :: post ->
    trace.InputTokens (usage pre) <= trace.InputTokens (usage (pre ++ [c])) /\
    trace.OutputTokens (usage pre) <= trace.OutputTokens (usage (pre ++ [c])) /\
    trace.TotalTokens (usage pre) <= trace.TotalTokens (usage (pre ++ [c])).
Proof.
  intros Hnn Hmax usage.
  assert (Hexact : forall pre post, calls = pre ++ post ->
            usage pre = trace.mkTokenUsage (trace.inputs pre)
                          (trace.outputs pre) (trace.totals pre)).
  { intros pre post ->. apply Forall_app in Hnn as [Hpre Hpost].
    destruct (sums_nonneg pre Hpre) as [Pi Po].
    destruct (sums_nonneg post Hpost) as [Qi Qo].
    rewrite totals_app, !totals_split in Hmax.
    pose proof (totals_split pre) as Tp.
    unfold usage. rewrite addUsages_exact; simpl; auto; lia. }
  rewrite (Hexact calls [] (eq_sym (app_nil_r calls))). simpl.
  repeat split.
  all: rewrite (Hexact pre (c :: post)) by assumption.
  all: rewrite (Hexact (pre ++ [c]) post) by (rewrite <- app_assoc; assumption).
  all: simpl; rewrite ?inputs_app, ?outputs_app, ?totals_app.
  all: subst calls; apply Forall_app in Hnn as [_ Hc].
  all: apply Forall_cons in Hc as [[Hci Hco] _].
  all: unfold trace.inputs, trace.outputs, trace.totals; simpl; lia.
Qed.

Lemma AddUsage_accumulates_witness :
  let calls := [(100, 50); (100, 50); (100, 50)] in
  let usage := trace.Usage (trace.addUsages (trace.New 0) calls) in
  trace.InputTokens usage = 300 /\
  trace.OutputTokens usage = 150 /\
  trace.TotalTokens usage = 450.
Proof.
  intros calls usage.
  assert (Hnn : Forall trace.nonneg calls)
    by (repeat constructor; simpl; lia).
  assert (Hmax : trace.totals calls <= goint.max_int) by (vm_compute; congruence).
  destruct (AddUsage_accumulates 0 calls Hnn Hmax) as (Hi & Ho & Ht & _).
  split; [exact Hi | split; [exact Ho | exact Ht]].
Defined.

(** ** Mock registry *)

Section Registry.

Import mock.

Lemma Resolve_mocks r clock tool params :
  mocks (Resolve r clock tool params).1.2 = mocks r.
Proof.
  unfold Resolve.
  destruct (mocks r !! tool) as [cfg|]; [|reflexivity].
  destruct (selectResponse cfg tool (callIdx r)) as [[resp idxs]|];
    [|reflexivity].
  destruct (decide (Error resp = "")); reflexivity.
Qed.

Lemma selectResponse_other cfg tool' tool idxs resp idxs' :
  tool' <> tool ->
  selectResponse cfg tool' idxs = Some (resp, idxs') ->
  idxs' !! tool = idxs !! tool.
Proof.
  unfold selectResponse. intros Hne Hsel.
  destruct (Responses cfg !! default 0%nat (idxs !! tool')).
  - injection Hsel as _ <-. by rewrite lookup_insert_ne.
  - destruct (DefaultResponse cfg); congruence.
Qed.

(** A call for another tool leaves the counter of [tool] alone. *)
Lemma Resolve_counter_other r clock tool' tool params :
  tool' <> tool ->
  counter (Resolve r clock tool' params).1.2 tool = counter r tool.
Proof.
  intros Hne. unfold Resolve, counter.
  destruct (mocks r !! tool') as [cfg|]; [|reflexivity].
  destruct (selectResponse cfg tool' (callIdx r)) as [[resp idxs]|] eqn:Hsel;
    [|reflexivity].
  apply (selectResponse_other _ _ tool) in Hsel; [|assumption].
  destruct (decide (Error resp = "")); simpl; by rewrite Hsel.
Qed.

(** A call for a configured tool returns what the counter selects, and
    advances the counter while it is inside the one-shot list. *)
Lemma Resolve_configured r clock tool params cfg :
  mocks r !! tool = Some cfg ->
  let '(res, r', _) := Resolve r clock tool params in
  res = expected cfg tool (counter r tool) /\
  counter r' tool =
    (if decide (counter r tool < length (Responses cfg))%nat
     then S (counter r tool) else counter r tool).
Proof.
  intros Hcfg. unfold Resolve, expected, selectResponse. rewrite Hcfg.
  fold (counter r tool).
  destruct (Responses cfg !! counter r tool) as [resp|] eqn:Hresp.
  - apply lookup_lt_Some in Hresp as Hlt.
    destruct (decide (counter r tool < length (Responses cfg))%nat); [|lia].
    unfold outcome.
    destruct (decide (Error resp = "")); simpl;
      (split; [reflexivity|]); unfold counter at 1; simpl;
      by rewrite lookup_insert_eq.
  - apply lookup_ge_None in Hresp as Hge.
    destruct (decide (counter r tool < length (Responses cfg))%nat); [lia|].
    destruct (DefaultResponse cfg) as [resp|]; [|by split].
    unfold outcome.
    destruct (decide (Error resp = "")); simpl; by split.
Qed.

Lemma Resolve_unconfigured r clock tool params :
  mocks r !! tool = None ->
  Resolve r clock tool params = (("", Some (ErrNoMock tool)), r, clock).
Proof. intros Hcfg. unfold Resolve. by rewrite Hcfg. Qed.

(** Reading past the one-shot list selects the same whatever the index. *)
Lemma expected_saturates cfg tool j :
  expected cfg tool (j `min` length (Responses cfg)) = expected cfg tool j.
Proof.
  unfold expected.
  destruct (decide (j < length (Responses cfg))%nat).
  - by rewrite Nat.min_l by lia.
  - rewrite Nat.min_r by lia.
    rewrite (proj2 (lookup_ge_None (Responses cfg) _)) by lia.
    by rewrite (proj2 (lookup_ge_None (Responses cfg) j)) by lia.
Qed.

Lemma resolveAll_cons r clock tool params reqs :
  resolveAll r clock ((tool, params) :: reqs) =
    let '(res, r', clock') := Resolve r clock tool params in
    let '(ress, r'', clock'') := resolveAll r' clock' reqs in
    (res :: ress, r'', clock'').
Proof. reflexivity. Qed.

(** The [k]-th call for a configured tool, counted from the [j] calls
    made before. *)
Lemma resolveAll_configured tool cfg reqs : forall r clock j k res,
  mocks r !! tool = Some cfg ->
  counter r tool = (j `min` length (Responses cfg))%nat ->
  resultsFor tool reqs (resolveAll r clock reqs).1.1 !! k = Some res ->
  res = expected cfg tool (j + k).
Proof.
  induction reqs as [|[tool' params] reqs IH]; intros r clock j k res Hcfg Hj.
  - unfold resultsFor; simpl. by rewrite lookup_nil.
  - rewrite resolveAll_cons.
    pose proof (Resolve_mocks r clock tool' params) as Hm.
    pose proof (Resolve_counter_other r clock tool' tool params) as Ho.
    pose proof (Resolve_configured r clock tool' params cfg) as Hc.
    destruct (Resolve r clock tool' params) as [[res0 r'] clock'].
    simpl in Hm, Ho.
    specialize (IH r' clock').
    destruct (resolveAll r' clock' reqs) as [[ress r''] clock''].
    unfold resultsFor; simpl.
    destruct (decide (tool' = tool)) as [->|Hne].
    + rewrite filter_cons_True by reflexivity. simpl.
      destruct (Hc Hcfg) as [Hres Hcnt].
      destruct k as [|k]; simpl.
      * intros [= <-]. rewrite Hres, Hj, Nat.add_0_r.
        apply expected_saturates.
      * intros Hk. replace (j + S k)%nat with (S j + k)%nat by lia.
        apply (IH (S j) k res); [by rewrite Hm| |exact Hk].
        rewrite Hcnt, Hj. clear Hc Hcnt. case_decide; lia.
    + rewrite filter_cons_False by (simpl; congruence).
      intros Hk. apply (IH j k res); [by rewrite Hm| |exact Hk].
      by rewrite (Ho Hne).
Qed.

Lemma resolveAll_unconfigured tool reqs : forall r clock k res,
  mocks r !! tool = None ->
  resultsFor tool reqs (resolveAll r clock reqs).1.1 !! k = Some res ->
  res = ("", Some (ErrNoMock tool)).
Proof.
  induction reqs as [|[tool' params] reqs IH]; intros r clock k res Hcfg.
  - unfold resultsFor; simpl. by rewrite lookup_nil.
  - rewrite resolveAll_cons.
    pose proof (Resolve_mocks r clock tool' params) as Hm.
    pose proof (Resolve_unconfigured r clock tool' params) as Hu.
    destruct (Resolve r clock tool' params) as [[res0 r'] clock'].
    simpl in Hm.
    specialize (IH r' clock').
    destruct (resolveAll r' clock' reqs) as [[ress r''] clock''].
    unfold resultsFor; simpl.
    destruct (decide (tool' = tool)) as [->|Hne].
    + rewrite filter_cons_True by reflexivity. simpl.
      destruct k as [|k]; simpl.
      * intros [= <-]. specialize (Hu Hcfg). congruence.
      * apply IH. by rewrite Hm.
    + rewrite filter_cons_False by (simpl; congruence).
      apply IH. by rewrite Hm.
Qed.

Lemma resolveAll_length reqs : forall r clock,
  length (resolveAll r clock reqs).1.1 = length reqs.
Proof.
  induction reqs as [|[tool params] reqs IH]; intros r clock; [reflexivity|].
  rewrite resolveAll_cons.
  destruct (Resolve r clock tool params) as [[res0 r'] clock'].
  specialize (IH r' clock').
  destruct (resolveAll r' clock' reqs) as [[ress r''] clock''].
  simpl in *. by rewrite IH.
Qed.

End Registry.

Lemma resultsFor_length tool reqs : forall ress,
  length ress = length reqs ->
  length (mock.resultsFor tool reqs ress) =
  length (filter (fun q : string * trace.Params => q.1 = tool) reqs).
Proof.
  unfold mock.resultsFor.
  induction reqs as [|q reqs IH]; intros [|res ress] Hlen;
    simpl in *; try discriminate; [reflexivity|].
  injection Hlen as Hlen. specialize (IH ress Hlen).
  destruct (decide (q.1 = tool)) as [Heq|Hne].
  - rewrite !filter_cons_True by assumption. simpl. by rewrite IH.
  - by rewrite !filter_cons_False by assumption.
Qed.




(** C4.  For a tool configured with one-shot responses [R1 .. Rn] and a
    registry that has not yet resolved a call for it, in any sequence of
    Resolve calls (calls for other tools may come in between) the k-th
    call for the tool returns what [Rk] says while k <= n (its content,
    or its configured error); every later call returns what the default
    response says if there is one and the "exhausted" error otherwise.
    Every call for a tool without configuration returns the "no mock
    configured" error. *)
Theorem Resolve_one_shot_sequence (r : mock.MockRegistry)
    (clock : trace.Time) (tool : string)
    (reqs : list (string * trace.Params)) :
  mock.callIdx r !! tool = None ->
  let results :=
    mock.resultsFor tool reqs (mock.resolveAll r clock reqs).1.1 in
  length results = length (filter (fun q => q.1 = tool) reqs) /\
  (forall cfg, mock.mocks r !! tool = Some cfg ->
     forall k res, results !! k = Some res ->
       (forall R, mock.Responses cfg !! k = Some R ->
          res = mock.outcome tool R) /\
       ((length (mock.Responses cfg) <= k)%nat ->
          forall D, mock.DefaultResponse cfg = Some D ->
            res = mock.outcome tool D) /\
       ((length (mock.Responses cfg) <= k)%nat ->
          mock.DefaultResponse cfg = None ->
            res = ("", Some (mock.ErrExhausted tool)))) /\
  (mock.mocks r !! tool = None ->
     forall k res, results !! k = Some res ->
       res = ("", Some (mock.ErrNoMock tool))).
Proof.
  intros Hfresh results. split; [|split].
  - apply resultsFor_length, resolveAll_length.
  - intros cfg Hcfg k res Hk.
    assert (Hres : res = mock.expected cfg tool k).
    { apply (resolveAll_configured tool cfg reqs r clock 0 k res Hcfg);
        [|exact Hk].
      unfold mock.counter. by rewrite Hfresh. }
    unfold mock.expected in Hres. repeat split.
    + intros R HR. by rewrite HR in Hres.
    + intros Hge D HD.
      by rewrite (proj2 (lookup_ge_None _ _) Hge), HD in Hres.
    + intros Hge HD.
      by rewrite (proj2 (lookup_ge_None _ _) Hge), HD in Hres.
  - intros Hcfg k res Hk.
    exact (resolveAll_unconfigured tool reqs r clock k res Hcfg Hk).
Qed.

Lemma Resolve_one_shot_sequence_witness :
  let R1 := mock.mkMockResponse "first" "" 0 in
  let R2 := mock.mkMockResponse "" "permission denied" 0 in
  let R3 := mock.mkMockResponse "third" "" 5 in
  let r := mock.NewRegistry [mock.mkMockConfig "read_file" [R1; R2; R3] None] in
  let reqs := [("read_file", None); ("search", None); ("read_file", None);
               ("read_file", None); ("read_file", None)] in
  mock.resultsFor "read_file" reqs (mock.resolveAll r 0 reqs).1.1 =
    [("first", None);
     ("", Some (mock.ErrMock "read_file" "permission denied"));
     ("third", None);
     ("", Some (mock.ErrExhausted "read_file"))] /\
  length (mock.resultsFor "read_file" reqs (mock.resolveAll r 0 reqs).1.1) =
    4%nat.
Proof.
  intros R1 R2 R3 r reqs. split; [vm_compute; reflexivity|].
  exact (proj1 (Resolve_one_shot_sequence r 0 "read_file" reqs eq_refl)).
Defined.

(** ** IEEE comparisons *)

Section Float.

Import float64.

Lemma compare_cont_Eq_opp (m1 m2 : positive) :
  Pos.compare_cont Eq m2 m1 = CompOpp (Pos.compare_cont Eq m1 m2).
Proof. apply (Pos.compare_antisym m1 m2). Qed.

Ltac destruct_compare :=
  match goal with
  | |- context [Pos.compare_cont Eq ?a ?b] =>
      destruct (Pos.compare_cont Eq a b); simpl
  end.

(** Beyond a non-negative threshold on the positive side: outside the
    band and positive. *)
Lemma above_threshold (t d : float64.t) :
  leb zero t = true -> ltb t d = true ->
  leb (abs d) t = false /\ ltb zero d = true.
Proof.
  unfold leb, ltb, abs, zero, SFleb, SFltb, SFabs.
  destruct t as [[]|[]| |[] mt et], d as [[]|[]| |[] md ed];
    simpl; try (intros; discriminate); try (intros; split; reflexivity).
  rewrite (Z.compare_antisym et ed), compare_cont_Eq_opp.
  destruct (et ?= ed); simpl; try (intros; discriminate || by split).
  all: destruct_compare; intros; discriminate || by split.
Qed.

(** Beyond it on the negative side: outside the band and not positive. *)
Lemma below_threshold (t d : float64.t) :
  leb zero t = true -> ltb d (opp t) = true ->
  leb (abs d) t = false /\ ltb zero d = false.
Proof.
  unfold leb, ltb, abs, opp, zero, SFleb, SFltb, SFabs, SFopp.
  destruct t as [[]|[]| |[] mt et], d as [[]|[]| |[] md ed];
    simpl; try (intros; discriminate); try (intros; split; reflexivity).
  destruct (ed ?= et); simpl; try (intros; discriminate || by split).
  all: destruct_compare; intros; discriminate || by split.
Qed.

(** A strict comparison excludes the converse one. *)
Lemma ltb_leb_false (x y : float64.t) :
  ltb x y = true -> leb y x = false.
Proof.
  unfold leb, ltb, SFleb, SFltb.
  destruct x as [[]|[]| |[] mx ex], y as [[]|[]| |[] my ey];
    simpl; try (intros; discriminate); try reflexivity.
  all: rewrite (Z.compare_antisym ex ey), (compare_cont_Eq_opp mx my).
  all: destruct (ex ?= ey); simpl; try (intros; discriminate || reflexivity).
  all: destruct_compare; intros; discriminate || reflexivity.
Qed.

End Float.

(** ** Diff engine *)

Section Diff.

Import diff.

Lemma indexByName_snoc rs cr :
  indexByName (rs ++ [cr]) = <[result.CaseName cr := cr]> (indexByName rs).
Proof. unfold indexByName. by rewrite foldl_app. Qed.

Lemma caseNamed_snoc rs cr name :
  caseNamed (rs ++ [cr]) name =
    if decide (result.CaseName cr = name) then Some cr
    else caseNamed rs name.
Proof.
  unfold caseNamed. rewrite filter_app.
  destruct (decide (result.CaseName cr = name)) as [Heq|Hne].
  - rewrite filter_cons_True, filter_nil by assumption. apply last_snoc.
  - rewrite filter_cons_False, filter_nil by assumption.
    by rewrite app_nil_r.
Qed.

(** The index of a run maps a name to the case the name denotes. *)
Lemma indexByName_caseNamed rs name :
  indexByName rs !! name = caseNamed rs name.
Proof.
  induction rs as [|cr rs IH] using rev_ind; [reflexivity|].
  rewrite indexByName_snoc, caseNamed_snoc.
  destruct (decide (result.CaseName cr = name)) as [<-|Hne].
  - apply lookup_insert_eq.
  - by rewrite lookup_insert_ne.
Qed.

Lemma caseNamed_None rs name :
  caseNamed rs name = None <-> name ∉ names rs.
Proof.
  unfold names.
  induction rs as [|cr rs IH] using rev_ind.
  - split; [intros _; apply not_elem_of_nil | reflexivity].
  - rewrite caseNamed_snoc, fmap_app, not_elem_of_app. simpl.
    destruct (decide (result.CaseName cr = name)) as [<-|Hne].
    + split; [discriminate|]. intros [_ Hn]. exfalso. apply Hn. by left.
    + rewrite IH. split; [|tauto]. intros Hrs. split; [assumption|].
      rewrite list_elem_of_singleton. congruence.
Qed.

Lemma caseNamed_Some rs name cr :
  caseNamed rs name = Some cr -> cr ∈ rs /\ result.CaseName cr = name.
Proof.
  unfold caseNamed. intros Hlast.
  assert (Hin : cr ∈ filter (fun cr => result.CaseName cr = name) rs).
  { destruct (last_Some_elem_of _ _ Hlast); by constructor. }
  by apply list_elem_of_filter in Hin as [? ?].
Qed.

(** With unique names the name of a case denotes that case. *)
Lemma caseNamed_unique rs cr :
  NoDup (names rs) -> cr ∈ rs ->
  caseNamed rs (result.CaseName cr) = Some cr.
Proof.
  unfold names.
  induction rs as [|cr' rs IH] using rev_ind; intros Hnd Hin.
  - by apply elem_of_nil in Hin.
  - rewrite fmap_app in Hnd. apply NoDup_app in Hnd as (Hnd & Hdisj & _).
    rewrite caseNamed_snoc. apply elem_of_app in Hin as [Hin|Hin].
    + destruct (decide (result.CaseName cr' = result.CaseName cr)) as [Heq|_];
        [|by apply IH].
      exfalso. apply (Hdisj (result.CaseName cr)).
      * by apply list_elem_of_fmap_2.
      * simpl. rewrite Heq. by left.
    + apply list_elem_of_singleton in Hin as ->. by rewrite decide_True.
Qed.

Lemma countCat_snoc c cds cd :
  countCat c (cds ++ [cd]) =
    (countCat c cds + if decide (Category_ cd = c) then 1 else 0)%nat.
Proof.
  unfold countCat. rewrite filter_app, length_app. f_equal.
  destruct (decide (Category_ cd = c)) as [Heq|Hne].
  - by rewrite filter_cons_True by assumption.
  - by rewrite filter_cons_False by assumption.
Qed.

(** Appending an entry and incrementing the counter of its category
    keeps the counters right. *)
Lemma countsOK_append dr cd bump :
  countsOK dr ->
  (Category_ cd = Improved /\ bump = incImproved) \/
  (Category_ cd = Regressed /\ bump = incRegressed) \/
  (Category_ cd = Unchanged /\ bump = incUnchanged) \/
  (Category_ cd = New /\ bump = incNew) \/
  (Category_ cd = Removed /\ bump = incRemoved) ->
  countsOK (appendCase dr cd bump).
Proof.
  unfold countsOK, appendCase. intros (HI & HR & HU & HN & HM) Hcat. simpl.
  rewrite !countCat_snoc.
  destruct Hcat as [[-> ->]|[[-> ->]|[[-> ->]|[[-> ->]|[-> ->]]]]]; simpl;
    repeat case_decide; try discriminate; repeat split; lia.
Qed.

Lemma foldl_step {A B} (f : A -> B -> A) (a : A) (x : B) (l : list B) :
  foldl f a (x :: l) = foldl f (f a x) l.
Proof. reflexivity. Qed.

(** One iteration of the loop over run B: the name is marked seen and
    one entry is appended. *)
Lemma compareB_step aMap t seen dr crB :
  exists cd bump,
    compareB aMap t (seen, dr) crB =
      (<[result.CaseName crB := true]> seen, appendCase dr cd bump) /\
    entryOfB aMap t crB cd /\
    (countsOK dr -> countsOK (appendCase dr cd bump)).
Proof.
  unfold compareB, entryOfB.
  destruct (aMap !! result.CaseName crB) as [crA|] eqn:HA.
  - destruct (float64.leb _ t) eqn:Hband;
      [|destruct (float64.ltb float64.zero _) eqn:Hpos].
    all: eexists _, _; split; [reflexivity|]; simpl.
    all: unfold categoryOf; rewrite Hband, ?Hpos.
    all: split; [by repeat split|].
    all: intros Hok; apply countsOK_append; [assumption|simpl; tauto].
  - eexists _, _; split; [reflexivity|]; simpl.
    split; [by repeat split|].
    intros Hok; apply countsOK_append; [assumption|simpl; tauto].
Qed.

Lemma foldl_compareB aMap t bs : forall seen dr,
  exists cds dr',
    foldl (compareB aMap t) (seen, dr) bs =
      (foldl (fun m crB => <[result.CaseName crB := true]> m) seen bs, dr') /\
    RunA dr' = RunA dr /\ RunB dr' = RunB dr /\
    Cases dr' = Cases dr ++ cds /\
    Forall2 (entryOfB aMap t) bs cds /\
    (countsOK dr -> countsOK dr').
Proof.
  induction bs as [|crB bs IH]; intros seen dr.
  - exists [], dr. simpl. rewrite app_nil_r.
    split_and!; done || constructor.
  - destruct (compareB_step aMap t seen dr crB) as (cd & bump & Hstep & Hcd & Hok).
    destruct (IH (<[result.CaseName crB := true]> seen) (appendCase dr cd bump))
      as (cds & dr' & Hfold & HA & HB & Hcases & Hall & Hok').
    exists (cd :: cds), dr'. rewrite !foldl_step, Hstep, Hfold.
    split_and!; try assumption; try reflexivity.
    + rewrite Hcases. simpl. by rewrite <- app_assoc.
    + by constructor.
    + auto.
Qed.

(** After the loop over run B, [seen] holds exactly the names of B. *)
Lemma seen_names bs name : forall seen : gmap string bool,
  default false
    (foldl (fun m crB => <[result.CaseName crB := true]> m) seen bs !! name) =
  if decide (name ∈ names bs) then true
  else default false (seen !! name).
Proof.
  unfold names.
  induction bs as [|crB bs IH]; intros seen.
  - destruct (decide _) as [Hin|_]; [by apply elem_of_nil in Hin|reflexivity].
  - rewrite foldl_step, IH. simpl map.
    destruct (decide (name ∈ map result.CaseName bs)) as [Hin|Hn];
      destruct (decide (name ∈ result.CaseName crB :: map result.CaseName bs))
        as [Hin'|Hn']; try reflexivity.
    + exfalso. apply Hn'. by right.
    + apply elem_of_cons in Hin' as [->|?]; [|done].
      by rewrite lookup_insert_eq.
    + rewrite lookup_insert_ne; [done|]. intros <-. apply Hn'. by left.
Qed.

Lemma foldl_compareA seen rs : forall dr,
  let dr' := foldl (compareA seen) dr rs in
  RunA dr' = RunA dr /\ RunB dr' = RunB dr /\
  Cases dr' = Cases dr ++
    map removedEntry
      (filter (fun crA => default false (seen !! result.CaseName crA) = false)
              rs) /\
  (countsOK dr -> countsOK dr').
Proof.
  induction rs as [|crA rs IH]; intros dr.
  - cbn. rewrite app_nil_r. by split_and!.
  - destruct (default false (seen !! result.CaseName crA)) eqn:Hseen.
    + assert (Hstep : compareA seen dr crA = dr)
        by (unfold compareA; by rewrite Hseen).
      cbv zeta. rewrite foldl_step, Hstep.
      rewrite filter_cons_False by (rewrite Hseen; discriminate). apply IH.
    + assert (Hstep : compareA seen dr crA =
                      appendCase dr (removedEntry crA) incRemoved)
        by (unfold compareA; by rewrite Hseen).
      cbv zeta. rewrite foldl_step, Hstep.
      rewrite filter_cons_True by assumption.
      destruct (IH (appendCase dr (removedEntry crA) incRemoved))
        as (HA & HB & Hcases & Hok).
      split_and!; try assumption.
      * rewrite Hcases. simpl. by rewrite <- app_assoc.
      * intros H0. apply Hok, countsOK_append; [assumption|simpl; tauto].
Qed.

(** The shape of the result of [Compare]: one entry per case of run B,
    in order, then one entry per case of run A whose name run B lacks. *)
Lemma Compare_entries a b t :
  exists cds,
    Cases (Compare a b t) =
      cds ++ map removedEntry
               (filter (fun crA => result.CaseName crA ∉ names (result.Results b))
                       (result.Results a)) /\
    Forall2 (entryOfB (indexByName (result.Results a)) t)
            (result.Results b) cds /\
    countsOK (Compare a b t).
Proof.
  unfold Compare.
  set (dr0 := {| RunA := result.RunID a; RunB := result.RunID b;
                 Cases := []; Summary_ := mkSummary 0 0 0 0 0 |}).
  destruct (foldl_compareB (indexByName (result.Results a)) t
              (result.Results b) ∅ dr0)
    as (cds & dr1 & Hfold & _ & _ & Hcases & Hall & Hok).
  rewrite Hfold.
  set (seen := foldl _ ∅ (result.Results b)).
  destruct (foldl_compareA seen (result.Results a) dr1)
    as (_ & _ & Hcases' & Hok').
  exists cds. split_and!.
  - rewrite Hcases', Hcases. simpl. f_equal. f_equal.
    apply list_filter_iff. intros crA. unfold seen.
    rewrite seen_names, lookup_empty. simpl.
    case_decide; [split; [discriminate|tauto] | tauto].
  - exact Hall.
  - apply Hok', Hok. by repeat split.
Qed.

Lemma filter_none {A} (P : A -> Prop) `{forall x, Decision (P x)} (l : list A) :
  Forall (fun x => ~ P x) l -> filter P l = [].
Proof.
  induction 1 as [|x l Hx _ IH]; [reflexivity|].
  by rewrite filter_cons_False.
Qed.

Lemma filter_all {A} (P : A -> Prop) `{forall x, Decision (P x)} (l : list A) :
  Forall P l -> filter P l = l.
Proof.
  induction 1 as [|x l Hx _ IH]; [reflexivity|].
  rewrite filter_cons_True by assumption. by rewrite IH.
Qed.

(** Counting the entries of a category is counting in the list of the
    categories. *)
Lemma countCat_categories c cds :
  countCat c cds = length (filter (fun x => x = c) (map Category_ cds)).
Proof.
  unfold countCat. induction cds as [|cd cds IH]; [reflexivity|].
  cbn [map]. destruct (decide (Category_ cd = c)) as [Heq|Hne].
  - rewrite !filter_cons_True by assumption. simpl. by rewrite IH.
  - by rewrite !filter_cons_False by assumption.
Qed.

Lemma length_filter_map {A} (f : A -> Category) c (l : list A) :
  length (filter (fun x => x = c) (map f l)) =
  length (filter (fun x => f x = c) l).
Proof.
  induction l as [|x l IH]; [reflexivity|].
  cbn [map]. destruct (decide (f x = c)) as [Heq|Hne].
  - rewrite !filter_cons_True by assumption. simpl. by rewrite IH.
  - by rewrite !filter_cons_False by assumption.
Qed.

(** The categories of the entries of the cases of run B. *)
Lemma entryOfB_categories rs t bs cds :
  Forall2 (entryOfB (indexByName rs) t) bs cds ->
  map Category_ cds =
    map (fun crB =>
           match caseNamed rs (result.CaseName crB) with
           | None => New
           | Some crA =>
               categoryOf t (float64.sub (result.Score crB) (result.Score crA))
           end) bs.
Proof.
  induction 1 as [|crB cd bs cds HE _ IH]; [reflexivity|].
  cbn [map]. rewrite IH. f_equal.
  destruct HE as (_ & _ & _ & HE). rewrite indexByName_caseNamed in HE.
  destruct (caseNamed rs (result.CaseName crB)) as [crA|]; [|exact HE].
  destruct HE as (_ & _ & Hdelta & Hcat). by rewrite Hcat, Hdelta.
Qed.

End Diff.

(** C7.  For every pair of run summaries and every threshold >= 0,
    Compare gives one entry per case of run B (at the position of the
    case) followed by one entry per case of run A whose name run B lacks.
    The entry of a case of B whose name run A lacks is New.  The entry of
    a case of B whose name denotes the case [crA] of run A has
    delta = scoreB - scoreA and is Unchanged if |delta| <= threshold,
    Improved if delta > threshold and Regressed if delta < -threshold.
    The entries after those of B are exactly the Removed entries of the
    cases of A absent from B, one for each such case and in the order of
    run A, so the result has as many entries as B has cases and A has
    cases absent from B.  The five summary counters are the numbers of
    entries of the five categories, and the number of entries of a
    category is the number of cases of that category: the cases of B the
    code classifies under it, and for Removed the cases of A absent from
    B. *)
Theorem Compare_classifies (a b : result.RunSummary) (threshold : float64.t) :
  float64.leb float64.zero threshold = true ->
  let dr := diff.Compare a b threshold in
  let A := result.Results a in
  let B := result.Results b in
  let removed := drop (length B) (diff.Cases dr) in
  let onlyA := filter (fun crA => result.CaseName crA ∉ diff.names B) A in
  let classify crB :=
    match diff.caseNamed A (result.CaseName crB) with
    | None => diff.New
    | Some crA =>
        diff.categoryOf threshold
          (float64.sub (result.Score crB) (result.Score crA))
    end in
  (forall i crB, B !! i = Some crB ->
     exists cd, diff.Cases dr !! i = Some cd /\
       diff.CaseName cd = result.CaseName crB /\
       diff.ScoreB cd = result.Score crB /\
       (result.CaseName crB ∉ diff.names A -> diff.Category_ cd = diff.New) /\
       (forall crA, diff.caseNamed A (result.CaseName crB) = Some crA ->
          diff.ScoreA cd = result.Score crA /\
          diff.ScoreDelta cd =
            float64.sub (result.Score crB) (result.Score crA) /\
          (float64.leb (float64.abs (diff.ScoreDelta cd)) threshold = true ->
             diff.Category_ cd = diff.Unchanged) /\
          (float64.ltb threshold (diff.ScoreDelta cd) = true ->
             diff.Category_ cd = diff.Improved) /\
          (float64.ltb (diff.ScoreDelta cd) (float64.opp threshold) = true ->
             diff.Category_ cd = diff.Regressed))) /\
  (forall crA, crA ∈ A -> result.CaseName crA ∉ diff.names B ->
     exists cd, cd ∈ removed /\
       diff.CaseName cd = result.CaseName crA /\
       diff.Category_ cd = diff.Removed /\
       diff.ScoreA cd = result.Score crA) /\
  (forall cd, cd ∈ removed ->
     diff.Category_ cd = diff.Removed /\
     diff.CaseName cd ∈ diff.names A /\
     diff.CaseName cd ∉ diff.names B) /\
  removed = map diff.removedEntry onlyA /\
  map diff.Category_ (take (length B) (diff.Cases dr)) = map classify B /\
  length (diff.Cases dr) = (length B + length onlyA)%nat /\
  (forall c, diff.countCat c (diff.Cases dr) =
     (length (filter (fun crB => classify crB = c) B) +
      if decide (c = diff.Removed) then length onlyA else 0)%nat) /\
  diff.countsOK dr.
Proof.
  intros Ht dr A B removed onlyA classify.
  destruct (Compare_entries a b threshold) as (cds & Hcases & Hall & Hok).
  fold dr A B onlyA in Hcases, Hall, Hok.
  pose proof (Forall2_length _ _ _ Hall) as Hlen.
  assert (Hremoved : removed = map diff.removedEntry onlyA).
  { unfold removed. rewrite Hcases, Hlen. apply drop_app_length. }
  assert (Hcats : map diff.Category_ cds = map classify B)
    by exact (entryOfB_categories A threshold B cds Hall).
  split_and!; [| | |exact Hremoved| | | |exact Hok].
  - intros i crB HB.
    destruct (Forall2_lookup_l _ _ _ _ _ Hall HB) as (cd & Hcd & HE).
    exists cd. rewrite Hcases, (lookup_app_l_Some _ _ _ _ Hcd).
    destruct HE as (Hname & HsB & _ & HE).
    rewrite indexByName_caseNamed in HE.
    split_and!; try done.
    + intros Hnot. apply caseNamed_None in Hnot. fold A in HE.
      by rewrite Hnot in HE.
    + intros crA HcrA. fold A in HE. rewrite HcrA in HE.
      destruct HE as (HsA & _ & Hdelta & Hcat).
      split_and!; try done.
      * intros Hband. rewrite Hcat. unfold diff.categoryOf. by rewrite Hband.
      * intros Habove. rewrite Hcat. unfold diff.categoryOf.
        destruct (above_threshold _ _ Ht Habove) as [-> ->]. reflexivity.
      * intros Hbelow. rewrite Hcat. unfold diff.categoryOf.
        destruct (below_threshold _ _ Ht Hbelow) as [-> ->]. reflexivity.
  - intros crA HA HnB. exists (diff.removedEntry crA).
    split; [|by split_and!].
    rewrite Hremoved. apply list_elem_of_fmap_2.
    by apply list_elem_of_filter.
  - intros cd Hcd. rewrite Hremoved in Hcd.
    apply list_elem_of_fmap in Hcd as (crA & -> & Hin).
    apply list_elem_of_filter in Hin as [HnB HA].
    split_and!; [reflexivity| |exact HnB].
    simpl. unfold diff.names. by apply list_elem_of_fmap_2.
  - rewrite Hcases, Hlen, take_app_length. exact Hcats.
  - by rewrite Hcases, length_app, length_map, Hlen.
  - intros c. rewrite countCat_categories, Hcases, map_app, filter_app,
      length_app, Hcats, length_filter_map. f_equal.
    rewrite map_map, length_filter_map. simpl.
    destruct (decide (c = diff.Removed)) as [->|Hne].
    + rewrite filter_all; [reflexivity|]. by apply Forall_forall.
    + rewrite filter_none; [reflexivity|]. apply Forall_forall.
      intros crA _ Heq. by apply Hne.
Qed.

Lemma Compare_classifies_witness :
  let dr := diff.Compare examples.runA examples.runB float64.zero in
  map (fun cd => (diff.CaseName cd, diff.Category_ cd)) (diff.Cases dr) =
    [("stable", diff.Unchanged); ("improved", diff.Improved);
     ("regressed", diff.Regressed); ("new-case", diff.New);
     ("removed-case", diff.Removed)] /\
  diff.countsOK dr.
Proof.
  split; [vm_compute; reflexivity|].
  destruct (Compare_classifies examples.runA examples.runB float64.zero
              eq_refl) as (_ & _ & _ & _ & _ & _ & _ & Hok).
  exact Hok.
Defined.

Lemma catSet_lookup (cats : list diff.Category) (c : diff.Category) :
  forall m : gmap diff.Category bool,
  default false (foldl (fun m c => <[c := true]> m) m cats !! c) =
  if decide (c ∈ cats) then true else default false (m !! c).
Proof.
  induction cats as [|c' cats IH]; intros m.
  - destruct (decide _) as [Hin|_]; [by apply elem_of_nil in Hin|reflexivity].
  - rewrite foldl_step, IH.
    destruct (decide (c ∈ cats)) as [Hin|Hn];
      destruct (decide (c ∈ c' :: cats)) as [Hin'|Hn']; try reflexivity.
    + exfalso. apply Hn'. by right.
    + apply elem_of_cons in Hin' as [->|?]; [|done].
      by rewrite lookup_insert_eq.
    + rewrite lookup_insert_ne; [done|]. intros <-. apply Hn'. by left.
Qed.

(** The appending loop of [Filter] is a filter. *)
Lemma foldl_append_filter {A} (p : A -> bool) (l : list A) : forall acc,
  foldl (fun acc x => if p x then acc ++ [x] else acc) acc l =
  acc ++ filter (fun x => p x = true) l.
Proof.
  induction l as [|x l IH]; intros acc.
  - by rewrite filter_nil, app_nil_r.
  - rewrite foldl_step, IH. destruct (p x) eqn:Hp.
    + rewrite filter_cons_True by assumption. by rewrite <- app_assoc.
    + rewrite filter_cons_False by (rewrite Hp; discriminate). reflexivity.
Qed.

(** C10.  For every DiffResult and every non-empty list of categories,
    Filter returns a result whose cases are the cases of the original
    whose category is in the list, in the original order, while RunA,
    RunB and the summary with its five counters are those of the
    original; with no categories (nil or empty) Filter returns the
    original result. *)
Theorem Filter_frame (dr : diff.DiffResult) (categories : list diff.Category) :
  (categories <> [] ->
     diff.Cases (diff.Filter dr categories) =
       filter (fun cd => diff.Category_ cd ∈ categories) (diff.Cases dr) /\
     diff.RunA (diff.Filter dr categories) = diff.RunA dr /\
     diff.RunB (diff.Filter dr categories) = diff.RunB dr /\
     diff.Summary_ (diff.Filter dr categories) = diff.Summary_ dr) /\
  (categories = [] -> diff.Filter dr categories = dr).
Proof.
  unfold diff.Filter. split.
  - intros Hne. destruct (decide (length categories = 0%nat)) as [Hlen|_].
    { by apply length_zero_iff_nil in Hlen. }
    simpl. split_and!; try reflexivity.
    rewrite foldl_append_filter. simpl.
    apply list_filter_iff. intros cd.
    rewrite catSet_lookup, lookup_empty. simpl.
    case_decide; [tauto | split; [discriminate|tauto]].
  - by intros ->.
Qed.

Lemma Filter_frame_witness :
  let dr := diff.Compare examples.runA examples.runB float64.zero in
  let filtered := diff.Filter dr [diff.Regressed; diff.New] in
  map diff.CaseName (diff.Cases filtered) = ["regressed"; "new-case"] /\
  diff.Summary_ filtered = diff.mkSummary 1 1 1 1 1.
Proof.
  intros dr filtered.
  destruct (proj1 (Filter_frame dr [diff.Regressed; diff.New]))
    as (Hcases & _ & _ & Hsum); [discriminate|].
  split.
  - unfold filtered. rewrite Hcases. vm_compute. reflexivity.
  - unfold filtered. rewrite Hsum. vm_compute. reflexivity.
Defined.

(** ** Composite scorer *)

Section Scorer.

Import judge.

Variable input : Input.

(** The sums and the flags after the loop over the configs. *)
Lemma loop_invariant configs : forall st,
  let st' := foldl (loopBody input) st configs in
  weightedSum st' =
    foldl (fun acc cfg =>
             float64.add acc
               (float64.mul (Score (Evaluate (Judge_ cfg) input).1)
                            (effectiveWeight cfg)))
          (weightedSum st) (contributing input configs) /\
  totalWeight st' =
    foldl (fun acc cfg => float64.add acc (effectiveWeight cfg))
          (totalWeight st) (contributing input configs) /\
  hasError st' = hasError st || existsb (errored input) configs /\
  hasReview st' = hasReview st || existsb (flaggedReview input) configs /\
  length (scores st') = (length (scores st) + length configs)%nat.
Proof.
  unfold contributing.
  induction configs as [|cfg configs IH]; intros st.
  - cbn. rewrite !orb_false_r. split_and!; try reflexivity. lia.
  - cbv zeta. rewrite foldl_step.
    destruct (IH (loopBody input st cfg)) as (HS & HW & HE & HR & HL).
    rewrite HS, HW, HE, HR, HL. clear IH HS HW HE HR HL.
    unfold loopBody, errored, flaggedReview. simpl existsb.
    unfold errored.
    destruct (Evaluate (Judge_ cfg) input) as [res [e|]] eqn:HEv; simpl.
    + rewrite filter_cons_False by (unfold errored; rewrite HEv; discriminate).
      rewrite length_app. simpl.
      split_and!; try reflexivity; try lia.
    + rewrite filter_cons_True by (unfold errored; by rewrite HEv).
      rewrite foldl_step, length_app, HEv. simpl.
      split_and!; try reflexivity; try lia.
      destruct (bool_decide (Reason res = "review")), (hasReview st);
        reflexivity.
Qed.

(** The result of [Score] in terms of the sums and the flags. *)
Lemma Score_unfold cs configs :
  let res := CompositeScorer_Score cs input configs in
  let den := weightSumOf (contributing input configs) in
  let num := weightedSumOf input (contributing input configs) in
  let anyError := existsb (errored input) configs in
  let anyReview := existsb (flaggedReview input) configs in
  CompositeScore res =
    (if float64.ltb float64.zero den then float64.div num den
     else float64.zero) /\
  crPass res =
    float64.leb (Threshold cs) (CompositeScore res) &&
    negb anyError && negb anyReview /\
  crStatus res =
    (if anyError then StatusError
     else if anyReview then StatusReview
     else if float64.leb (Threshold cs) (CompositeScore res) then StatusPass
     else StatusFail) /\
  length (Scores res) = length configs.
Proof.
  unfold CompositeScorer_Score, weightSumOf, weightedSumOf.
  destruct (loop_invariant configs loopInit) as (HS & HW & HE & HR & HL).
  simpl in HS, HW, HE, HR, HL. rewrite <- HS, <- HW, <- HE, <- HR.
  set (st := foldl (loopBody input) loopInit configs) in *.
  cbv zeta.
  set (composite := if float64.ltb _ _ then _ else _).
  destruct (hasError st), (hasReview st),
    (float64.leb (Threshold cs) composite) eqn:Hpass; simpl;
    rewrite ?Hpass; split_and!; try reflexivity; exact HL.
Qed.

End Scorer.

(** C2 (as stated, refuted).  A judge flagged for review contributes its
    score and weight like any judge that did not fail: a single review
    judge with score 0.8 gives the composite 0.8, not 0; a passing judge
    with score 1.0 next to that review judge gives the composite 0.9,
    not the 1.0 of the passing judge alone. *)
Lemma Score_counts_review_judges :
  let cs := judge.NewCompositeScorer (float64.lit 1 2) in
  let pass :=
    judge.mkJudgeConfig
      (examples.stubJudge "pass" (judge.mkResult true float64.one "ok") None)
      float64.one in
  let review :=
    judge.mkJudgeConfig
      (examples.stubJudge "review"
         (judge.mkResult true (float64.lit 8 10) "review") None)
      float64.one in
  judge.flaggedReview examples.noInput review = true /\
  judge.CompositeScore
    (judge.CompositeScorer_Score cs examples.noInput [review]) =
    float64.lit 8 10 /\
  judge.CompositeScore
    (judge.CompositeScorer_Score cs examples.noInput [pass; review]) =
    float64.lit 9 10 /\
  judge.CompositeScore
    (judge.CompositeScorer_Score cs examples.noInput [pass]) = float64.one.
Proof. vm_compute. repeat split. Qed.

(** C2 (amended).  For every list of judge configs, the composite score
    is the weighted sum of the contributing judges' scores divided by the
    sum of their weights (each weight defaulting to 1.0 when zero)
    whenever that sum of weights is greater than zero, and 0 otherwise; a
    judge contributes unless its invocation failed (a judge flagged for
    review contributes).  In particular the composite is 0 when no judge
    contributed (all failed, or no judges configured). *)
Theorem Score_composite (cs : judge.CompositeScorer) (input : judge.Input)
    (configs : list judge.JudgeConfig) :
  let contributing := judge.contributing input configs in
  let num := judge.weightedSumOf input contributing in
  let den := judge.weightSumOf contributing in
  let composite :=
    judge.CompositeScore (judge.CompositeScorer_Score cs input configs) in
  composite =
    (if float64.ltb float64.zero den then float64.div num den
     else float64.zero) /\
  (contributing = [] -> composite = float64.zero).
Proof.
  intros contributing num den composite.
  destruct (Score_unfold input cs configs) as (Hc & _).
  split; [exact Hc|].
  intros Hnone. unfold composite. rewrite Hc.
  fold contributing. by rewrite Hnone.
Qed.

Lemma Score_composite_witness :
  let cs := judge.NewCompositeScorer (float64.lit 1 2) in
  let broken :=
    judge.mkJudgeConfig
      (examples.stubJudge "broken"
         (judge.mkResult false float64.zero "") (Some "judge crashed"))
      float64.one in
  judge.CompositeScore
    (judge.CompositeScorer_Score cs examples.noInput [broken]) =
  float64.zero.
Proof.
  intros cs broken.
  exact (proj2 (Score_composite cs examples.noInput [broken]) eq_refl).
Defined.

Lemma existsb_elem_of {A} (p : A -> bool) (l : list A) :
  existsb p l = true <-> exists x, x ∈ l /\ p x = true.
Proof.
  rewrite existsb_exists. split; intros (x & Hin & Hp); exists x;
    (split; [by apply list_elem_of_In | assumption]).
Qed.

(** C5 (as stated, refuted).  With no judges the composite is 0 and the
    verdict is the comparison of 0 with the threshold: a scorer built
    with the threshold -1, and the zero-valued scorer (threshold 0),
    both give status Pass for an empty list of judges. *)
Lemma Score_no_judges_can_pass :
  (let res :=
     judge.CompositeScorer_Score
       (judge.NewCompositeScorer (float64.opp float64.one))
       examples.noInput [] in
   judge.CompositeScore res = float64.zero /\
   judge.crStatus res = judge.StatusPass /\ judge.crPass res = true) /\
  (let res :=
     judge.CompositeScorer_Score (judge.mkCompositeScorer float64.zero)
       examples.noInput [] in
   judge.CompositeScore res = float64.zero /\
   judge.crStatus res = judge.StatusPass /\ judge.crPass res = true).
Proof. vm_compute. repeat split. Qed.

(** C5 (amended).  For every scoring pass, the final verdict is Pass if
    and only if the composite score is >= the configured threshold (0.5
    when the scorer is created with threshold 0) and no judge produced an
    Error or Review flag; the status is Error if any judge failed,
    otherwise Review if any judge flagged review, otherwise Pass or Fail
    as the comparison with the threshold says; and with zero configured
    judges the composite score is 0.0, with status Fail whenever the
    threshold is greater than 0 (as the default is). *)
Theorem Score_verdict (cs : judge.CompositeScorer) (input : judge.Input)
    (configs : list judge.JudgeConfig) :
  let res := judge.CompositeScorer_Score cs input configs in
  let anyError :=
    exists cfg, cfg ∈ configs /\ judge.errored input cfg = true in
  let anyReview :=
    exists cfg, cfg ∈ configs /\ judge.flaggedReview input cfg = true in
  let reached :=
    float64.leb (judge.Threshold cs) (judge.CompositeScore res) in
  (judge.crPass res = true <-> reached = true /\ ~ anyError /\ ~ anyReview) /\
  (judge.crStatus res = judge.StatusPass <-> judge.crPass res = true) /\
  (anyError -> judge.crStatus res = judge.StatusError) /\
  (~ anyError -> anyReview -> judge.crStatus res = judge.StatusReview) /\
  (~ anyError -> ~ anyReview ->
     judge.crStatus res =
       if reached then judge.StatusPass else judge.StatusFail) /\
  (configs = [] ->
     judge.CompositeScore res = float64.zero /\
     (float64.ltb float64.zero (judge.Threshold cs) = true ->
        judge.crStatus res = judge.StatusFail /\ judge.crPass res = false)) /\
  judge.Threshold (judge.NewCompositeScorer float64.zero) = float64.lit 1 2.
Proof.
  intros res anyError anyReview reached.
  destruct (Score_unfold input cs configs) as (Hc & Hp & Hs & _).
  fold res in Hc, Hp, Hs. fold reached in Hp, Hs.
  assert (HE : existsb (judge.errored input) configs = true <-> anyError)
    by apply existsb_elem_of.
  assert (HR : existsb (judge.flaggedReview input) configs = true
               <-> anyReview) by apply existsb_elem_of.
  assert (Hempty : configs = [] ->
            judge.CompositeScore res = float64.zero /\
            (float64.ltb float64.zero (judge.Threshold cs) = true ->
               judge.crStatus res = judge.StatusFail /\
               judge.crPass res = false)).
  { intros Hnil. rewrite Hp, Hs, Hc. unfold reached. rewrite Hc. subst configs.
    simpl. split; [reflexivity|]. intros Hpos.
    by rewrite (ltb_leb_false _ _ Hpos). }
  split_and!; [| | | | |exact Hempty|reflexivity].
  all: clear Hempty Hc.
  all: destruct (existsb (judge.errored input) configs);
    destruct (existsb (judge.flaggedReview input) configs);
    simpl in Hp, Hs; rewrite ?andb_false_r, ?andb_true_r in Hp;
    rewrite ?Hp, ?Hs; unfold judge.StatusPass, judge.StatusError,
      judge.StatusReview, judge.StatusFail;
    try reflexivity;
    try destruct reached; intuition (try congruence; try discriminate).
Qed.

Lemma Score_verdict_witness :
  let res :=
    judge.CompositeScorer_Score (judge.NewCompositeScorer float64.zero)
      examples.noInput [] in
  judge.CompositeScore res = float64.zero /\
  judge.crStatus res = judge.StatusFail /\ judge.crPass res = false.
Proof.
  intros res.
  pose proof (Score_verdict (judge.NewCompositeScorer float64.zero)
                examples.noInput []) as (_ & _ & _ & _ & _ & Hempty & _).
  destruct (Hempty eq_refl) as [Hzero Hfail].
  split; [exact Hzero | exact (Hfail eq_refl)].
Defined.

(** ** The tool loop *)

Section ToolLoop.

Import runner.

Context `{fmt.Quote} `{prompt.Engine} {PS : Type} `{provider.Provider PS}.

(** Resolving tool calls touches neither the error nor the final
    response of the case. *)
Lemma resolveToolCalls_frame tcs : forall st : loopState PS,
  let st' := foldl resolveToolCall st tcs in
  lsError st' = lsError st /\
  lsFinalResponse st' = lsFinalResponse st /\
  length (trace.ToolCalls (lsTrace st')) =
    (length (trace.ToolCalls (lsTrace st)) + length tcs)%nat.
Proof.
  induction tcs as [|tc tcs IH]; intros st.
  - cbn. split_and!; try reflexivity. lia.
  - cbv zeta. rewrite foldl_step.
    destruct (IH (resolveToolCall st tc)) as (HE & HF & HL).
    rewrite HE, HF, HL. clear IH HE HF HL.
    unfold resolveToolCall.
    destruct (mock.Resolve _ _ _ _) as [[[content mockErr] registry] clock].
    simpl. rewrite length_app. simpl. split_and!; try reflexivity. lia.
Qed.

(** Against such a provider the loop runs out of iterations and leaves
    the error and the final response as they were. *)
Lemma toolLoop_exhausted caseCtx system tools fuel :
  alwaysRequestsTools PS ->
  forall st : loopState PS,
    let st' := toolLoop caseCtx system tools fuel st in
    lsError st' = lsError st /\
    lsFinalResponse st' = lsFinalResponse st.
Proof.
  intros Hloop. induction fuel as [|fuel IH]; intros st; [by split|].
  cbv zeta. simpl.
  match goal with
  | |- context [provider.Complete ?p ?c ?k ?q] =>
      destruct (Hloop p c k q) as (resp & Hresp & Htcs);
      destruct (provider.Complete p c k q) as [[reply p'] clock']
  end.
  simpl in Hresp. subst reply.
  destruct (provider.respToolCalls resp) as [|tc tcs] eqn:Hcalls; [done|].
  match goal with
  | |- context [toolLoop _ _ _ fuel ?s] => destruct (IH s) as [HE HF]
  end.
  rewrite HE, HF.
  match goal with
  | |- context [foldl resolveToolCall ?s ?l] =>
      destruct (resolveToolCalls_frame l s) as (HE' & HF' & _)
  end.
  by rewrite HE', HF'.
Qed.

(** Whenever the prompt renders and the provider asks for tools on every
    turn, [runCase] reports neither an error nor a final response. *)
Lemma runCase_exhausted_silent r ctx c pv (p : PS) clock rendered :
  alwaysRequestsTools PS ->
  prompt.Interpolate pv (suite.Input c) = inl rendered ->
  let cr := (runCase r ctx c pv p clock).1.1 in
  Error cr = "" /\ FinalResponse cr = "".
Proof.
  intros Hloop Hrender. unfold runCase. rewrite Hrender. cbv zeta.
  match goal with
  | |- context [toolLoop ?c0 ?s0 ?t0 ?f0 ?st0] =>
      destruct (toolLoop_exhausted c0 s0 t0 f0 Hloop st0) as [HE HF];
      set (final := toolLoop c0 s0 t0 f0 st0) in *; clearbody final
  end.
  simpl in *. by rewrite HE, HF.
Qed.

End ToolLoop.

(** C1 (evaluation at the failing input).  Against a provider that
    requests a tool on every turn, [runCase] makes its 20 provider
    calls, resolves 20 tool calls and returns a case result with an
    empty error and an empty final response. *)
Lemma runCase_at_iteration_cap :
  let '(cr, calls, _) :=
    @runner.runCase examples.plainQuote examples.literalEngine
      nat examples.loopingProvider
      (runner.New (runner.mkConfig 1 0)) context.Background
      examples.loopCase examples.loopPrompt 0%nat 0 in
  calls = runner.MaxToolLoopIterations /\
  runner.Error cr = "" /\
  runner.FinalResponse cr = "" /\
  (length <$> (trace.ToolCalls <$> runner.Trace cr)) = Some 20%nat.
Proof. vm_compute. repeat split. Qed.

(** ** The runner *)

Section RunProofs.

Import runner.

Context `{fmt.Quote} `{prompt.Engine}.
Variables (r : Runner) (ctx : context.Context) (s : suite.EvalSuite)
  (pv : prompt.PromptVariant) (progress : bool) (start : trace.Time).

Abbreviation step := (step r ctx s pv progress start).
Abbreviation exec := (exec r ctx s pv progress start).
Abbreviation invariant := (invariant r ctx s pv).
Abbreviation capacity := (capacity r).

Lemma active_cons g gs :
  length (filter holding (g :: gs)) =
  ((if holding g then 1 else 0) + length (filter holding gs))%nat.
Proof.
  destruct (holding g) eqn:Hg.
  - rewrite filter_cons_True by (rewrite Hg; exact I). reflexivity.
  - rewrite filter_cons_False by (rewrite Hg; exact id). reflexivity.
Qed.

Lemma active_snoc gs g :
  length (filter holding (gs ++ [g])) =
  (length (filter holding gs) + if holding g then 1 else 0)%nat.
Proof.
  rewrite filter_app, length_app, active_cons, filter_nil. simpl. lia.
Qed.

(** Replacing the state of one goroutine moves the count of holders by
    the difference of the two states. *)
Lemma active_insert gs : forall i g g',
  gs !! i = Some g ->
  (length (filter holding (<[i := g']> gs)) + (if holding g then 1 else 0) =
   length (filter holding gs) + (if holding g' then 1 else 0))%nat.
Proof.
  induction gs as [|g0 gs IH]; intros i g g' Hi; [done|].
  destruct i as [|i]; simpl in Hi.
  - injection Hi as ->. simpl. rewrite !active_cons. lia.
  - specialize (IH i g g' Hi). simpl. rewrite !active_cons. lia.
Qed.

Lemma lookup_insert_inv (gs : list goroutine) i g' j g :
  <[i := g']> gs !! j = Some g ->
  (j = i /\ g = g' /\ (i < length gs)%nat) \/ (j <> i /\ gs !! j = Some g).
Proof.
  intros Hj. apply list_lookup_insert_Some in Hj.
  destruct Hj as [(-> & -> & Hlt)|(Hne & Hj)]; [left|right]; auto.
Qed.

(** The properties of the results held and stored survive the move of
    one goroutine to a state that holds and has stored no more than
    what is known of it. *)
Lemma results_insert (P : nat -> CaseResult -> Prop) (f : goroutine -> option CaseResult)
    (gs : list goroutine) i g' :
  (forall j g cr, gs !! j = Some g -> f g = Some cr -> P j cr) ->
  (forall cr, f g' = Some cr -> P i cr) ->
  forall j g cr, <[i := g']> gs !! j = Some g -> f g = Some cr -> P j cr.
Proof.
  intros Hold Hnew j g cr Hj Hf.
  destruct (lookup_insert_inv _ _ _ _ _ Hj) as [(-> & -> & _)|(_ & Hj')].
  - by apply Hnew.
  - by apply (Hold j g).
Qed.

Ltac step_inversion Hstep :=
  unfold runner.step in Hstep;
  repeat match type of Hstep with
         | context [match ?l !! ?i with _ => _ end] =>
             destruct (l !! i) as [?|] eqn:?
         | context [match ?g with _ => _ end] =>
             match type of g with
             | runner.goroutine => destruct g
             end
         | context [decide (?a < ?b)%nat] => destruct (decide (a < b)%nat)
         end;
  try discriminate; injection Hstep as <-.

Ltac holders_moved :=
  match goal with
  | Hi : runner.gos ?st !! ?i = Some ?g
    |- context [<[?i := ?g']> (runner.gos ?st)] =>
      let Hact := fresh "Hact" in
      pose proof (active_insert (runner.gos st) i g g' Hi) as Hact;
      simpl in Hact
  end.

(** Every step keeps the invariant. *)
Lemma step_invariant a st st' :
  invariant st -> step a st = Some st' -> invariant st'.
Proof.
  intros (Hgos & Hslots & Hsem & Hcap & Hres & Hsto) Hstep.
  destruct a as [|i|i p clock|i|i clock|i|i]; step_inversion Hstep;
    unfold runner.invariant, active, setGo in *; simpl.
  - (* Spawn *)
    rewrite length_app, active_snoc. simpl.
    split_and!; try assumption; try lia.
    + intros j g cr Hj. apply lookup_snoc_Some in Hj as [[_ Hj]|[_ <-]];
        [by apply (Hres j g) | discriminate].
    + intros j g cr Hj. apply lookup_snoc_Some in Hj as [[_ Hj]|[_ <-]];
        [by apply (Hsto j g) | discriminate].
  - (* Acquire *)
    rewrite length_insert. holders_moved.
    split_and!; try assumption; try lia.
    + apply results_insert; [assumption | discriminate].
    + apply results_insert; [assumption | discriminate].
  - (* RunCase *)
    rewrite length_insert. holders_moved.
    split_and!; try assumption; try lia.
    + apply results_insert; [assumption|].
      intros cr [= <-]. eexists. split; [eassumption|]. by exists p, clock.
    + apply results_insert; [assumption | discriminate].
  - (* Store *)
    rewrite !length_insert. holders_moved.
    split_and!; try assumption; try lia.
    + apply results_insert; [assumption|].
      intros cr' [= <-]. by apply (Hres i (Returned cr)).
    + intros j gj cr' Hj Hg.
      destruct (lookup_insert_inv _ _ _ _ _ Hj) as [(-> & -> & Hlt)|(Hne & Hj')].
      * injection Hg as <-. apply list_lookup_insert_eq. lia.
      * rewrite list_lookup_insert_ne by congruence. by apply (Hsto j gj).
  - (* Report *)
    rewrite length_insert. holders_moved.
    split_and!; try assumption; try lia.
    + apply results_insert; [assumption|].
      intros cr' [= <-]. by apply (Hres i (Stored cr current)).
    + apply results_insert; [assumption|].
      intros cr' [= <-]. by apply (Hsto i (Stored cr current)).
  - (* Release *)
    rewrite length_insert. holders_moved.
    split_and!; try assumption; try lia.
    + apply results_insert; [assumption|].
      intros cr' [= <-]. by apply (Hres i (Reported cr)).
    + apply results_insert; [assumption|].
      intros cr' [= <-]. by apply (Hsto i (Reported cr)).
  - (* Done *)
    rewrite length_insert. holders_moved.
    split_and!; try assumption; try lia.
    + apply results_insert; [assumption|].
      intros cr' [= <-]. by apply (Hres i (Released cr)).
    + apply results_insert; [assumption|].
      intros cr' [= <-]. by apply (Hsto i (Released cr)).
Qed.

Lemma init_invariant : invariant (initState s).
Proof.
  unfold runner.invariant, initState, active. simpl.
  rewrite length_replicate. split_and!; try reflexivity; try lia.
  - intros i g cr Hi. by rewrite lookup_nil in Hi.
  - intros i g cr Hi. by rewrite lookup_nil in Hi.
Qed.

Lemma exec_cons a sched st :
  exec (a :: sched) st =
    match step a st with
    | Some st' => exec sched st'
    | None => None
    end.
Proof. reflexivity. Qed.

Lemma exec_app sched1 : forall sched2 st,
  exec (sched1 ++ sched2) st =
    match exec sched1 st with
    | Some st' => exec sched2 st'
    | None => None
    end.
Proof.
  induction sched1 as [|a sched1 IH]; intros sched2 st; [reflexivity|].
  rewrite <- app_comm_cons, !exec_cons.
  destruct (step a st); [apply IH | reflexivity].
Qed.

(** The invariant holds in every state an execution reaches. *)
Lemma exec_invariant sched : forall st st',
  invariant st -> exec sched st = Some st' -> invariant st'.
Proof.
  induction sched as [|a sched IH]; intros st st' Hinv Hexec.
  - by injection Hexec as <-.
  - rewrite exec_cons in Hexec.
    destruct (step a st) as [st1|] eqn:Hstep; [|discriminate].
    exact (IH st1 st' (step_invariant a st st1 Hinv Hstep) Hexec).
Qed.

(** [runCase] names its result after the case. *)
Lemma runCase_identity {PS} `{provider.Provider PS}
    (ec : suite.EvalCase) (p : PS) clock :
  let cr := (runCase r ctx ec pv p clock).1.1 in
  CaseName cr = suite.Name ec /\ CaseID cr = suite.ID ec.
Proof.
  unfold runCase. cbv zeta.
  destruct (prompt.Interpolate pv (suite.Input ec)); by split.
Qed.

Lemma snoc_lookup (gs : list goroutine) g :
  (gs ++ [g]) !! length gs = Some g.
Proof. by apply list_lookup_middle. Qed.

Lemma snoc_insert (gs : list goroutine) g g' :
  <[length gs := g']> (gs ++ [g]) = gs ++ [g'].
Proof.
  rewrite insert_app_r_alt by lia. by rewrite Nat.sub_diag.
Qed.

Lemma forallb_snoc (gs : list goroutine) g :
  forallb isFinished (gs ++ [g]) = forallb isFinished gs && isFinished g.
Proof. rewrite forallb_app. simpl. by rewrite andb_true_r. Qed.

(** From a state where every goroutine has finished, the next case can
    be run from start to end. *)
Lemma caseSchedule_runs st p clock :
  (length (gos st) < length (suite.Cases s))%nat ->
  sem st = 0%nat -> (0 < capacity)%nat ->
  forallb isFinished (gos st) = true ->
  exists st',
    exec (caseSchedule (length (gos st)) p clock) st = Some st' /\
    length (gos st') = S (length (gos st)) /\
    sem st' = 0%nat /\
    forallb isFinished (gos st') = true.
Proof.
  intros Hlt Hsem Hcap Hfin.
  destruct (lookup_lt_is_Some_2 _ _ Hlt) as [ec Hec].
  destruct st as [sm gs rc done pcs].
  cbn [gos sem] in *. subst sm.
  unfold caseSchedule.
  repeat (rewrite ?exec_cons; progress unfold runner.step at 1;
          cbv beta iota;
          cbn [gos sem resultCases completed progressCalls setGo];
          rewrite ?snoc_insert, ?snoc_lookup, ?Hec;
          try match goal with
              | |- context [decide (?a < ?b)%nat] =>
                  destruct (decide (a < b)%nat); [|exfalso; lia]
              end;
          cbv beta iota).
  cbn [gos sem resultCases completed progressCalls setGo].
  rewrite ?snoc_insert.
  eexists. split; [reflexivity|]. cbn [gos sem setGo].
  rewrite ?snoc_insert, length_app, forallb_snoc, Hfin. simpl. split_and!; try reflexivity.
  lia.
Qed.

(** The cases that are left can be run one after the other. *)
Lemma sequentialSchedule_runs p clock count : forall st,
  (length (gos st) + count = length (suite.Cases s))%nat ->
  sem st = 0%nat -> (0 < capacity)%nat ->
  forallb isFinished (gos st) = true ->
  exists st',
    exec (sequentialSchedule (length (gos st)) count p clock) st = Some st' /\
    finished s st' = true.
Proof.
  induction count as [|count IH]; intros st Hlen Hsem Hcap Hfin.
  - exists st. split; [reflexivity|]. unfold finished.
    rewrite Hfin, andb_true_r. apply bool_decide_eq_true. lia.
  - destruct (caseSchedule_runs st p clock) as (st1 & Hexec & Hlen1 & Hsem1 & Hfin1);
      try assumption; try lia.
    destruct (IH st1) as (st' & Hexec' & Hdone); try assumption; try lia.
    exists st'. split; [|exact Hdone].
    change (sequentialSchedule (length (gos st)) (S count) p clock)
      with (caseSchedule (length (gos st)) p clock ++
            sequentialSchedule (S (length (gos st))) count p clock).
    rewrite exec_app, Hexec, <- Hlen1. exact Hexec'.
Qed.

End RunProofs.

(** C9.  For any suite run by a runner created with configured
    concurrency C (coerced to 1 when C <= 0), in every state of every
    execution of Run the number of goroutines between the send on the
    semaphore and the receive from it, which is where a case executes,
    is at most C. *)
Theorem Run_bounded_concurrency `{fmt.Quote} `{prompt.Engine}
    (cfg0 : runner.Config) (ctx : context.Context) (s : suite.EvalSuite)
    (pv : prompt.PromptVariant) (progress : bool) (start : trace.Time)
    (sched : list runner.action) (st : runner.runState) :
  let r := runner.New cfg0 in
  let C := if runner.Concurrency cfg0 <=? 0 then 1
           else runner.Concurrency cfg0 in
  runner.exec r ctx s pv progress start sched (runner.initState s) = Some st ->
  Z.of_nat (runner.active st) <= C /\ runner.sem st = runner.active st.
Proof.
  intros r C Hexec.
  destruct (exec_invariant r ctx s pv progress start sched _ _
              (init_invariant r ctx s pv) Hexec)
    as (_ & _ & Hsem & Hcap & _).
  split; [|exact Hsem]. rewrite <- Hsem.
  unfold runner.capacity, r, runner.New in Hcap. simpl in Hcap.
  unfold C. destruct (runner.Concurrency cfg0 <? 1) eqn:Hlt;
    destruct (runner.Concurrency cfg0 <=? 0) eqn:Hle; lia.
Qed.

Lemma Run_bounded_concurrency_witness :
  match
    @runner.exec examples.plainQuote examples.literalEngine
      (runner.New (runner.mkConfig 0 0)) context.Background
      examples.twoCases examples.loopPrompt true 0
      [runner.Spawn; runner.Spawn; runner.Acquire 1;
       runner.RunCase 1 examples.errorView 3]
      (runner.initState examples.twoCases)
  with
  | Some st => Z.of_nat (runner.active st) <= 1
  | None => False
  end.
Proof.
  destruct (runner.exec _ _ _ _ _ _ _ _) as [st|] eqn:Hexec.
  - exact (proj1 (@Run_bounded_concurrency examples.plainQuote
                    examples.literalEngine _ _ _ _ _ _ _ _ Hexec)).
  - vm_compute in Hexec. discriminate.
Defined.

(** C6.  For every suite and every execution of Run that returns, the
    result list has exactly one slot per input case, and the slot of
    index i holds a result that runCase returned for the case of input
    index i (under its name and id), whatever the order in which the
    goroutines ran and finished; and whenever the concurrency is at
    least 1 (as New makes it) there are executions of Run that return. *)
Theorem Run_results_in_input_order `{fmt.Quote} `{prompt.Engine}
    (r : runner.Runner) (ctx : context.Context) (s : suite.EvalSuite)
    (pv : prompt.PromptVariant) (progress : bool) (start : trace.Time) :
  (forall sched stop res,
     runner.Run r ctx s pv progress start sched stop = Some res ->
     length (runner.Cases res) = length (suite.Cases s) /\
     forall i ec, suite.Cases s !! i = Some ec ->
       exists cr, runner.Cases res !! i = Some cr /\
         runner.caseOutcome r ctx pv ec cr /\
         runner.CaseName cr = suite.Name ec /\
         runner.CaseID cr = suite.ID ec) /\
  (0 < runner.Concurrency (runner.cfg r) ->
   forall stop, exists sched res,
     runner.Run r ctx s pv progress start sched stop = Some res).
Proof.
  split.
  - intros sched stop res HRun. unfold runner.Run in HRun.
    destruct (runner.exec _ _ _ _ _ _ sched _) as [st|] eqn:Hexec;
      [|discriminate].
    destruct (runner.finished s st) eqn:Hfin; [|discriminate].
    injection HRun as <-. simpl.
    destruct (exec_invariant r ctx s pv progress start sched _ _
                (init_invariant r ctx s pv) Hexec)
      as (_ & Hslots & _ & _ & Hres & Hsto).
    split; [exact Hslots|]. intros i ec Hec.
    unfold runner.finished in Hfin.
    apply andb_true_iff in Hfin as [Hlen Hall].
    apply bool_decide_eq_true in Hlen.
    destruct (lookup_lt_is_Some_2 (runner.gos st) i) as [g Hg].
    { rewrite Hlen. by apply lookup_lt_Some in Hec. }
    assert (Hg' : runner.isFinished g = true).
    { rewrite forallb_forall in Hall. apply Hall.
      apply list_elem_of_In, list_elem_of_lookup. by exists i. }
    destruct g as [| | | | | |cr]; try discriminate.
    exists cr. destruct (Hres i _ cr Hg eq_refl) as (ec' & Hec' & Hout).
    rewrite Hec in Hec'. injection Hec' as <-.
    split; [exact (Hsto i _ cr Hg eq_refl)|]. split; [exact Hout|].
    destruct Hout as (p & clock & ->).
    apply (runCase_identity r ctx pv ec (runner.pstate p) clock).
  - intros Hcap stop.
    destruct (sequentialSchedule_runs r ctx s pv progress start
                examples.errorView 0 (length (suite.Cases s))
                (runner.initState s))
      as (st & Hexec & Hfin); try reflexivity.
    { unfold runner.capacity. lia. }
    eexists _, _. unfold runner.Run.
    simpl in Hexec. rewrite Hexec, Hfin. reflexivity.
Qed.

Lemma Run_results_in_input_order_witness :
  exists res,
    @runner.Run examples.plainQuote examples.literalEngine
      (runner.New (runner.mkConfig 2 0)) context.Background
      examples.twoCases examples.loopPrompt true 0
      examples.secondFinishesFirst 7 = Some res /\
    map runner.CaseName (runner.Cases res) = ["c1"; "c2"] /\
    length (runner.Cases res) = 2%nat.
Proof.
  destruct (runner.Run _ _ _ _ _ _ examples.secondFinishesFirst 7)
    as [res|] eqn:HRun.
  - exists res. split; [reflexivity|]. split.
    + vm_compute in HRun. injection HRun as <-. reflexivity.
    + exact (proj1 (proj1 (@Run_results_in_input_order examples.plainQuote
               examples.literalEngine _ _ _ _ _ _) _ _ _ HRun)).
  - vm_compute in HRun. discriminate.
Defined.

(** * Further properties *)

(** ** Trace: the three ledgers *)

Section Ledgers.

Import trace.

Lemma addUsages_usage_ext calls : forall t t' : AgentTrace,
  Usage t = Usage t' -> Usage (addUsages t calls) = Usage (addUsages t' calls).
Proof.
  induction calls as [|c calls IH]; intros t t' Heq; [exact Heq|].
  unfold addUsages. rewrite !foldl_step. apply IH. simpl. by rewrite Heq.
Qed.

Lemma applyOps_frame ops : forall t,
  Messages (applyOps t ops) = Messages t ++ messagesOf ops /\
  ToolCalls (applyOps t ops) = ToolCalls t ++ toolCallsOf ops /\
  Usage (applyOps t ops) = Usage (addUsages t (usagesOf ops)) /\
  StartTime (applyOps t ops) = StartTime t.
Proof.
  induction ops as [|op ops IH]; intros t.
  - cbn. by rewrite !app_nil_r.
  - unfold applyOps. rewrite foldl_step.
    destruct (IH (applyOp t op)) as (HM & HT & HU & HS).
    unfold applyOps in HM, HT, HU, HS. rewrite HM, HT, HU, HS.
    destruct op as [now role content|tc|input output|now]; simpl;
      rewrite <- ?app_assoc; split_and!; try reflexivity.
    all: by apply addUsages_usage_ext.
Qed.

End Ledgers.

(** X1.  Whatever the order of the calls of AddMessage, AddToolCall,
    AddUsage and Finish on a new trace, GetMessages returns the added
    messages in call order, GetToolCalls the added tool calls in call
    order, GetUsage the totals of the AddUsage calls alone, and the start
    time is the one of New: no method disturbs the ledger of another. *)
Theorem trace_ledgers_independent (now : trace.Time) (ops : list trace.Op) :
  let t := trace.applyOps (trace.New now) ops in
  trace.GetMessages t = trace.messagesOf ops /\
  trace.GetToolCalls t = trace.toolCallsOf ops /\
  trace.GetUsage t =
    trace.Usage (trace.addUsages (trace.New now) (trace.usagesOf ops)) /\
  trace.StartTime t = now.
Proof.
  intros t. destruct (applyOps_frame ops (trace.New now)) as (HM & HT & HU & HS).
  unfold trace.GetMessages, trace.GetToolCalls, trace.GetUsage, t.
  by rewrite HM, HT, HU, HS.
Qed.

(** ** Mock registry: construction, replacement and the call log *)

Section RegistryMore.

Import mock.

Lemma NewRegistry_snoc configs c name :
  foldl (fun m c => <[ToolName c := c]> m) (∅ : gmap string MockConfig)
        (configs ++ [c]) !! name =
  if decide (ToolName c = name) then Some c
  else foldl (fun m c => <[ToolName c := c]> m)
             (∅ : gmap string MockConfig) configs !! name.
Proof.
  rewrite foldl_app. simpl.
  destruct (decide (ToolName c = name)) as [<-|Hne].
  - apply lookup_insert_eq.
  - by rewrite lookup_insert_ne.
Qed.

(** The log after one call: one record more when the result is a
    recorded one, the same log otherwise. *)
Lemma Resolve_calls r clock tool params :
  let '(res, r', _) := Resolve r clock tool params in
  map (fun c => (recToolName c, recParameters c)) (calls r') =
    map (fun c => (recToolName c, recParameters c)) (calls r) ++
    (if recorded res then [(tool, params)] else []).
Proof.
  unfold Resolve.
  destruct (mocks r !! tool) as [cfg|]; [|by rewrite app_nil_r].
  destruct (selectResponse cfg tool (callIdx r)) as [[resp idxs]|];
    [|by rewrite app_nil_r].
  destruct (decide (Error resp = "")); simpl; by rewrite map_app.
Qed.

End RegistryMore.

(** X2.  A registry built by NewRegistry has an empty call log and all
    counters at zero, and configures a tool exactly when some config of
    the list names it; of several configs for one tool the last one of
    the list is the one in force. *)
Theorem NewRegistry_last_config_wins (configs : list mock.MockConfig)
    (name : string) :
  let r := mock.NewRegistry configs in
  mock.mocks r !! name =
    last (filter (fun c => mock.ToolName c = name) configs) /\
  mock.GetCalls r = [] /\
  mock.counter r name = 0%nat.
Proof.
  intros r. split; [|by split].
  unfold r, mock.NewRegistry. simpl.
  induction configs as [|c configs IH] using rev_ind; [reflexivity|].
  rewrite NewRegistry_snoc, filter_app, IH.
  destruct (decide (mock.ToolName c = name)) as [Heq|Hne].
  - rewrite filter_cons_True, filter_nil by assumption. by rewrite last_snoc.
  - rewrite filter_cons_False, filter_nil by assumption.
    by rewrite app_nil_r.
Qed.

(** X3.  Register replaces the config of its tool and nothing else: the
    call log, every counter and the configs of the other tools stay as
    they were.  The counter of the tool is not reset, so the next call
    for the tool is served from the new config at the position the old
    sequence had reached. *)
Theorem Register_keeps_counter (r : mock.MockRegistry)
    (config : mock.MockConfig) (clock : trace.Time) (params : trace.Params) :
  let r' := mock.Register r config in
  let tool := mock.ToolName config in
  mock.mocks r' !! tool = Some config /\
  (forall other, other <> tool -> mock.mocks r' !! other = mock.mocks r !! other) /\
  mock.GetCalls r' = mock.GetCalls r /\
  (forall name, mock.counter r' name = mock.counter r name) /\
  (mock.Resolve r' clock tool params).1.1 =
    mock.expected config tool (mock.counter r tool).
Proof.
  intros r' tool.
  assert (Hcfg : mock.mocks r' !! tool = Some config)
    by apply lookup_insert_eq.
  split_and!; try done.
  - intros other Hne. unfold r', mock.Register. simpl.
    by rewrite lookup_insert_ne.
  - pose proof (Resolve_configured r' clock tool params config Hcfg) as Hres.
    destruct (mock.Resolve r' clock tool params) as [[res r2] clock2].
    exact (proj1 Hres).
Qed.

(** X4.  After any sequence of Resolve calls the call log is the log
    before the calls followed by one record per call that did not fail
    at a guard (no mock configured, responses exhausted), with the tool
    name and the parameters of that call, in call order: the log only
    grows, and by exactly the calls that selected a response. *)
Theorem resolveAll_call_log (reqs : list (string * trace.Params)) :
  forall (r : mock.MockRegistry) (clock : trace.Time),
  let '(ress, r', _) := mock.resolveAll r clock reqs in
  map (fun c => (mock.recToolName c, mock.recParameters c)) (mock.GetCalls r') =
    map (fun c => (mock.recToolName c, mock.recParameters c)) (mock.GetCalls r) ++
    map fst (filter (fun p => mock.recorded p.2 = true) (zip reqs ress)).
Proof.
  unfold mock.GetCalls.
  induction reqs as [|[tool params] reqs IH]; intros r clock.
  - cbn. by rewrite app_nil_r.
  - rewrite resolveAll_cons.
    pose proof (Resolve_calls r clock tool params) as Hlog.
    destruct (mock.Resolve r clock tool params) as [[res r1] clock1].
    specialize (IH r1 clock1).
    destruct (mock.resolveAll r1 clock1 reqs) as [[ress r2] clock2].
    rewrite IH, Hlog. clear IH Hlog. simpl zip.
    destruct (mock.recorded res) eqn:Hrec.
    + rewrite filter_cons_True by exact Hrec. simpl.
      by rewrite <- app_assoc.
    + rewrite filter_cons_False by (simpl; rewrite Hrec; discriminate).
      by rewrite app_nil_r.
Qed.

(** ** Composite scorer: the breakdown and the review judge *)

Section Breakdown.

Import judge.

Variable input : Input.

Lemma loopBody_scores configs : forall st,
  exists entries,
    scores (foldl (loopBody input) st configs) = scores st ++ entries /\
    Forall2 (breakdownOf input) configs entries.
Proof.
  induction configs as [|cfg configs IH]; intros st.
  - exists []. cbn. rewrite app_nil_r. split; [reflexivity|constructor].
  - rewrite foldl_step.
    destruct (IH (loopBody input st cfg)) as (entries & Hscores & Hall).
    assert (Hone : exists js, scores (loopBody input st cfg) = scores st ++ [js]
                              /\ breakdownOf input cfg js).
    { unfold loopBody, breakdownOf.
      destruct (Evaluate (Judge_ cfg) input) as [res [e|]]; simpl.
      - eexists. split; [reflexivity|]. simpl. by split_and!.
      - eexists. split; [reflexivity|]. simpl. split_and!; try reflexivity.
        unfold bool_decide. by destruct (decide_rel _ _ _). }
    destruct Hone as (js & Hjs & Hbreak).
    exists (js :: entries). split; [|by constructor].
    rewrite Hscores, Hjs. by rewrite <- app_assoc.
Qed.

(** The breakdown of the result is the list the loop built. *)
Lemma Scores_loop cs configs :
  Scores (CompositeScorer_Score cs input configs) =
  scores (foldl (loopBody input) loopInit configs).
Proof.
  unfold CompositeScorer_Score. cbv zeta.
  set (st := foldl (loopBody input) loopInit configs).
  destruct (hasError st), (hasReview st); try reflexivity.
  match goal with |- context [float64.leb ?a ?b] => by destruct (float64.leb a b) end.
Qed.

End Breakdown.

(** X5.  The result of Score keeps one entry per configured judge, in
    configuration order, under the judge's name and with the weight the
    judge was scored with (1.0 for a zero weight).  The entry of a judge
    whose invocation failed has status Error, the error message as
    reason, score 0 and pass false; the entry of any other judge copies
    the judge's pass flag, score and reason, with status Review for the
    reserved reason "review" and otherwise Pass or Fail by the flag. *)
Theorem Score_breakdown (cs : judge.CompositeScorer) (input : judge.Input)
    (configs : list judge.JudgeConfig) :
  Forall2 (judge.breakdownOf input) configs
          (judge.Scores (judge.CompositeScorer_Score cs input configs)).
Proof.
  destruct (loopBody_scores input configs judge.loopInit)
    as (entries & Hscores & Hall).
  rewrite Scores_loop, Hscores. exact Hall.
Qed.

(** X6.  A HumanReviewJudge inside a composite, whatever the other
    judges.  With the default reason (empty, or "review") it keeps the
    composite from passing, and the status is Error when some judge
    failed and Review otherwise.  With any other reason it is not
    recognised as a review request: its entry in the breakdown, at the
    position of the judge, is that of an ordinary failed judge (status
    Fail, pass false, score 0, the reason given), and the composite has
    the status Review only when no judge failed and some other judge
    asked for the review. *)
Theorem HumanReviewJudge_in_composite (cs : judge.CompositeScorer)
    (input : judge.Input) (configs : list judge.JudgeConfig)
    (reason : string) (weight : float64.t) :
  let cfg := judge.mkJudgeConfig (judge.HumanReviewJudge reason) weight in
  let res := judge.CompositeScorer_Score cs input configs in
  let anyError := existsb (judge.errored input) configs in
  judge.errored input cfg = false /\
  (reason = "" \/ reason = "review" -> cfg ∈ configs ->
     judge.flaggedReview input cfg = true /\
     judge.crPass res = false /\
     judge.crStatus res =
       (if anyError then judge.StatusError else judge.StatusReview)) /\
  (reason <> "" -> reason <> "review" ->
     judge.flaggedReview input cfg = false /\
     (forall i, configs !! i = Some cfg ->
        exists js, judge.Scores res !! i = Some js /\
          judge.jsJudgeName js = "human_review" /\
          judge.jsWeight js = judge.effectiveWeight cfg /\
          judge.jsStatus js = judge.StatusFail /\
          judge.jsPass js = false /\
          judge.jsScore js = float64.zero /\
          judge.jsReason js = reason) /\
     (judge.crStatus res = judge.StatusReview <->
        anyError = false /\
        exists other, other ∈ configs /\ other <> cfg /\
          judge.flaggedReview input other = true)).
Proof.
  intros cfg res anyError.
  destruct (Score_unfold input cs configs) as (_ & Hp & Hs & _).
  fold res anyError in Hp, Hs.
  split; [reflexivity|]. split.
  - intros Hreason Hin.
    assert (Hflag : judge.flaggedReview input cfg = true).
    { unfold judge.flaggedReview, judge.errored, cfg. simpl.
      destruct Hreason as [-> | ->]; reflexivity. }
    assert (Hany : existsb (judge.flaggedReview input) configs = true).
    { apply existsb_elem_of. by exists cfg. }
    rewrite Hany in Hp, Hs. split; [exact Hflag|].
    rewrite Hp, Hs, andb_false_r. split; reflexivity.
  - intros Hne1 Hne2.
    assert (Hflag : judge.flaggedReview input cfg = false).
    { unfold judge.flaggedReview, judge.errored, cfg. simpl.
      rewrite decide_False by assumption. simpl.
      by rewrite bool_decide_eq_false_2. }
    split; [exact Hflag|]. split.
    + intros i Hi.
      destruct (loopBody_scores input configs judge.loopInit)
        as (entries & Hscores & Hall).
      unfold res. rewrite Scores_loop, Hscores. simpl.
      destruct (Forall2_lookup_l _ _ _ _ _ Hall Hi) as (js & Hjs & HB).
      exists js. split; [exact Hjs|].
      destruct HB as (Hname & Hw & HB). unfold cfg in HB. simpl in HB.
      rewrite decide_False in HB by assumption.
      destruct HB as (Hpass & Hscore & Hreason & Hstatus).
      rewrite decide_False in Hstatus by assumption.
      by split_and!.
    + rewrite Hs. split.
      * destruct anyError; [discriminate|]. intros Hrev.
        split; [reflexivity|].
        destruct (existsb (judge.flaggedReview input) configs) eqn:Hany.
        -- apply existsb_elem_of in Hany as (other & Hin & Hother).
           exists other. split_and!; try assumption.
           intros ->. by rewrite Hflag in Hother.
        -- destruct (float64.leb _ _); discriminate.
      * intros (-> & other & Hin & _ & Hother).
        assert (Hany : existsb (judge.flaggedReview input) configs = true).
        { apply existsb_elem_of. by exists other. }
        by rewrite Hany.
Qed.

Lemma HumanReviewJudge_in_composite_witness :
  let cfg := judge.mkJudgeConfig (judge.HumanReviewJudge "") float64.one in
  judge.crStatus
    (judge.CompositeScorer_Score (judge.NewCompositeScorer float64.zero)
       examples.noInput [cfg]) = judge.StatusReview.
Proof.
  intros cfg.
  destruct (HumanReviewJudge_in_composite (judge.NewCompositeScorer float64.zero)
              examples.noInput [cfg] "" float64.one) as (_ & Hdefault & _).
  destruct (Hdefault (or_introl eq_refl) (list_elem_of_here _ _))
    as (_ & _ & Hreview).
  exact Hreview.
Defined.

(** ** Diff engine: totals, a run against itself, filters *)

Section DiffMore.

Import diff.

Lemma countCat_cons c cd cds :
  countCat c (cd :: cds) =
    ((if decide (Category_ cd = c) then 1 else 0) + countCat c cds)%nat.
Proof.
  unfold countCat. destruct (decide (Category_ cd = c)) as [Heq|Hne].
  - by rewrite filter_cons_True by assumption.
  - by rewrite filter_cons_False by assumption.
Qed.

(** Entries of the five categories are counted once each. *)
Lemma countCat_total cds :
  Forall (fun cd => Category_ cd ∈ categories) cds ->
  (countCat Improved cds + countCat Regressed cds + countCat Unchanged cds +
   countCat New cds + countCat Removed cds = length cds)%nat.
Proof.
  induction 1 as [|cd cds Hcat _ IH]; [reflexivity|].
  rewrite !countCat_cons. simpl length. rewrite <- IH. clear IH.
  unfold categories in Hcat.
  repeat (apply elem_of_cons in Hcat as [Hcat|Hcat];
          [rewrite Hcat; simpl; lia|]).
  by apply elem_of_nil in Hcat.
Qed.

Lemma categoryOf_cases t d :
  categoryOf t d = Unchanged \/ categoryOf t d = Improved \/
  categoryOf t d = Regressed.
Proof.
  unfold categoryOf.
  destruct (float64.leb _ _); [tauto|]. destruct (float64.ltb _ _); tauto.
Qed.

Lemma entryOfB_category aMap t crB cd :
  entryOfB aMap t crB cd ->
  Category_ cd ∈ categories /\
  (is_Some (aMap !! result.CaseName crB) -> Category_ cd <> New) /\
  Category_ cd <> Removed.
Proof.
  intros (_ & _ & _ & HE). unfold categories.
  destruct (aMap !! result.CaseName crB) as [crA|].
  - destruct HE as (_ & _ & _ & ->).
    destruct (categoryOf_cases t (ScoreDelta cd)) as [-> | [-> | ->]];
      split_and!; try discriminate; set_solver.
  - rewrite HE. split_and!; try discriminate; [set_solver|].
    by intros [? ?].
Qed.

Lemma Compare_runs a b t :
  RunA (Compare a b t) = result.RunID a /\
  RunB (Compare a b t) = result.RunID b.
Proof.
  unfold Compare.
  set (dr0 := {| RunA := result.RunID a; RunB := result.RunID b;
                 Cases := []; Summary_ := mkSummary 0 0 0 0 0 |}).
  destruct (foldl_compareB (indexByName (result.Results a)) t
              (result.Results b) ∅ dr0)
    as (cds & dr1 & Hfold & HA & HB & _).
  rewrite Hfold.
  set (seen := foldl _ ∅ (result.Results b)).
  destruct (foldl_compareA seen (result.Results a) dr1) as (HA' & HB' & _).
  by rewrite HA', HB', HA, HB.
Qed.

(** A non-empty filter keeps the cases of its categories. *)
Lemma Filter_nonempty dr cats :
  cats <> [] ->
  Filter dr cats =
    {| RunA := RunA dr; RunB := RunB dr;
       Cases := filter (fun cd => Category_ cd ∈ cats) (Cases dr);
       Summary_ := Summary_ dr |}.
Proof.
  intros Hne. unfold Filter.
  destruct (decide (length cats = 0%nat)) as [Hlen|_].
  { by apply length_zero_iff_nil in Hlen. }
  f_equal. rewrite foldl_append_filter. simpl.
  apply list_filter_iff. intros cd.
  rewrite catSet_lookup, lookup_empty. simpl.
  case_decide; [tauto | split; [discriminate|tauto]].
Qed.

(** The difference of a finite score with itself is zero, inside every
    band; that of another score is a NaN, outside every band. *)
Lemma categoryOf_self t x :
  float64.leb float64.zero t = true ->
  categoryOf t (float64.sub x x) =
    if float64.isFinite x then Unchanged else Regressed.
Proof.
  intros Ht. unfold categoryOf.
  assert (Hsub : float64.sub x x =
            if float64.isFinite x then float64.zero else S754_nan).
  { unfold float64.sub, float64.zero.
    destruct x as [[]|[]| |s m e]; try reflexivity. simpl.
    unfold shl_align. rewrite Z.min_id, Z.sub_diag. simpl.
    by rewrite ?Z.sub_diag. }
  rewrite Hsub. destruct (float64.isFinite x); [|reflexivity].
  change (float64.abs float64.zero) with float64.zero. by rewrite Ht.
Qed.

End DiffMore.

(** X7.  Whatever the runs and the threshold, every entry of the result
    of Compare has one of the five categories, the five summary counters
    add up to the number of entries, that number is the number of cases
    of run B plus the number of cases of run A whose name run B lacks,
    and the result carries the ids of the two runs. *)
Theorem Compare_totals (a b : result.RunSummary) (threshold : float64.t) :
  let dr := diff.Compare a b threshold in
  let s := diff.Summary_ dr in
  Forall (fun cd => diff.Category_ cd ∈ diff.categories) (diff.Cases dr) /\
  (diff.sImproved s + diff.sRegressed s + diff.sUnchanged s +
   diff.sNew s + diff.sRemoved s = length (diff.Cases dr))%nat /\
  length (diff.Cases dr) =
    (length (result.Results b) +
     length (filter (fun crA => result.CaseName crA ∉
                                  diff.names (result.Results b))
                    (result.Results a)))%nat /\
  diff.RunA dr = result.RunID a /\ diff.RunB dr = result.RunID b.
Proof.
  intros dr s.
  destruct (Compare_entries a b threshold) as (cds & Hcases & Hall & Hok).
  fold dr in Hcases, Hok.
  assert (Hcats : Forall (fun cd => diff.Category_ cd ∈ diff.categories)
                         (diff.Cases dr)).
  { rewrite Hcases. apply Forall_app. split.
    - clear Hcases. induction Hall as [|crB cd bs cds' HE _ IH];
        constructor; [|assumption].
      exact (proj1 (entryOfB_category _ _ _ _ HE)).
    - apply Forall_forall. intros cd Hin.
      apply list_elem_of_fmap in Hin as (crA & -> & _).
      unfold diff.categories. simpl. set_solver. }
  split; [exact Hcats|]. split.
  - unfold s. destruct Hok as (-> & -> & -> & -> & ->).
    by apply countCat_total.
  - split; [|apply Compare_runs].
    rewrite Hcases, length_app, length_map.
    by rewrite (Forall2_length _ _ _ Hall).
Qed.

(** X8.  Comparing a run with itself gives one entry per case and no New
    or Removed entry.  When the case names are unique and the threshold
    is >= 0, the entry of a case with a finite score is Unchanged, and
    the entry of a case whose score is a NaN or an infinity is Regressed
    (its delta is a NaN, which no band contains). *)
Theorem Compare_self (a : result.RunSummary) (threshold : float64.t) :
  let dr := diff.Compare a a threshold in
  length (diff.Cases dr) = length (result.Results a) /\
  Forall (fun cd => diff.Category_ cd <> diff.New /\
                    diff.Category_ cd <> diff.Removed) (diff.Cases dr) /\
  (float64.leb float64.zero threshold = true ->
   NoDup (diff.names (result.Results a)) ->
   forall i cr, result.Results a !! i = Some cr ->
     exists cd, diff.Cases dr !! i = Some cd /\
       diff.CaseName cd = result.CaseName cr /\
       diff.Category_ cd =
         if float64.isFinite (result.Score cr) then diff.Unchanged
         else diff.Regressed).
Proof.
  intros dr.
  destruct (Compare_entries a a threshold) as (cds & Hcases & Hall & _).
  fold dr in Hcases.
  rewrite filter_none in Hcases.
  2:{ apply Forall_forall. intros crA Hin Hnot. apply Hnot.
      unfold diff.names. by apply list_elem_of_fmap_2. }
  simpl in Hcases. rewrite app_nil_r in Hcases. rewrite Hcases.
  split; [symmetry; exact (Forall2_length _ _ _ Hall)|]. split.
  - apply Forall_forall. intros cd Hin.
    apply list_elem_of_lookup in Hin as [i Hi].
    destruct (Forall2_lookup_r _ _ _ _ _ Hall Hi) as (crB & HB & HE).
    destruct (entryOfB_category _ _ _ _ HE) as (_ & HnotNew & HnotRem).
    split; [|exact HnotRem]. apply HnotNew.
    rewrite indexByName_caseNamed.
    destruct (diff.caseNamed (result.Results a) (result.CaseName crB))
      eqn:Hnamed; [by eexists|].
    apply caseNamed_None in Hnamed. exfalso. apply Hnamed.
    unfold diff.names. apply list_elem_of_fmap_2.
    apply list_elem_of_lookup. by exists i.
  - intros Ht Hnodup i cr Hi.
    destruct (Forall2_lookup_l _ _ _ _ _ Hall Hi) as (cd & Hcd & HE).
    exists cd. split; [exact Hcd|].
    destruct HE as (Hname & _ & _ & HE). split; [exact Hname|].
    rewrite indexByName_caseNamed, (caseNamed_unique _ cr Hnodup) in HE.
    2:{ apply list_elem_of_lookup. by exists i. }
    destruct HE as (_ & _ & Hdelta & Hcat).
    rewrite Hcat, Hdelta. by apply categoryOf_self.
Qed.

Lemma Compare_self_witness :
  let a := examples.runA in
  map diff.Category_ (diff.Cases (diff.Compare a a float64.zero)) =
    [diff.Unchanged; diff.Unchanged; diff.Unchanged; diff.Unchanged] /\
  length (diff.Cases (diff.Compare a a float64.zero)) = 4%nat.
Proof.
  intros a. split; [vm_compute; reflexivity|].
  assert (Hnodup : NoDup (diff.names (result.Results a))).
  { apply (bool_decide_unpack _). vm_compute. exact I. }
  destruct (Compare_self a float64.zero) as (Hlen & _ & Hentries).
  destruct (Hentries eq_refl Hnodup 0%nat _ eq_refl) as (cd & _ & _ & _).
  exact Hlen.
Defined.

(** X9.  Filters compose and saturate: filtering twice by non-empty
    category lists keeps the cases whose category is in both lists,
    filtering twice by the same list is filtering once, and filtering
    the result of Compare by the list of all five categories keeps every
    case.  The summary counters stay those of the unfiltered result
    throughout. *)
Theorem Filter_compose (dr : diff.DiffResult) (cats1 cats2 : list diff.Category) :
  (cats1 <> [] -> cats2 <> [] ->
     diff.Cases (diff.Filter (diff.Filter dr cats1) cats2) =
       filter (fun cd => diff.Category_ cd ∈ cats2 /\
                         diff.Category_ cd ∈ cats1) (diff.Cases dr) /\
     diff.Summary_ (diff.Filter (diff.Filter dr cats1) cats2) =
       diff.Summary_ dr) /\
  diff.Filter (diff.Filter dr cats1) cats1 = diff.Filter dr cats1 /\
  (forall a b t, dr = diff.Compare a b t ->
     diff.Cases (diff.Filter dr diff.categories) = diff.Cases dr).
Proof.
  split_and!.
  - intros H1 H2. rewrite !Filter_nonempty by assumption. simpl.
    split; [|reflexivity]. apply list_filter_filter.
  - destruct cats1 as [|c cats1]; [reflexivity|].
    rewrite !Filter_nonempty by discriminate. simpl. f_equal.
    rewrite list_filter_filter. apply list_filter_iff. tauto.
  - intros a b t ->. rewrite Filter_nonempty by discriminate. simpl.
    destruct (Compare_entries a b t) as (cds & Hcases & Hall & _).
    apply filter_all. rewrite Hcases. apply Forall_app. split.
    + clear Hcases. induction Hall as [|crB cd bs cds' HE _ IH];
        constructor; [|assumption].
      exact (proj1 (entryOfB_category _ _ _ _ HE)).
    + apply Forall_forall. intros cd Hin.
      apply list_elem_of_fmap in Hin as (crA & -> & _).
      unfold diff.categories. simpl. set_solver.
Qed.

Lemma Filter_compose_witness :
  let dr := diff.Compare examples.runA examples.runB float64.zero in
  map diff.CaseName
      (diff.Cases (diff.Filter (diff.Filter dr [diff.Improved; diff.New])
                               [diff.New; diff.Removed])) = ["new-case"].
Proof.
  intros dr.
  destruct (Filter_compose dr [diff.Improved; diff.New]
              [diff.New; diff.Removed]) as [Htwice _].
  destruct (Htwice ltac:(discriminate) ltac:(discriminate)) as [-> _].
  vm_compute. reflexivity.
Defined.

(** ** The runner: how a case ends and what its trace holds *)

Section CaseLoop.

Import runner.

Context `{fmt.Quote} `{prompt.Engine} {PS : Type} `{provider.Provider PS}.

Lemma ErrorString_nonempty (e : mock.ResolveError) : mock.ErrorString e <> "".
Proof. destruct e; discriminate. Qed.

Lemma toolMessages_snoc tr now role content :
  toolMessages (trace.AddMessage tr now role content) =
    toolMessages tr ++ (if decide (role = "tool") then [content] else []).
Proof.
  unfold toolMessages. simpl. rewrite filter_app, map_app. f_equal.
  destruct (decide (role = "tool")) as [->|Hne].
  - by rewrite filter_cons_True.
  - by rewrite filter_cons_False.
Qed.

Lemma resolveToolCall_running m0 t0 (st : loopState PS) tc :
  running m0 t0 st -> running m0 t0 (resolveToolCall st tc).
Proof.
  intros (Hmodel & Hfirst & Hstart & Hledger). unfold resolveToolCall.
  destruct (mock.Resolve _ _ _ _) as [[[content mockErr] registry] clock].
  unfold running. cbn [lsModel lsTrace].
  rewrite toolMessages_snoc. simpl. split_and!; try assumption.
  - by apply lookup_app_l_Some.
  - change (toolMessages (trace.AddToolCall (lsTrace st) ?tc))
      with (toolMessages (lsTrace st)).
    rewrite map_app, Hledger. f_equal. simpl. unfold toolContent. simpl.
    destruct mockErr as [e|]; [|reflexivity].
    destruct (decide _) as [He|_]; [|reflexivity].
    by destruct (ErrorString_nonempty e).
Qed.

Lemma resolveToolCalls_running m0 t0 tcs : forall st : loopState PS,
  running m0 t0 st -> running m0 t0 (foldl resolveToolCall st tcs).
Proof.
  induction tcs as [|tc tcs IH]; intros st Hst; [exact Hst|].
  rewrite foldl_step. by apply IH, resolveToolCall_running.
Qed.

Lemma toolLoop_running caseCtx system tools m0 t0 fuel :
  forall st : loopState PS,
    running m0 t0 st ->
    lsError st = "" -> lsFinalResponse st = "" ->
    let st' := toolLoop caseCtx system tools fuel st in
    running m0 t0 st' /\ endedWell (lsError st') (lsFinalResponse st').
Proof.
  induction fuel as [|fuel IH]; intros st Hst HE HF.
  { split; [exact Hst | by left]. }
  cbv zeta. simpl.
  destruct (provider.Complete _ _ _ _) as [[[resp|err] p'] clock'].
  - destruct (provider.respToolCalls resp) as [|tc tcs] eqn:Hcalls.
    + destruct Hst as (Hmodel & Hfirst & Hstart & Hledger).
      split; [|by left]. unfold running. cbn [lsModel lsTrace].
      rewrite toolMessages_snoc. simpl.
      split_and!; try done.
      * by apply lookup_app_l_Some.
      * by rewrite app_nil_r.
    + match goal with
      | |- context [foldl resolveToolCall ?s ?l] =>
          destruct (resolveToolCalls_frame l s) as (HE' & HF' & _);
          pose proof (resolveToolCalls_running m0 t0 l s) as Hrun
      end.
      apply IH.
      * apply Hrun. destruct Hst as (Hmodel & Hfirst & Hstart & Hledger).
        unfold running. cbn [lsModel lsTrace].
        rewrite toolMessages_snoc. simpl.
        split_and!; try done.
        -- by apply lookup_app_l_Some.
        -- by rewrite app_nil_r.
      * by rewrite HE'.
      * by rewrite HF'.
  - split; [exact Hst|]. right. simpl. split; [exact HF | by exists err].
Qed.

(** The loop only appends messages to the trace, each of them an
    assistant or a tool message. *)
Lemma resolveToolCalls_dialogue tcs : forall st : loopState PS,
  exists rest,
    trace.Messages (lsTrace (foldl resolveToolCall st tcs)) =
      trace.Messages (lsTrace st) ++ rest /\
    replies rest.
Proof.
  induction tcs as [|tc tcs IH]; intros st.
  - exists []. rewrite app_nil_r. split; [reflexivity|constructor].
  - rewrite foldl_step.
    destruct (IH (resolveToolCall st tc)) as (rest & -> & Hrest).
    unfold resolveToolCall.
    destruct (mock.Resolve _ _ _ _) as [[[content mockErr] registry] clock].
    cbn [lsTrace trace.AddMessage trace.AddToolCall trace.Messages].
    eexists. rewrite <- app_assoc. split; [reflexivity|].
    apply Forall_app. split; [|exact Hrest].
    apply Forall_singleton. by right.
Qed.

Lemma toolLoop_dialogue caseCtx system tools fuel :
  forall st : loopState PS,
  exists rest,
    trace.Messages (lsTrace (toolLoop caseCtx system tools fuel st)) =
      trace.Messages (lsTrace st) ++ rest /\
    replies rest.
Proof.
  induction fuel as [|fuel IH]; intros st.
  { exists []. rewrite app_nil_r. split; [reflexivity|constructor]. }
  simpl.
  destruct (provider.Complete _ _ _ _) as [[[resp|err] p'] clock'].
  - destruct (provider.respToolCalls resp) as [|tc tcs] eqn:Hcalls.
    + eexists. cbn [lsTrace trace.AddMessage trace.AddUsage trace.Messages].
      split; [reflexivity|]. apply Forall_singleton. by left.
    + match goal with
      | |- context [foldl resolveToolCall ?s ?l] =>
          destruct (resolveToolCalls_dialogue l s) as (rest1 & Hm1 & Hr1);
          destruct (IH (foldl resolveToolCall s l)) as (rest2 & -> & Hr2)
      end.
      rewrite Hm1.
      cbn [lsTrace trace.AddMessage trace.AddUsage trace.Messages].
      eexists. rewrite <- !app_assoc. split; [reflexivity|].
      apply Forall_app. split; [apply Forall_singleton; by left|].
      apply Forall_app. by split.
  - exists []. cbn [lsTrace]. rewrite app_nil_r.
    split; [reflexivity|constructor].
Qed.

End CaseLoop.

(** X10.  How runCase ends, for every runner, case, prompt, provider and
    clock.  The result is named after the case and the prompt.  When the
    prompt does not render, the error is "interpolating prompt: " and
    the cause, there is no trace and no final response, and the provider
    is as it was.  When it renders to [rendered], there is a trace whose
    first message is the user message of [rendered], every later message
    is an assistant or a tool message, and the case has either no
    error, or the error "provider error: " and a cause together with an
    empty final response. *)
Theorem runCase_outcome `{fmt.Quote} `{prompt.Engine} {PS : Type}
    `{provider.Provider PS}
    (r : runner.Runner) (ctx : context.Context) (c : suite.EvalCase)
    (pv : prompt.PromptVariant) (p : PS) (clock : trace.Time) :
  let '(cr, p', _) := runner.runCase r ctx c pv p clock in
  runner.CaseName cr = suite.Name c /\
  runner.CaseID cr = suite.ID c /\
  runner.Prompt cr = prompt.Name pv /\
  match prompt.Interpolate pv (suite.Input c) with
  | inr err =>
      runner.Error cr = "interpolating prompt: " +:+ err /\
      runner.Trace cr = None /\ runner.FinalResponse cr = "" /\
      p' = p
  | inl rendered =>
      runner.endedWell (runner.Error cr) (runner.FinalResponse cr) /\
      exists tr first rest,
        runner.Trace cr = Some tr /\
        trace.Messages tr = first :: rest /\
        trace.Role first = "user" /\
        trace.Content first = prompt.User rendered /\
        Forall (fun m => trace.Role m = "assistant" \/ trace.Role m = "tool")
               rest
  end.
Proof.
  unfold runner.runCase. cbv zeta.
  destruct (prompt.Interpolate pv (suite.Input c)) as [rendered|err].
  2:{ split_and!; reflexivity. }
  match goal with
  | |- context [runner.toolLoop ?c0 ?s0 ?t0 ?f0 ?st0] =>
      destruct (toolLoop_running c0 s0 t0
                  (trace.mkMessage "user" (prompt.User rendered) clock)
                  clock f0 st0)
        as (_ & Hend);
      [by split_and! | reflexivity | reflexivity |];
      destruct (toolLoop_dialogue c0 s0 t0 f0 st0) as (rest & Hmsgs & Hrest);
      revert Hend Hmsgs Hrest;
      generalize (runner.toolLoop c0 s0 t0 f0 st0)
  end.
  clear. intros final Hend Hmsgs Hrest.
  split_and!; try reflexivity; try assumption.
  exists (trace.Finish (runner.lsTrace final) (runner.lsClock final)),
    (trace.mkMessage "user" (prompt.User rendered) clock), rest.
  split; [reflexivity|]. split; [exact Hmsgs|].
  split; [reflexivity|]. split; [reflexivity|]. exact Hrest.
Qed.

(** X11.  In the trace of every case result the tool-result messages and
    the tool-call ledger agree: there are as many messages of role
    "tool" as tool calls, in the same order, and the content of the
    i-th is the response of the i-th call when the call has no error,
    and "Error: " followed by its error otherwise. *)
Theorem runCase_tool_ledger `{fmt.Quote} `{prompt.Engine} {PS : Type}
    `{provider.Provider PS}
    (r : runner.Runner) (ctx : context.Context) (c : suite.EvalCase)
    (pv : prompt.PromptVariant) (p : PS) (clock : trace.Time) :
  let cr := (runner.runCase r ctx c pv p clock).1.1 in
  runner.toolMessages <$> runner.Trace cr =
    (fun tr => map runner.toolContent (trace.ToolCalls tr)) <$>
      runner.Trace cr.
Proof.
  unfold runner.runCase. cbv zeta.
  destruct (prompt.Interpolate pv (suite.Input c)) as [rendered|err];
    [|reflexivity].
  match goal with
  | |- context [runner.toolLoop ?c0 ?s0 ?t0 ?f0 ?st0] =>
      destruct (toolLoop_running c0 s0 t0
                  (trace.mkMessage "user" (prompt.User rendered) clock)
                  clock f0 st0)
        as ((_ & _ & _ & Hledger) & _);
      [by split_and! | reflexivity | reflexivity |];
      revert Hledger; generalize (runner.toolLoop c0 s0 t0 f0 st0)
  end.
  clear. intros final Hledger.
  cbn [fst snd runner.Trace fmap option_fmap option_map].
  f_equal. exact Hledger.
Qed.

(** ** The runner against a scripted provider *)

Section Scripted.

Import runner evaltest.

Context `{fmt.Quote} `{prompt.Engine}.

Lemma resolveToolCalls_provider {PS : Type} tcs : forall st : loopState PS,
  let st' := foldl resolveToolCall st tcs in
  lsProvider st' = lsProvider st /\
  map trace.ToolName (trace.ToolCalls (lsTrace st')) =
    map trace.ToolName (trace.ToolCalls (lsTrace st)) ++
    map provider.Name tcs /\
  trace.Usage (lsTrace st') = trace.Usage (lsTrace st).
Proof.
  induction tcs as [|tc tcs IH]; intros st.
  - cbn. by rewrite app_nil_r.
  - cbv zeta. rewrite foldl_step.
    destruct (IH (resolveToolCall st tc)) as (HP & HN & HU).
    rewrite HP, HN, HU. clear IH HP HN HU.
    unfold resolveToolCall.
    destruct (mock.Resolve _ _ _ _) as [[[content mockErr] registry] clock].
    simpl. rewrite map_app, <- app_assoc. by split_and!.
Qed.

(** The loop consumes a script of turns that ask for tools, one provider
    call and one iteration per turn. *)
Lemma toolLoop_script caseCtx system tools steps :
  forall fuel (st : loopState MockProvider) rest,
    Forall requestsTools steps ->
    drop (idx (lsProvider st)) (responses (lsProvider st)) = steps ++ rest ->
    exists st',
      toolLoop caseCtx system tools (length steps + fuel) st =
        toolLoop caseCtx system tools fuel st' /\
      lsError st' = lsError st /\
      lsFinalResponse st' = lsFinalResponse st /\
      responses (lsProvider st') = responses (lsProvider st) /\
      idx (lsProvider st') = (idx (lsProvider st) + length steps)%nat /\
      map trace.ToolName (trace.ToolCalls (lsTrace st')) =
        map trace.ToolName (trace.ToolCalls (lsTrace st)) ++
        requested steps /\
      trace.Usage (lsTrace st') =
        trace.Usage (trace.addUsages (lsTrace st) (map usageOf steps)).
Proof.
  induction steps as [|resp steps IH]; intros fuel st rest Hall Hdrop.
  - exists st. unfold requested. simpl. rewrite app_nil_r.
    split_and!; try reflexivity. lia.
  - apply Forall_cons in Hall as [Hresp Hall].
    assert (Hnext : responses (lsProvider st) !! idx (lsProvider st) =
                    Some resp).
    { rewrite <- (Nat.add_0_r (idx _)), <- lookup_drop, Hdrop. reflexivity. }
    assert (Hdrop' : drop (S (idx (lsProvider st)))
                       (responses (lsProvider st)) = steps ++ rest).
    { rewrite (drop_S _ _ _ Hnext) in Hdrop. by injection Hdrop. }
    change (length (resp :: steps) + fuel)%nat
      with (S (length steps + fuel)).
    simpl toolLoop. rewrite Hnext.
    unfold requestsTools in Hresp.
    destruct (provider.respToolCalls resp) as [|tc tcs] eqn:Hcalls; [done|].
    match goal with
    | |- context [foldl resolveToolCall ?s ?l] =>
        destruct (resolveToolCalls_frame l s) as (HE & HF & _);
        destruct (resolveToolCalls_provider l s) as (HP & HN & HU);
        set (st1 := foldl resolveToolCall s l) in *
    end.
    destruct (IH fuel st1 rest Hall) as (st' & Hloop & HE' & HF' & HR' & HI' & HN' & HU').
    { rewrite HP. exact Hdrop'. }
    exists st'. split; [exact Hloop|].
    rewrite HE', HF', HR', HI', HN', HU', HE, HF, HP, HN.
    cbn [lsError lsFinalResponse lsProvider lsTrace responses idx].
    split_and!; try reflexivity.
    + simpl. lia.
    + unfold requested. simpl. rewrite Hcalls, map_app, <- app_assoc.
      reflexivity.
    + simpl map. unfold trace.addUsages at 2. rewrite foldl_step.
      fold (trace.addUsages
              (trace.AddUsage (lsTrace st) (usageOf resp).1 (usageOf resp).2)
              (map usageOf steps)).
      apply addUsages_usage_ext. rewrite HU. reflexivity.
Qed.

(** After such a script, a response without tool calls ends the loop
    with that response. *)
Lemma toolLoop_answer caseCtx system tools steps final rest fuel
    (st : loopState MockProvider) :
  Forall requestsTools steps ->
  provider.respToolCalls final = [] ->
  drop (idx (lsProvider st)) (responses (lsProvider st)) =
    steps ++ final :: rest ->
  let st' := toolLoop caseCtx system tools (length steps + S fuel) st in
  lsError st' = lsError st /\
  lsFinalResponse st' = provider.respContent final /\
  idx (lsProvider st') = (idx (lsProvider st) + S (length steps))%nat /\
  map trace.ToolName (trace.ToolCalls (lsTrace st')) =
    map trace.ToolName (trace.ToolCalls (lsTrace st)) ++ requested steps /\
  trace.Usage (lsTrace st') =
    trace.Usage (trace.addUsages (lsTrace st)
                   (map usageOf (steps ++ [final]))).
Proof.
  intros Hall Hfinal Hdrop. cbv zeta.
  destruct (toolLoop_script caseCtx system tools steps (S fuel) st
              (final :: rest) Hall Hdrop)
    as (st1 & -> & HE & HF & HR & HI & HN & HU).
  assert (Hnext : responses (lsProvider st1) !! idx (lsProvider st1) =
                  Some final).
  { rewrite HR, HI, <- lookup_drop, Hdrop. by apply list_lookup_middle. }
  simpl toolLoop. rewrite Hnext, Hfinal.
  cbn [lsError lsFinalResponse lsProvider lsTrace idx trace.ToolCalls
       trace.AddMessage trace.AddUsage].
  rewrite HE, HI, HN. split_and!; try reflexivity; [lia|].
  rewrite map_app. unfold trace.addUsages in *. rewrite foldl_app.
  simpl. rewrite HU. reflexivity.
Qed.

(** When the script ends before the cap, the next provider call fails
    and ends the loop. *)
Lemma toolLoop_runs_out caseCtx system tools steps fuel
    (st : loopState MockProvider) :
  Forall requestsTools steps ->
  drop (idx (lsProvider st)) (responses (lsProvider st)) = steps ->
  let st' := toolLoop caseCtx system tools (length steps + S fuel) st in
  let n := (idx (lsProvider st) + length steps)%nat in
  lsError st' =
    "provider error: mock provider: no more responses (consumed " +:+
    pretty n +:+ "/" +:+ pretty (length (responses (lsProvider st))) +:+
    ")" /\
  lsFinalResponse st' = lsFinalResponse st /\
  idx (lsProvider st') = n.
Proof.
  intros Hall Hdrop. cbv zeta.
  assert (Hdrop' : drop (idx (lsProvider st)) (responses (lsProvider st)) =
                   steps ++ []) by by rewrite app_nil_r.
  destruct (toolLoop_script caseCtx system tools steps (S fuel) st
              [] Hall Hdrop')
    as (st1 & -> & HE & HF & HR & HI & HN & HU).
  assert (Hnext : responses (lsProvider st1) !! idx (lsProvider st1) = None).
  { apply lookup_ge_None. rewrite HR, HI.
    apply (f_equal length) in Hdrop. rewrite length_drop in Hdrop. lia. }
  simpl toolLoop. rewrite Hnext.
  cbn [lsError lsFinalResponse lsProvider idx].
  rewrite HR, HI, HF. by split_and!.
Qed.

End Scripted.

(** X12.  A case against the scripted provider of package evaltest.
    When the prompt renders and the script is fewer than 20 turns that
    ask for tools followed by a response that asks for none, runCase
    returns that response as the final response without an error, has
    called the provider once per turn and once more, leaves the rest of
    the script unread, records in its trace one tool call per request
    of the turns, in order, and the usage of the trace is the one
    accumulated by AddUsage over the responses read. *)
Theorem runCase_scripted `{fmt.Quote} `{prompt.Engine}
    (r : runner.Runner) (ctx : context.Context) (c : suite.EvalCase)
    (pv rendered : prompt.PromptVariant) (clock : trace.Time)
    (steps rest : list provider.Response) (final : provider.Response) :
  prompt.Interpolate pv (suite.Input c) = inl rendered ->
  Forall evaltest.requestsTools steps ->
  provider.respToolCalls final = [] ->
  (length steps < runner.MaxToolLoopIterations)%nat ->
  let res := runner.runCase r ctx c pv
               (evaltest.NewMockProvider (steps ++ final :: rest)) clock in
  let cr := res.1.1 in
  runner.Error cr = "" /\
  runner.FinalResponse cr = provider.respContent final /\
  evaltest.idx res.1.2 = S (length steps) /\
  (fun tr => map trace.ToolName (trace.ToolCalls tr)) <$> runner.Trace cr =
    Some (evaltest.requested steps) /\
  trace.Usage <$> runner.Trace cr =
    Some (trace.Usage (trace.addUsages (trace.New clock)
                         (map evaltest.usageOf (steps ++ [final])))).
Proof.
  intros Hrender Hall Hfinal Hlt. unfold runner.runCase. rewrite Hrender.
  cbv zeta.
  replace runner.MaxToolLoopIterations
    with (length steps + S (19 - length steps))%nat
    by (unfold runner.MaxToolLoopIterations in *; lia).
  match goal with
  | |- context [runner.toolLoop ?c0 ?s0 ?t0 (_ + S ?f0)%nat ?st0] =>
      destruct (toolLoop_answer c0 s0 t0 steps final rest f0 st0 Hall Hfinal
                  eq_refl)
        as (HE & HF & HI & HN & HU);
      revert HE HF HI HN HU;
      generalize (runner.toolLoop c0 s0 t0 (length steps + S f0) st0)
  end.
  clear. intros st HE HF HI HN HU.
  cbn [fst snd runner.Error runner.FinalResponse runner.Trace fmap
       option_fmap option_map].
  split_and!; try assumption.
  - f_equal. exact HN.
  - f_equal. cbn [trace.Finish trace.Usage]. rewrite HU.
    by apply addUsages_usage_ext.
Qed.

Lemma runCase_scripted_witness :
  let res :=
    @runner.runCase examples.plainQuote examples.literalEngine _ _
      (runner.New (runner.mkConfig 1 0)) context.Background
      examples.loopCase examples.loopPrompt
      (evaltest.NewMockProvider
         [examples.toolTurn; examples.toolTurn; examples.answer;
          examples.toolTurn]) 0 in
  runner.FinalResponse res.1.1 = "done" /\ evaltest.idx res.1.2 = 3%nat.
Proof.
  destruct (@runCase_scripted examples.plainQuote examples.literalEngine
              (runner.New (runner.mkConfig 1 0)) context.Background
              examples.loopCase examples.loopPrompt examples.loopPrompt 0
              [examples.toolTurn; examples.toolTurn] [examples.toolTurn]
              examples.answer)
    as (_ & HF & HI & _).
  - reflexivity.
  - repeat constructor; discriminate.
  - reflexivity.
  - unfold runner.MaxToolLoopIterations. simpl. lia.
  - split; [exact HF | exact HI].
Defined.

(** X13.  When the prompt renders and every response of the script asks
    for tools, runCase returns no final response.  With fewer than 20
    responses the call after the last one fails and the error of the
    case is "provider error: mock provider: no more responses (consumed
    n/n)", n being the length of the script; with 20 or more the loop
    stops at the cap after exactly 20 provider calls and the case has no
    error. *)
Theorem runCase_script_runs_out `{fmt.Quote} `{prompt.Engine}
    (r : runner.Runner) (ctx : context.Context) (c : suite.EvalCase)
    (pv rendered : prompt.PromptVariant) (clock : trace.Time)
    (steps : list provider.Response) :
  prompt.Interpolate pv (suite.Input c) = inl rendered ->
  Forall evaltest.requestsTools steps ->
  let res := runner.runCase r ctx c pv (evaltest.NewMockProvider steps)
               clock in
  let cr := res.1.1 in
  let n := length steps in
  runner.FinalResponse cr = "" /\
  if decide (n < runner.MaxToolLoopIterations)%nat
  then runner.Error cr =
         "provider error: mock provider: no more responses (consumed " +:+
         pretty n +:+ "/" +:+ pretty n +:+ ")" /\
       evaltest.idx res.1.2 = n
  else runner.Error cr = "" /\
       evaltest.idx res.1.2 = runner.MaxToolLoopIterations.
Proof.
  intros Hrender Hall. unfold runner.runCase. rewrite Hrender. cbv zeta.
  destruct (decide _) as [Hlt|Hge].
  - replace runner.MaxToolLoopIterations
      with (length steps + S (19 - length steps))%nat
      by (unfold runner.MaxToolLoopIterations in *; lia).
    match goal with
    | |- context [runner.toolLoop ?c0 ?s0 ?t0 (_ + S ?f0)%nat ?st0] =>
        destruct (toolLoop_runs_out c0 s0 t0 steps f0 st0 Hall eq_refl)
          as (HE & HF & HI);
        revert HE HF HI;
        generalize (runner.toolLoop c0 s0 t0 (length steps + S f0) st0)
    end.
    clear. intros st HE HF HI.
    cbn [fst snd runner.Error runner.FinalResponse].
    by split_and!.
  - assert (Hlen : length (take 20 steps) = 20%nat).
    { rewrite length_take. unfold runner.MaxToolLoopIterations in Hge. lia. }
    replace runner.MaxToolLoopIterations
      with (length (take 20 steps) + 0)%nat
      by (rewrite Hlen; reflexivity).
    match goal with
    | |- context [runner.toolLoop ?c0 ?s0 ?t0 _ ?st0] =>
        destruct (toolLoop_script c0 s0 t0 (take 20 steps) 0 st0
                    (drop 20 steps))
          as (st & -> & HE & HF & _ & HI & _)
    end.
    { by apply Forall_take. }
    { simpl. by rewrite take_drop. }
    revert HE HF HI. rewrite Hlen. generalize st. clear.
    intros st HE HF HI.
    change (runner.toolLoop _ _ _ 0 st) with st.
    cbn [fst snd runner.Error runner.FinalResponse].
    by split_and!.
Qed.

Lemma runCase_script_runs_out_witness :
  let res :=
    @runner.runCase examples.plainQuote examples.literalEngine _ _
      (runner.New (runner.mkConfig 1 0)) context.Background
      examples.loopCase examples.loopPrompt
      (evaltest.NewMockProvider [examples.toolTurn; examples.toolTurn]) 0 in
  runner.FinalResponse res.1.1 = "" /\
  runner.Error res.1.1 =
    "provider error: mock provider: no more responses (consumed 2/2)".
Proof.
  destruct (@runCase_script_runs_out examples.plainQuote
              examples.literalEngine
              (runner.New (runner.mkConfig 1 0)) context.Background
              examples.loopCase examples.loopPrompt examples.loopPrompt 0
              [examples.toolTurn; examples.toolTurn])
    as (HF & HE).
  - reflexivity.
  - repeat constructor; discriminate.
  - split; [exact HF|]. exact (proj1 HE).
Defined.

(** ** Run: progress, termination and the progress callback *)

Section RunMore.

Import runner.

Context `{fmt.Quote} `{prompt.Engine}.
Variables (r : Runner) (ctx : context.Context) (s : suite.EvalSuite)
  (pv : prompt.PromptVariant) (progress : bool) (start : trace.Time).

Abbreviation step := (step r ctx s pv progress start).
Abbreviation exec := (exec r ctx s pv progress start).
Abbreviation invariant := (invariant r ctx s pv).
Abbreviation capacity := (capacity r).

Ltac step_cases Hstep :=
  unfold runner.step in Hstep;
  repeat match type of Hstep with
         | context [match ?l !! ?i with _ => _ end] =>
             destruct (l !! i) as [?|] eqn:?
         | context [match ?g with _ => _ end] =>
             match type of g with
             | runner.goroutine => destruct g
             end
         | context [decide (?a < ?b)%nat] => destruct (decide (a < b)%nat)
         end;
  try discriminate; injection Hstep as <-.

Lemma sum_insert (f : goroutine -> nat) gs : forall i g g',
  gs !! i = Some g ->
  (sum_list (map f (<[i := g']> gs)) + f g =
   sum_list (map f gs) + f g')%nat.
Proof.
  induction gs as [|g0 gs IH]; intros i g g' Hi; [done|].
  destruct i as [|i]; simpl in Hi.
  - injection Hi as ->. simpl. lia.
  - specialize (IH i g g' Hi). simpl. lia.
Qed.

Lemma sum_snoc (f : goroutine -> nat) gs g :
  sum_list (map f (gs ++ [g])) = (sum_list (map f gs) + f g)%nat.
Proof. induction gs as [|g0 gs IH]; simpl; lia. Qed.

(** Every step takes one unit of the work left. *)
Lemma step_work a st st' :
  (length (gos st) <= length (suite.Cases s))%nat ->
  step a st = Some st' ->
  (workLeft s st' + 1 = workLeft s st)%nat.
Proof.
  intros Hlen Hstep.
  destruct a as [|i|i p clock|i|i clock|i|i]; step_cases Hstep;
    unfold workLeft, setGo; cbn [gos];
    rewrite ?length_insert, ?length_app, ?sum_snoc; simpl;
    try lia;
    match goal with
    | Hi : gos st !! ?i = Some ?g |- context [<[?i := ?g']> (gos st)] =>
        pose proof (sum_insert stepsLeft (gos st) i g g' Hi) as Hsum;
        simpl in Hsum; lia
    end.
Qed.

Lemma exec_work sched : forall st st',
  invariant st -> exec sched st = Some st' ->
  (length sched + workLeft s st' = workLeft s st)%nat.
Proof.
  induction sched as [|a sched IH]; intros st st' Hinv Hexec.
  - by injection Hexec as <-.
  - rewrite exec_cons in Hexec.
    destruct (step a st) as [st1|] eqn:Hstep; [|discriminate].
    pose proof (step_work a st st1 (proj1 Hinv) Hstep).
    pose proof (IH st1 st' (step_invariant r ctx s pv progress start
                              a st st1 Hinv Hstep) Hexec).
    simpl. lia.
Qed.

Lemma sum_zero_finished gs :
  sum_list (map stepsLeft gs) = 0%nat <-> forallb isFinished gs = true.
Proof.
  induction gs as [|g gs IH]; [done|]. simpl.
  rewrite andb_true_iff, <- IH. destruct g; simpl; split; try lia.
  all: by intros [? ?].
Qed.

Lemma finished_work st :
  (length (gos st) <= length (suite.Cases s))%nat ->
  finished s st = true <-> workLeft s st = 0%nat.
Proof.
  intros Hlen. unfold finished, workLeft.
  rewrite andb_true_iff, bool_decide_eq_true, <- sum_zero_finished. lia.
Qed.

Lemma holding_none gs :
  Forall (fun g => inFlight g = false) gs ->
  length (filter holding gs) = 0%nat.
Proof.
  induction 1 as [|g gs Hg _ IH]; [done|].
  rewrite active_cons, IH. by destruct g.
Qed.

(** While [Run] has not finished and the semaphore has room for one,
    some step is enabled. *)
Lemma step_enabled (p : providerView) (clock : trace.Time) st :
  invariant st -> (0 < capacity)%nat -> finished s st = false ->
  exists a st', step a st = Some st'.
Proof.
  intros (Hgos & _ & Hsem & _ & _ & _) Hcap Hfin.
  destruct (decide (Exists (fun g => inFlight g = true) (gos st)))
    as [Hex|Hnone].
  - apply Exists_exists in Hex as (g & Hin & Hg).
    apply list_elem_of_lookup in Hin as [i Hi].
    assert (Hec : is_Some (suite.Cases s !! i)).
    { apply lookup_lt_is_Some. apply lookup_lt_Some in Hi. lia. }
    destruct Hec as [ec Hec].
    destruct g as [| |cr|cr current|cr|cr|cr]; try discriminate.
    + exists (RunCase i p clock). unfold runner.step. rewrite Hi, Hec.
      by eexists.
    + exists (Store i). unfold runner.step. rewrite Hi. by eexists.
    + exists (Report i clock). unfold runner.step. rewrite Hi, Hec.
      by eexists.
    + exists (Release i). unfold runner.step. rewrite Hi. by eexists.
    + exists (Done i). unfold runner.step. rewrite Hi. by eexists.
  - apply not_Exists_Forall in Hnone; [|intros g; apply _].
    assert (Hidle : Forall (fun g => inFlight g = false) (gos st)).
    { eapply Forall_impl; [exact Hnone|]. intros g Hg. simpl in Hg.
      by destruct (inFlight g). }
    destruct (decide (Exists (fun g => stepsLeft g = 6%nat) (gos st)))
      as [Hsp|Hnosp].
    + apply Exists_exists in Hsp as (g & Hin & Hg).
      destruct g; try discriminate.
      apply list_elem_of_lookup in Hin as [i Hi].
      exists (Acquire i). unfold runner.step. rewrite Hi.
      unfold active in Hsem. rewrite (holding_none _ Hidle) in Hsem.
      destruct (decide (sem st < capacity)%nat); [by eexists | lia].
    + apply not_Exists_Forall in Hnosp; [|intros g; apply _].
      assert (Hall : forallb isFinished (gos st) = true).
      { apply forallb_forall. intros g Hin. apply list_elem_of_In in Hin.
        rewrite Forall_forall in Hidle, Hnosp.
        specialize (Hidle g Hin). specialize (Hnosp g Hin). simpl in Hnosp.
        by destruct g. }
      exists Spawn. unfold runner.step, finished in *.
      rewrite Hall, andb_true_r in Hfin.
      apply bool_decide_eq_false in Hfin.
      destruct (decide (length (gos st) < length (suite.Cases s))%nat);
        [by eexists | lia].
Qed.

(** Every state the invariant holds in can be taken to the end. *)
Lemma exec_completes (p : providerView) (clock : trace.Time) n :
  forall st, invariant st -> (0 < capacity)%nat -> workLeft s st = n ->
    exists sched st', exec sched st = Some st' /\ finished s st' = true.
Proof.
  induction n as [|n IH]; intros st Hinv Hcap Hwork.
  - exists [], st. split; [reflexivity|].
    by apply finished_work; [apply Hinv|].
  - destruct (finished s st) eqn:Hfin.
    { apply finished_work in Hfin; [lia | apply Hinv]. }
    destruct (step_enabled p clock st Hinv Hcap Hfin) as (a & st1 & Hstep).
    pose proof (step_work a st st1 (proj1 Hinv) Hstep).
    destruct (IH st1) as (sched & st' & Hexec & Hdone); try assumption.
    { exact (step_invariant r ctx s pv progress start a st st1 Hinv Hstep). }
    { lia. }
    exists (a :: sched), st'. rewrite exec_cons, Hstep. by split.
Qed.

(** With a semaphore without room no goroutine gets past the send. *)
Lemma step_blocked a st st' :
  capacity = 0%nat ->
  Forall (fun g => stepsLeft g = 6%nat) (gos st) ->
  step a st = Some st' ->
  Forall (fun g => stepsLeft g = 6%nat) (gos st').
Proof.
  intros Hcap Hall Hstep.
  assert (Hat : forall i g, gos st !! i = Some g -> stepsLeft g = 6%nat).
  { intros i g Hi. rewrite Forall_lookup in Hall. by apply (Hall i). }
  destruct a as [|i|i p clock|i|i clock|i|i]; step_cases Hstep;
    try match goal with
        | Hi : gos st !! _ = Some _ |- _ => by apply Hat in Hi
        end.
  - cbn [gos]. apply Forall_app. split; [assumption|]. by constructor.
  - lia.
Qed.

Lemma exec_blocked sched : forall st st',
  capacity = 0%nat ->
  Forall (fun g => stepsLeft g = 6%nat) (gos st) ->
  exec sched st = Some st' ->
  Forall (fun g => stepsLeft g = 6%nat) (gos st').
Proof.
  induction sched as [|a sched IH]; intros st st' Hcap Hall Hexec.
  - by injection Hexec as <-.
  - rewrite exec_cons in Hexec.
    destruct (step a st) as [st1|] eqn:Hstep; [|discriminate].
    exact (IH st1 st' Hcap (step_blocked a st st1 Hcap Hall Hstep) Hexec).
Qed.

End RunMore.

(** X14.  Run cannot get stuck and always terminates.  For a runner made
    by New, in every state an execution of Run reaches: the steps taken
    so far and the steps left add up to seven per case; Run has
    finished exactly when no step is left; while it has not finished
    some step is enabled; and the execution can be continued to one in
    which every goroutine has finished. *)
Theorem Run_never_stuck `{fmt.Quote} `{prompt.Engine}
    (cfg0 : runner.Config) (ctx : context.Context) (s : suite.EvalSuite)
    (pv : prompt.PromptVariant) (progress : bool) (start : trace.Time)
    (sched : list runner.action) (st : runner.runState) :
  let r := runner.New cfg0 in
  runner.exec r ctx s pv progress start sched (runner.initState s) = Some st ->
  (length sched + runner.workLeft s st = 7 * length (suite.Cases s))%nat /\
  (runner.finished s st = true <-> runner.workLeft s st = 0%nat) /\
  (runner.finished s st = false ->
   exists a st', runner.step r ctx s pv progress start a st = Some st') /\
  exists sched' st',
    runner.exec r ctx s pv progress start (sched ++ sched')
      (runner.initState s) = Some st' /\
    runner.finished s st' = true.
Proof.
  intros r Hexec.
  pose proof (init_invariant r ctx s pv) as Hinit.
  pose proof (exec_invariant r ctx s pv progress start sched _ _ Hinit Hexec)
    as Hinv.
  assert (Hcap : (0 < runner.capacity r)%nat).
  { unfold runner.capacity, r, runner.New. simpl.
    destruct (runner.Concurrency cfg0 <? 1) eqn:Hlt; lia. }
  split_and!.
  - rewrite (exec_work r ctx s pv progress start sched _ _ Hinit Hexec).
    unfold runner.workLeft, runner.initState. simpl. lia.
  - apply finished_work, Hinv.
  - by apply (step_enabled r ctx s pv progress start examples.errorView 0).
  - destruct (exec_completes r ctx s pv progress start examples.errorView 0
                _ st Hinv Hcap eq_refl) as (sched' & st' & Hexec' & Hdone).
    exists sched', st'. split; [|exact Hdone].
    by rewrite exec_app, Hexec.
Qed.

Lemma Run_never_stuck_witness :
  match
    @runner.exec examples.plainQuote examples.literalEngine
      (runner.New (runner.mkConfig 0 0)) context.Background
      examples.twoCases examples.loopPrompt true 0
      [runner.Spawn; runner.Spawn; runner.Acquire 1;
       runner.RunCase 1 examples.errorView 3]
      (runner.initState examples.twoCases)
  with
  | Some st => runner.workLeft examples.twoCases st = 10%nat
  | None => False
  end.
Proof.
  destruct (runner.exec _ _ _ _ _ _ _ _) as [st|] eqn:Hexec.
  - pose proof (proj1 (@Run_never_stuck examples.plainQuote
                         examples.literalEngine _ _ _ _ _ _ _ _ Hexec))
      as Hwork.
    simpl in Hwork. lia.
  - vm_compute in Hexec. discriminate.
Defined.

(** X15.  A Runner whose concurrency is 0, such as the zero value of the
    type, which New never returns, makes the semaphore an unbuffered
    channel that only the goroutine that has sent on it would receive
    from: on a suite with at least one case no execution of Run reaches
    the end, whatever the schedule. *)
Theorem Run_blocks_without_capacity `{fmt.Quote} `{prompt.Engine}
    (r : runner.Runner) (ctx : context.Context) (s : suite.EvalSuite)
    (pv : prompt.PromptVariant) (progress : bool) (start : trace.Time)
    (sched : list runner.action) (stop : trace.Time) :
  runner.Concurrency (runner.cfg r) = 0 ->
  suite.Cases s <> [] ->
  runner.Run r ctx s pv progress start sched stop = None.
Proof.
  intros Hzero Hcases. unfold runner.Run.
  destruct (runner.exec _ _ _ _ _ _ sched _) as [st|] eqn:Hexec;
    [|reflexivity].
  destruct (runner.finished s st) eqn:Hfin; [|reflexivity]. exfalso.
  assert (Hcap : runner.capacity r = 0%nat).
  { unfold runner.capacity. by rewrite Hzero. }
  pose proof (exec_blocked r ctx s pv progress start sched
                (runner.initState s) st Hcap (Forall_nil_2 _) Hexec)
    as Hall.
  unfold runner.finished in Hfin.
  apply andb_true_iff in Hfin as [Hlen Hdone].
  apply bool_decide_eq_true in Hlen.
  destruct (runner.gos st) as [|g gs].
  - destruct (suite.Cases s); [done | discriminate].
  - apply Forall_cons in Hall as [Hg _]. simpl in Hdone.
    by destruct g.
Qed.

Lemma Run_blocks_without_capacity_witness :
  @runner.Run examples.plainQuote examples.literalEngine
    (runner.mkRunner (runner.mkConfig 0 0)) context.Background
    examples.twoCases examples.loopPrompt true 0
    examples.secondFinishesFirst 7 = None.
Proof.
  apply Run_blocks_without_capacity; [reflexivity | discriminate].
Defined.

(** ** Run: the calls of the progress callback *)

Section Callbacks.

Import runner.

Context `{fmt.Quote} `{prompt.Engine}.
Variables (r : Runner) (ctx : context.Context) (s : suite.EvalSuite)
  (pv : prompt.PromptVariant) (start : trace.Time).

Abbreviation step := (step r ctx s pv true start).
Abbreviation exec := (exec r ctx s pv true start).

Ltac step_cases Hstep :=
  unfold runner.step in Hstep;
  repeat match type of Hstep with
         | context [match ?l !! ?i with _ => _ end] =>
             destruct (l !! i) as [?|] eqn:?
         | context [match ?g with _ => _ end] =>
             match type of g with
             | runner.goroutine => destruct g
             end
         | context [decide (?a < ?b)%nat] => destruct (decide (a < b)%nat)
         end;
  try discriminate; injection Hstep as <-.

Lemma pending_cons g gs :
  omap pendingIndex (g :: gs) =
    option_list (pendingIndex g) ++ omap pendingIndex gs.
Proof. change (g :: gs) with ([g] ++ gs). rewrite omap_app. simpl.
  by destruct (pendingIndex g). Qed.

Lemma pending_insert gs : forall i g g',
  gs !! i = Some g ->
  omap pendingIndex (<[i := g']> gs) ++ option_list (pendingIndex g) ≡ₚ
  omap pendingIndex gs ++ option_list (pendingIndex g').
Proof.
  induction gs as [|g0 gs IH]; intros i g g' Hi; [done|].
  destruct i as [|i]; simpl in Hi.
  - injection Hi as ->. cbn [insert list_insert]. rewrite !pending_cons.
    rewrite (Permutation_app_comm (option_list (pendingIndex g'))
               (omap pendingIndex gs)).
    rewrite (Permutation_app_comm (option_list (pendingIndex g))
               (omap pendingIndex gs)).
    rewrite <- !app_assoc. apply Permutation_app_head, Permutation_app_comm.
  - specialize (IH i g g' Hi). cbn [insert list_insert].
    rewrite !pending_cons, <- !app_assoc. by apply Permutation_app_head.
Qed.

Lemma pending_same gs i g g' :
  gs !! i = Some g ->
  pendingIndex g = None -> pendingIndex g' = None ->
  omap pendingIndex (<[i := g']> gs) ≡ₚ omap pendingIndex gs.
Proof.
  intros Hi Hg Hg'. pose proof (pending_insert gs i g g' Hi) as Hperm.
  by rewrite Hg, Hg', !app_nil_r in Hperm.
Qed.

Lemma count_insert (f : goroutine -> bool) gs : forall i g g',
  gs !! i = Some g ->
  (length (filter f (<[i := g']> gs)) + (if f g then 1 else 0) =
   length (filter f gs) + (if f g' then 1 else 0))%nat.
Proof.
  assert (Hcons : forall g gs,
            length (filter f (g :: gs)) =
            ((if f g then 1 else 0) + length (filter f gs))%nat).
  { intros g gs'. destruct (f g) eqn:Hg.
    - rewrite filter_cons_True by (rewrite Hg; exact I). reflexivity.
    - rewrite filter_cons_False by (rewrite Hg; exact id). reflexivity. }
  induction gs as [|g0 gs IH]; intros i g g' Hi; [done|].
  destruct i as [|i]; simpl in Hi.
  - injection Hi as ->. simpl. rewrite !Hcons. lia.
  - specialize (IH i g g' Hi). simpl. rewrite !Hcons. lia.
Qed.

Lemma count_snoc (f : goroutine -> bool) gs g :
  length (filter f (gs ++ [g])) =
  (length (filter f gs) + if f g then 1 else 0)%nat.
Proof.
  rewrite filter_app, length_app. f_equal.
  destruct (f g) eqn:Hg.
  - rewrite filter_cons_True by (rewrite Hg; exact I). reflexivity.
  - rewrite filter_cons_False by (rewrite Hg; exact id). reflexivity.
Qed.

(** Every step keeps what holds of the callback. *)
Lemma step_callbacks a st st' :
  callbackInvariant s st -> step a st = Some st' -> callbackInvariant s st'.
Proof.
  intros (k & Hk & Hperm & Hlen & Htot) Hstep.
  unfold reportedIndices, pendingIndices in Hperm.
  destruct a as [|i|i p clock|i|i clock|i|i]; step_cases Hstep;
    unfold callbackInvariant, reportedIndices, pendingIndices, setGo;
    cbn [gos completed progressCalls];
    try match goal with
        | Hi : gos st !! ?i = Some ?g |- context [<[?i := ?g']> (gos st)] =>
            pose proof (count_insert pastReport (gos st) i g g' Hi) as Hcnt;
            pose proof (pending_insert (gos st) i g g' Hi) as Hpend;
            simpl in Hcnt, Hpend; rewrite ?app_nil_r in Hpend
        end.
  - (* Spawn *)
    exists k. rewrite omap_app, count_snoc. simpl. rewrite app_nil_r.
    split_and!; try assumption. lia.
  - (* Acquire *)
    exists k. rewrite Hpend. split_and!; try assumption. lia.
  - (* RunCase *)
    exists k. rewrite Hpend. split_and!; try assumption. lia.
  - (* Store *)
    exists (S k). split_and!; try assumption; try lia.
    rewrite Hpend, app_assoc, Hperm, seq_S, fmap_app. simpl.
    by rewrite Hk, Z.add_simpl_r.
  - (* Report *)
    exists k. rewrite map_app, length_app. simpl.
    split_and!; try assumption; try lia.
    + rewrite <- Hperm, <- Hpend, <- app_assoc.
      apply Permutation_app_head, Permutation_app_comm.
    + apply Forall_app. split; [assumption|]. by repeat constructor.
  - (* Release *)
    exists k. rewrite Hpend. split_and!; try assumption. lia.
  - (* Done *)
    exists k. rewrite Hpend. split_and!; try assumption. lia.
Qed.

Lemma exec_callbacks sched : forall st st',
  callbackInvariant s st -> exec sched st = Some st' ->
  callbackInvariant s st'.
Proof.
  induction sched as [|a sched IH]; intros st st' Hinv Hexec.
  - by injection Hexec as <-.
  - rewrite exec_cons in Hexec.
    destruct (step a st) as [st1|] eqn:Hstep; [|discriminate].
    exact (IH st1 st' (step_callbacks a st st1 Hinv Hstep) Hexec).
Qed.

Lemma init_callbacks : callbackInvariant s (initState s).
Proof. exists 0%nat. by split_and!. Qed.

Lemma finished_counts gs :
  forallb isFinished gs = true ->
  omap pendingIndex gs = [] /\ length (filter pastReport gs) = length gs.
Proof.
  induction gs as [|g gs IH]; [done|]. intros Hall.
  cbn [forallb] in Hall. apply andb_true_iff in Hall as [Hg Hall].
  destruct (IH Hall) as [Hpend Hcnt]. destruct g; try discriminate.
  rewrite pending_cons, filter_cons_True by exact I.
  cbn [length option_list pendingIndex app].
  by rewrite Hpend, Hcnt.
Qed.

(** Without a callback nothing is recorded. *)
Lemma exec_no_callback sched : forall st st',
  progressCalls st = [] ->
  runner.exec r ctx s pv false start sched st = Some st' ->
  progressCalls st' = [].
Proof.
  induction sched as [|a sched IH]; intros st st' Hnil Hexec.
  - by injection Hexec as <-.
  - rewrite exec_cons in Hexec.
    destruct (runner.step r ctx s pv false start a st) as [st1|] eqn:Hstep;
      [|discriminate].
    apply (IH st1 st'); [|exact Hexec]. clear IH Hexec.
    destruct a as [|i|i p clock|i|i clock|i|i]; step_cases Hstep;
      exact Hnil.
Qed.

End Callbacks.

(** X16.  The calls of the progress callback.  Without a callback Run
    records no call.  With one, in every state an execution of Run
    reaches, the indices passed so far are pairwise different, each is
    at least 0 and below the number of results stored, and every call
    was given the number of cases as the total; once Run has finished
    the indices passed are exactly 0, ..., n-1 for the n cases, each
    once, in the order in which the goroutines reported. *)
Theorem Run_progress_calls `{fmt.Quote} `{prompt.Engine}
    (r : runner.Runner) (ctx : context.Context) (s : suite.EvalSuite)
    (pv : prompt.PromptVariant) (progress : bool) (start : trace.Time)
    (sched : list runner.action) (st : runner.runState) :
  runner.exec r ctx s pv progress start sched (runner.initState s) = Some st ->
  if progress then
    NoDup (runner.reportedIndices st) /\
    Forall (fun i => 0 <= i < runner.completed st)
           (runner.reportedIndices st) /\
    Forall (fun call => runner.pcTotal call =
                        Z.of_nat (length (suite.Cases s)))
           (runner.progressCalls st) /\
    (runner.finished s st = true ->
     runner.reportedIndices st ≡ₚ
       Z.of_nat <$> seq 0 (length (suite.Cases s)))
  else runner.progressCalls st = [].
Proof.
  intros Hexec. destruct progress.
  2:{ by apply (exec_no_callback r ctx s pv start sched
                  (runner.initState s)). }
  destruct (exec_callbacks r ctx s pv start sched _ _
              (init_callbacks s) Hexec) as (k & Hk & Hperm & Hlen & Htot).
  assert (Hnodup : NoDup (runner.reportedIndices st ++
                          runner.pendingIndices st)).
  { rewrite Hperm. apply (NoDup_fmap_2 _), NoDup_seq. }
  split_and!.
  - by apply NoDup_app in Hnodup as [? _].
  - apply Forall_forall. intros i Hin.
    assert (Hin' : i ∈ Z.of_nat <$> seq 0 k).
    { rewrite <- Hperm. apply elem_of_app. by left. }
    apply list_elem_of_fmap in Hin' as (j & -> & Hj).
    apply elem_of_seq in Hj. lia.
  - exact Htot.
  - intros Hfin. unfold runner.finished in Hfin.
    apply andb_true_iff in Hfin as [Hgos Hall].
    apply bool_decide_eq_true in Hgos.
    destruct (finished_counts _ Hall) as [Hpend Hcnt].
    unfold runner.pendingIndices in Hperm.
    rewrite Hpend, app_nil_r in Hperm. rewrite Hperm.
    apply Permutation_length in Hperm.
    unfold runner.reportedIndices in Hperm.
    rewrite length_map, length_fmap, length_seq in Hperm.
    replace k with (length (suite.Cases s)) by lia. reflexivity.
Qed.

Lemma Run_progress_calls_witness :
  match
    @runner.exec examples.plainQuote examples.literalEngine
      (runner.New (runner.mkConfig 2 0)) context.Background
      examples.twoCases examples.loopPrompt true 0
      examples.reportsOutOfOrder (runner.initState examples.twoCases)
  with
  | Some st =>
      runner.reportedIndices st = [1; 0] /\
      runner.finished examples.twoCases st = true /\
      NoDup (runner.reportedIndices st)
  | None => False
  end.
Proof.
  destruct (runner.exec _ _ _ _ _ _ _ _) as [st|] eqn:Hexec.
  - pose proof (@Run_progress_calls examples.plainQuote
                  examples.literalEngine _ _ _ _ true _ _ _ Hexec)
      as (Hnodup & _).
    vm_compute in Hexec. injection Hexec as <-.
    split; [reflexivity|]. split; [reflexivity|]. exact Hnodup.
  - vm_compute in Hexec. discriminate.
Defined.

(** ** Suites: tags, defaults and validation *)

Section Suites.

Import suite.

Lemma tagSetOf_lookup tags : forall (m : gmap string bool) t,
  default false (foldl (fun m t => <[t := true]> m) m tags !! t) =
    bool_decide (t ∈ tags) || default false (m !! t).
Proof.
  induction tags as [|t0 tags IH]; intros m t.
  - cbn [foldl]. by rewrite bool_decide_eq_false_2 by set_solver.
  - rewrite foldl_step, IH.
    destruct (decide (t = t0)) as [->|Hne].
    + rewrite lookup_insert_eq. simpl.
      rewrite (bool_decide_eq_true_2 (t0 ∈ t0 :: tags)) by set_solver.
      by rewrite orb_true_r.
    + rewrite lookup_insert_ne by congruence.
      f_equal. apply bool_decide_ext. rewrite elem_of_cons. tauto.
Qed.

Lemma hasTag_elem_of tags t :
  hasTag (tagSetOf tags) t = bool_decide (t ∈ tags).
Proof.
  unfold hasTag, tagSetOf. rewrite tagSetOf_lookup, lookup_empty.
  apply orb_false_r.
Qed.

Lemma anyTag_tagged tags c :
  anyTag (tagSetOf tags) (Tags c) = true <-> tagged tags c.
Proof.
  unfold tagged. induction (Tags c) as [|t ts IH]; simpl.
  - split; [discriminate | by intros ?%Exists_nil].
  - rewrite hasTag_elem_of, Exists_cons, <- IH.
    destruct (bool_decide (t ∈ tags)) eqn:Ht.
    + apply bool_decide_eq_true in Ht. tauto.
    + apply bool_decide_eq_false in Ht. tauto.
Qed.

Lemma filter_loop (keep : EvalCase -> bool) cases : forall acc,
  foldl (fun acc c => if keep c then acc ++ [c] else acc) acc cases =
    acc ++ filter (fun c => keep c = true) cases.
Proof.
  induction cases as [|c cases IH]; intros acc.
  - simpl. by rewrite app_nil_r.
  - rewrite foldl_step, IH. destruct (keep c) eqn:Hc.
    + rewrite filter_cons_True by done. by rewrite <- app_assoc.
    + rewrite filter_cons_False by (rewrite Hc; discriminate). reflexivity.
Qed.

Lemma FilterByTag_cases s tags :
  tags <> [] ->
  Cases (FilterByTag s tags) = filter (tagged tags) (Cases s).
Proof.
  intros Hne. unfold FilterByTag.
  destruct (decide _) as [Hlen|_]; [by destruct tags|]. simpl.
  rewrite (filter_loop (fun c => anyTag (tagSetOf tags) (Tags c))).
  simpl. apply list_filter_iff. intros c. apply anyTag_tagged.
Qed.

Lemma validateCases_None `{fmt.Quote} name cases : forall i,
  validateCases name i cases = None <-> Forall (fun c => Name c <> "") cases.
Proof.
  induction cases as [|c cases IH]; intros i; simpl.
  - split; [constructor | reflexivity].
  - rewrite Forall_cons. destruct (decide (Name c = "")) as [He|Hne].
    + split; [discriminate | tauto].
    + rewrite IH. tauto.
Qed.

Lemma validateCases_Some `{fmt.Quote} name cases : forall i err,
  validateCases name i cases = Some err ->
  exists k c, cases !! k = Some c /\ Name c = "" /\
    Forall (fun c => Name c <> "") (take k cases) /\
    err = "suite " +:+ fmt.q name +:+ ": case " +:+ pretty (i + k)%nat +:+
          " has no name".
Proof.
  induction cases as [|c cases IH]; intros i err; simpl; [discriminate|].
  destruct (decide (Name c = "")) as [He|Hne].
  - intros [= <-]. exists 0%nat, c. rewrite Nat.add_0_r.
    by split_and!.
  - intros Herr. destruct (IH _ _ Herr) as (k & c' & Hk & He & Hall & ->).
    exists (S k), c'. split_and!; try done.
    + simpl. by constructor.
    + by rewrite Nat.add_succ_comm.
Qed.

End Suites.

(** X17.  FilterByTag.  An empty tag list returns the suite itself.  A
    non-empty one keeps, in their order, exactly the cases that carry at
    least one of the tags (so a case without tags is always dropped),
    and leaves the name, the description, the prompt and the defaults
    of the suite; filtering again by the same tags changes nothing, and
    two filters give the same cases in either order. *)
Theorem FilterByTag_keeps_tagged (s : suite.EvalSuite)
    (tags tags' : list string) :
  suite.FilterByTag s [] = s /\
  (tags <> [] ->
   suite.Cases (suite.FilterByTag s tags) =
     filter (suite.tagged tags) (suite.Cases s) /\
   Forall (fun c => suite.Tags c <> []) (suite.Cases (suite.FilterByTag s tags)) /\
   suite.suiteName (suite.FilterByTag s tags) = suite.suiteName s /\
   suite.Prompt (suite.FilterByTag s tags) = suite.Prompt s /\
   suite.DefaultJudges (suite.FilterByTag s tags) = suite.DefaultJudges s /\
   suite.DefaultMocks (suite.FilterByTag s tags) = suite.DefaultMocks s) /\
  suite.FilterByTag (suite.FilterByTag s tags) tags = suite.FilterByTag s tags /\
  suite.Cases (suite.FilterByTag (suite.FilterByTag s tags) tags') =
    suite.Cases (suite.FilterByTag (suite.FilterByTag s tags') tags).
Proof.
  split; [reflexivity|]. split; [|split].
  - intros Hne. rewrite FilterByTag_cases by assumption.
    split; [reflexivity|]. split.
    + apply Forall_forall. intros c Hin.
      apply list_elem_of_filter in Hin as [Htag _].
      unfold suite.tagged in Htag. intros Hnil. rewrite Hnil in Htag.
      by apply Exists_nil in Htag.
    + unfold suite.FilterByTag.
      destruct (decide _) as [Hlen|_]; [by destruct tags|]. by split_and!.
  - destruct tags as [|t tags]; [reflexivity|].
    unfold suite.FilterByTag at 1.
    destruct (decide _) as [Hlen|_]; [discriminate|].
    cbv zeta.
    rewrite (filter_loop (fun c => suite.anyTag _ (suite.Tags c))).
    rewrite (FilterByTag_cases s (t :: tags)) by discriminate.
    rewrite app_nil_l, list_filter_filter.
    unfold suite.FilterByTag.
    destruct (decide _) as [Hlen|_]; [discriminate|]. cbv zeta.
    rewrite (filter_loop (fun c => suite.anyTag _ (suite.Tags c))).
    cbn [suite.suiteName suite.Description suite.Prompt suite.DefaultJudges
         suite.DefaultMocks]. f_equal. rewrite app_nil_l.
    apply list_filter_iff. intros c. rewrite anyTag_tagged. tauto.
  - destruct tags as [|t tags], tags' as [|t' tags']; try reflexivity.
    rewrite !FilterByTag_cases by discriminate.
    rewrite !list_filter_filter. apply list_filter_iff. tauto.
Qed.

Lemma FilterByTag_keeps_tagged_witness :
  let s := {| suite.suiteName := "s"; suite.Description := "";
              suite.Prompt := "p"; suite.DefaultJudges := [];
              suite.DefaultMocks := [];
              suite.Cases := [examples.taggedCase "a" ["smoke"];
                              examples.taggedCase "b" [];
                              examples.taggedCase "c" ["slow"; "smoke"]] |} in
  map suite.Name (suite.Cases (suite.FilterByTag s ["smoke"])) = ["a"; "c"].
Proof.
  intros s.
  destruct (FilterByTag_keeps_tagged s ["smoke"] []) as (_ & Hcases & _).
  destruct (Hcases ltac:(discriminate)) as (-> & _).
  vm_compute. reflexivity.
Defined.

Section Defaults.

Import suite.

Lemma applyDefaults_case s c c' :
  c' ∈ Cases (applyDefaults {| suiteName := suiteName s;
                               Description := Description s;
                               Prompt := Prompt s;
                               DefaultJudges := DefaultJudges s;
                               DefaultMocks := DefaultMocks s;
                               Cases := [c] |}) ->
  Judges c' = effectiveJudges s c /\ Mocks c' = effectiveMocks s c /\
  ID c' = ID c /\ Name c' = Name c /\ Input c' = Input c /\
  Context c' = Context c /\ ExpectedOutput c' = ExpectedOutput c /\
  ExpectedTools c' = ExpectedTools c /\ Tags c' = Tags c /\
  Timeout c' = Timeout c.
Proof.
  simpl. intros ->%list_elem_of_singleton. simpl.
  unfold effectiveJudges, effectiveMocks.
  split_and!; try reflexivity.
  - destruct (Judges c), (DefaultJudges s); reflexivity.
  - destruct (Mocks c), (DefaultMocks s); reflexivity.
Qed.

Lemma validateCases_map `{fmt.Quote} (f : EvalCase -> EvalCase) name cases :
  (forall c, Name (f c) = Name c) ->
  forall i, validateCases name i (map f cases) = validateCases name i cases.
Proof.
  intros Hf. induction cases as [|c cases IH]; intros i; [reflexivity|].
  simpl. rewrite Hf, IH. reflexivity.
Qed.

Lemma filter_applyDefaults (f : EvalCase -> EvalCase) tags cases :
  (forall c, Tags (f c) = Tags c) ->
  filter (fun c => anyTag (tagSetOf tags) (Tags c) = true) (map f cases) =
    map f (filter (fun c => anyTag (tagSetOf tags) (Tags c) = true) cases).
Proof.
  intros Hf. induction cases as [|c cases IH]; [reflexivity|].
  cbn [map]. destruct (anyTag (tagSetOf tags) (Tags c)) eqn:Hc.
  - rewrite !filter_cons_True by (by rewrite ?Hf). cbn [map]. by rewrite IH.
  - rewrite !filter_cons_False by (rewrite ?Hf, Hc; discriminate).
    exact IH.
Qed.

End Defaults.

(** X18.  applyDefaults.  It keeps the cases, their order and every
    field of a case but the judges and the mocks (id, name, input,
    context, expected output, expected tools, tags and timeout), and
    every field of the suite but the cases.  A case without judges
    gets the default judges of the suite and a case with judges keeps
    its own, and likewise for the mocks.  Applying the defaults twice is
    applying them once, and applying them commutes with filtering by
    tags. *)
Theorem applyDefaults_fills (s : suite.EvalSuite) (tags : list string) :
  let s' := suite.applyDefaults s in
  Forall2 (fun c c' =>
             suite.Judges c' = suite.effectiveJudges s c /\
             suite.Mocks c' = suite.effectiveMocks s c /\
             suite.ID c' = suite.ID c /\ suite.Name c' = suite.Name c /\
             suite.Input c' = suite.Input c /\
             suite.Context c' = suite.Context c /\
             suite.ExpectedOutput c' = suite.ExpectedOutput c /\
             suite.ExpectedTools c' = suite.ExpectedTools c /\
             suite.Tags c' = suite.Tags c /\
             suite.Timeout c' = suite.Timeout c)
          (suite.Cases s) (suite.Cases s') /\
  suite.suiteName s' = suite.suiteName s /\
  suite.Description s' = suite.Description s /\
  suite.Prompt s' = suite.Prompt s /\
  suite.DefaultJudges s' = suite.DefaultJudges s /\
  suite.DefaultMocks s' = suite.DefaultMocks s /\
  suite.applyDefaults s' = s' /\
  suite.applyDefaults (suite.FilterByTag s tags) =
    suite.FilterByTag (suite.applyDefaults s) tags.
Proof.
  intros s'. split_and!; try reflexivity.
  - unfold s', suite.applyDefaults. cbn [suite.Cases].
    apply Forall2_fmap_r, Forall_Forall2_diag, Forall_forall.
    intros c _.
    exact (applyDefaults_case s c _ (list_elem_of_here _ _)).
  - unfold s', suite.applyDefaults.
    cbn [suite.suiteName suite.Description suite.Prompt suite.DefaultJudges
         suite.DefaultMocks suite.Cases].
    f_equal. rewrite map_map. apply map_ext. intros c. simpl.
    destruct (suite.Judges c), (suite.DefaultJudges s),
      (suite.Mocks c), (suite.DefaultMocks s); reflexivity.
  - destruct tags as [|t tags]; [reflexivity|].
    unfold suite.FilterByTag.
    destruct (decide _) as [Hlen|_]; [discriminate|]. cbv zeta.
    rewrite !(filter_loop (fun c => suite.anyTag _ (suite.Tags c))).
    unfold suite.applyDefaults.
    cbn [suite.suiteName suite.Description suite.Prompt suite.DefaultJudges
         suite.DefaultMocks suite.Cases].
    f_equal. rewrite !app_nil_l. symmetry.
    by apply filter_applyDefaults.
Qed.

(** X19.  Validate.  A suite is valid exactly when it has a name, at
    least one case, and no case without a name.  When a named suite with
    cases is rejected, the error names the first case without a name by
    its index.  Applying the defaults does not change the verdict, and a
    valid suite filtered by tags is valid unless the filter leaves no
    case. *)
Theorem Validate_accepts `{fmt.Quote} (s : suite.EvalSuite) :
  (suite.Validate s = None <->
   suite.suiteName s <> "" /\ suite.Cases s <> [] /\
   Forall (fun c => suite.Name c <> "") (suite.Cases s)) /\
  (forall err, suite.Validate s = Some err ->
     suite.suiteName s <> "" -> suite.Cases s <> [] ->
     exists k c, suite.Cases s !! k = Some c /\ suite.Name c = "" /\
       Forall (fun c => suite.Name c <> "") (take k (suite.Cases s)) /\
       err = "suite " +:+ fmt.q (suite.suiteName s) +:+ ": case " +:+
             pretty k +:+ " has no name") /\
  suite.Validate (suite.applyDefaults s) = suite.Validate s /\
  (forall tags, suite.Validate s = None ->
     suite.Cases (suite.FilterByTag s tags) <> [] ->
     suite.Validate (suite.FilterByTag s tags) = None).
Proof.
  assert (Hvalid : forall s0, suite.Validate s0 = None <->
            suite.suiteName s0 <> "" /\ suite.Cases s0 <> [] /\
            Forall (fun c => suite.Name c <> "") (suite.Cases s0)).
  { intros s0. unfold suite.Validate.
    destruct (decide (suite.suiteName s0 = "")) as [He|Hne];
      [split; [discriminate | tauto]|].
    destruct (decide _) as [Hlen|Hlen].
    - split; [discriminate|]. intros (_ & Hcases & _).
      by destruct (suite.Cases s0).
    - rewrite validateCases_None. split; [|tauto]. intros Hall.
      split_and!; try assumption. intros Hnil. by rewrite Hnil in Hlen. }
  split_and!.
  - apply Hvalid.
  - intros err Herr Hname Hcases. unfold suite.Validate in Herr.
    destruct (decide _) as [|_]; [done|].
    destruct (decide _) as [Hlen|_].
    { by destruct (suite.Cases s). }
    apply validateCases_Some in Herr as (k & c & Hk & He & Hall & ->).
    by exists k, c.
  - unfold suite.Validate, suite.applyDefaults.
    cbn [suite.suiteName suite.Cases]. rewrite length_map.
    by rewrite validateCases_map.
  - intros tags Hok Hleft. apply Hvalid in Hok as (Hname & Hcases & Hall).
    apply Hvalid. destruct tags as [|t tags]; [by split_and!|].
    split_and!; [|exact Hleft|].
    + unfold suite.FilterByTag.
      by destruct (decide _) as [Hlen|_]; [discriminate|].
    + rewrite FilterByTag_cases by discriminate.
      apply Forall_forall. intros c Hin.
      apply list_elem_of_filter in Hin as [_ Hin].
      rewrite Forall_forall in Hall. by apply Hall.
Qed.

Lemma Validate_accepts_witness :
  @suite.Validate examples.plainQuote
    (suite.FilterByTag examples.twoCases []) = None.
Proof.
  apply (proj2 (proj2 (proj2 (@Validate_accepts examples.plainQuote
                                 examples.twoCases)))).
  - reflexivity.
  - discriminate.
Defined.

(** ** Summaries: statistics of a run *)

Section Summaries.

Import result summary.

Lemma wrap_wrap_add a b : goint.wrap (goint.wrap a + b) = goint.wrap (a + b).
Proof.
  unfold goint.wrap. f_equal.
  replace ((a + 2 ^ (goint.bits - 1)) mod 2 ^ goint.bits -
           2 ^ (goint.bits - 1) + b + 2 ^ (goint.bits - 1))
    with ((a + 2 ^ (goint.bits - 1)) mod 2 ^ goint.bits + b) by ring.
  rewrite Zplus_mod_idemp_l. f_equal. ring.
Qed.

Lemma wrap_wrap z : goint.wrap (goint.wrap z) = goint.wrap z.
Proof.
  apply wrap_id. unfold goint.wrap, goint.in_range,
    goint.min_int, goint.max_int, goint.bits.
  pose proof (Z.mod_pos_bound (z + 2 ^ (64 - 1)) (2 ^ 64) eq_refl).
  lia.
Qed.

Lemma count_cons (f : CaseResult -> bool) r rs :
  count f (r :: rs) = (if f r then 1 else 0) + count f rs.
Proof.
  unfold count. destruct (f r) eqn:Hr.
  - rewrite filter_cons_True by done. simpl length. lia.
  - rewrite filter_cons_False by (rewrite Hr; discriminate). lia.
Qed.

(** What the loop of [ComputeStats] has counted and added up. *)
Lemma tally_loop results : forall t,
  let t' := foldl tallyStep t results in
  errored t' = errored t + count isErrored results /\
  passed t' = passed t + count isPassed results /\
  failed t' = failed t + count isFailed results /\
  durations t' = durations t ++ map Duration results /\
  goint.wrap (inputTokens t') =
    goint.wrap (inputTokens t + trace.sumZ (map InputTokens results)) /\
  goint.wrap (outputTokens t') =
    goint.wrap (outputTokens t + trace.sumZ (map OutputTokens results)) /\
  (results <> [] ->
   goint.wrap (inputTokens t') = inputTokens t' /\
   goint.wrap (outputTokens t') = outputTokens t').
Proof.
  induction results as [|r results IH]; intros t.
  - cbn. rewrite !Z.add_0_r, app_nil_r. by split_and!.
  - cbv zeta. rewrite foldl_step.
    destruct (IH (tallyStep t r)) as (HE & HP & HF & HD & HI & HO & Hin).
    clear IH. unfold trace.sumZ in *. split_and!.
    + rewrite HE, count_cons. unfold isErrored. cbn [tallyStep errored].
      destruct (decide (Error r = "")) as [He|Hne].
      * rewrite (bool_decide_eq_true_2 _ He). simpl. lia.
      * rewrite (bool_decide_eq_false_2 _ Hne). simpl. lia.
    + rewrite HP, count_cons. unfold isPassed. cbn [tallyStep passed].
      destruct (decide (Error r = "")) as [He|Hne].
      * rewrite (bool_decide_eq_true_2 _ He). destruct (Pass r); simpl; lia.
      * rewrite (bool_decide_eq_false_2 _ Hne). simpl. lia.
    + rewrite HF, count_cons. unfold isFailed. cbn [tallyStep failed].
      destruct (decide (Error r = "")) as [He|Hne].
      * rewrite (bool_decide_eq_true_2 _ He). destruct (Pass r); simpl; lia.
      * rewrite (bool_decide_eq_false_2 _ Hne). simpl. lia.
    + rewrite HD. cbn [tallyStep durations map]. by rewrite <- app_assoc.
    + rewrite HI. cbn [tallyStep inputTokens map foldr].
      unfold goint.add. rewrite wrap_wrap_add. f_equal. lia.
    + rewrite HO. cbn [tallyStep outputTokens map foldr].
      unfold goint.add. rewrite wrap_wrap_add. f_equal. lia.
    + intros _. destruct results as [|r' results].
      * cbn [foldl tallyStep inputTokens outputTokens].
        unfold goint.add. by rewrite !wrap_wrap.
      * by apply Hin.
Qed.

Lemma count_partition results :
  count isPassed results + count isFailed results +
  count isErrored results = Z.of_nat (length results).
Proof.
  induction results as [|r results IH]; [reflexivity|].
  rewrite !count_cons. unfold isPassed, isFailed, isErrored in *.
  cbn [length]. destruct (bool_decide (Error r = "")), (Pass r); simpl; lia.
Qed.

(** The statistics [ComputeStats] returns, but for the latencies. *)
Lemma ComputeStats_fields results stats :
  ComputeStats results = Some stats ->
  TotalCases stats = Z.of_nat (length results) /\
  ErroredCases stats = count isErrored results /\
  PassedCases stats = count isPassed results /\
  FailedCases stats = count isFailed results /\
  TotalInputTokens stats =
    goint.wrap (trace.sumZ (map InputTokens results)) /\
  TotalOutputTokens stats =
    goint.wrap (trace.sumZ (map OutputTokens results)).
Proof.
  unfold ComputeStats. destruct (decide _) as [Hlen|Hlen].
  - intros [= <-]. destruct results; [|discriminate]. by split_and!.
  - cbv zeta.
    destruct (tally_loop results tallyInit)
      as (HE & HP & HF & _ & HI & HO & Hin).
    destruct Hin as [HI' HO']; [by destruct results|].
    set (t := foldl tallyStep tallyInit results) in *. clearbody t.
    destruct (percentile _ (float64.lit 5 10)) as [p50|]; [|discriminate].
    destruct (percentile _ (float64.lit 95 100)) as [p95|]; [|discriminate].
    intros [= <-]. cbn [TotalCases ErroredCases PassedCases FailedCases
                         TotalInputTokens TotalOutputTokens].
    rewrite HE, HP, HF, <- HI', <- HO', HI, HO. by split_and!.
Qed.

End Summaries.

(** X20.  ComputeStats, whenever it returns.  The total is the number
    of results.  Every result is counted once: as errored when it has
    an error, whatever its pass flag; otherwise as passed or failed by
    its pass flag; so the three counters add up to the total.  The
    token totals are the sums of the token counts of the results, in
    64-bit two's-complement arithmetic.  For a single result
    ComputeStats returns, and both latency percentiles are the duration
    of that result. *)
Theorem ComputeStats_counts (results : list result.CaseResult)
    (stats : result.Stats) :
  summary.ComputeStats results = Some stats ->
  result.TotalCases stats = Z.of_nat (length results) /\
  result.ErroredCases stats = summary.count summary.isErrored results /\
  result.PassedCases stats = summary.count summary.isPassed results /\
  result.FailedCases stats = summary.count summary.isFailed results /\
  result.PassedCases stats + result.FailedCases stats +
    result.ErroredCases stats = result.TotalCases stats /\
  result.TotalInputTokens stats =
    goint.wrap (trace.sumZ (map result.InputTokens results)) /\
  result.TotalOutputTokens stats =
    goint.wrap (trace.sumZ (map result.OutputTokens results)) /\
  (forall r, results = [r] ->
     result.LatencyP50 stats = result.Duration r /\
     result.LatencyP95 stats = result.Duration r).
Proof.
  intros Hstats.
  destruct (ComputeStats_fields results stats Hstats)
    as (HT & HE & HP & HF & HI & HO).
  split_and!; try assumption.
  - rewrite HT, HE, HP, HF. apply count_partition.
  - intros r ->. unfold summary.ComputeStats in Hstats.
    cbn [length] in Hstats.
    destruct (decide _) as [Hlen|_]; [discriminate|].
    cbv zeta in Hstats.
    change (summary.percentile
              (merge_sort Z.le
                 (summary.durations
                    (foldl summary.tallyStep summary.tallyInit [r])))
              (float64.lit 5 10)) with (Some (result.Duration r)) in Hstats.
    change (summary.percentile
              (merge_sort Z.le
                 (summary.durations
                    (foldl summary.tallyStep summary.tallyInit [r])))
              (float64.lit 95 100)) with (Some (result.Duration r)) in Hstats.
    cbn [mbind option_bind] in Hstats. by injection Hstats as <-.
Qed.

Lemma ComputeStats_counts_witness :
  exists stats,
    summary.ComputeStats examples.fourResults = Some stats /\
    result.PassedCases stats + result.FailedCases stats +
      result.ErroredCases stats = 4 /\
    result.LatencyP50 stats = 250000000.
Proof.
  destruct (summary.ComputeStats examples.fourResults) as [stats|] eqn:Hstats.
  - exists stats. split; [reflexivity|].
    destruct (ComputeStats_counts _ _ Hstats) as (HT & _ & _ & _ & Hsum & _).
    split; [by rewrite Hsum, HT|].
    vm_compute in Hstats. by injection Hstats as <-.
  - vm_compute in Hstats. discriminate.
Defined.

Section Fresh.

Import result summary.

Lemma count_fresh_passed (crs : list runner.CaseResult) :
  count isPassed (map caseResultOf crs) = 0.
Proof.
  induction crs as [|cr crs IH]; [reflexivity|].
  cbn [map]. rewrite count_cons, IH. unfold isPassed. simpl.
  by rewrite andb_false_r.
Qed.

Lemma count_fresh (f : CaseResult -> bool) (g : runner.CaseResult -> bool)
    (crs : list runner.CaseResult) :
  (forall cr, f (caseResultOf cr) = g cr) ->
  count f (map caseResultOf crs) =
    Z.of_nat (length (filter (fun cr => g cr = true) crs)).
Proof.
  intros Hfg. induction crs as [|cr crs IH]; [reflexivity|].
  cbn [map]. rewrite count_cons, IH, Hfg. destruct (g cr) eqn:Hg.
  - rewrite filter_cons_True by done. simpl length. lia.
  - rewrite filter_cons_False by (rewrite Hg; discriminate). lia.
Qed.

(** With the scores of both runs at zero every delta is zero. *)
Lemma categoryOf_zero t :
  float64.leb float64.zero t = true ->
  diff.categoryOf t (float64.sub float64.zero float64.zero) = diff.Unchanged.
Proof.
  intros Ht. unfold diff.categoryOf.
  change (float64.abs (float64.sub float64.zero float64.zero))
    with float64.zero.
  by rewrite Ht.
Qed.

Lemma FromRunResult_scores `{Calendar} rr s :
  FromRunResult rr = Some s ->
  Forall (fun r => Score r = float64.zero) (Results s).
Proof.
  unfold FromRunResult. cbv zeta.
  destruct (ComputeStats _) as [stats|]; [|discriminate].
  intros [= <-]. cbn [Results]. apply Forall_forall. intros r Hin.
  by apply list_elem_of_fmap in Hin as (cr & -> & _).
Qed.

End Fresh.

(** X21.  FromRunResult, whenever it returns.  The run id is the start
    time in the layout "20060102-150405", a dash and the suite name.
    The results are those of the cases, one per case and in their
    order, with the identity, the response, the error and the duration
    of the case, the token counts of its trace (zero without a trace),
    score 0 and pass false.  So the statistics count no case as passed:
    the cases with an error are errored and all the others are failed. *)
Theorem FromRunResult_fresh `{summary.Calendar} (rr : runner.RunResult)
    (s : result.RunSummary) :
  summary.FromRunResult rr = Some s ->
  result.RunID s =
    summary.Format (runner.StartTime rr) "20060102-150405" +:+ "-" +:+
    runner.SuiteName rr /\
  result.SuiteName s = runner.SuiteName rr /\
  result.rsDuration s = runner.rrDuration rr /\
  Forall2 (fun cr r =>
             result.CaseID r = runner.CaseID cr /\
             result.CaseName r = runner.CaseName cr /\
             result.FinalResponse r = runner.FinalResponse cr /\
             result.Error r = runner.Error cr /\
             result.Duration r = runner.Duration cr /\
             result.Score r = float64.zero /\ result.Pass r = false /\
             result.InputTokens r =
               from_option (fun tr => trace.InputTokens (trace.Usage tr)) 0
                           (runner.Trace cr) /\
             result.OutputTokens r =
               from_option (fun tr => trace.OutputTokens (trace.Usage tr)) 0
                           (runner.Trace cr))
          (runner.Cases rr) (result.Results s) /\
  result.PassedCases (result.Stats_ s) = 0 /\
  result.ErroredCases (result.Stats_ s) =
    Z.of_nat (length (filter (fun cr => runner.Error cr <> "")
                             (runner.Cases rr))) /\
  result.FailedCases (result.Stats_ s) =
    Z.of_nat (length (filter (fun cr => runner.Error cr = "")
                             (runner.Cases rr))).
Proof.
  unfold summary.FromRunResult. cbv zeta.
  destruct (summary.ComputeStats _) as [stats|] eqn:Hstats; [|discriminate].
  intros [= <-].
  cbn [result.RunID result.SuiteName result.rsDuration result.Results
       result.Stats_].
  destruct (ComputeStats_fields _ _ Hstats) as (_ & HE & HP & HF & _).
  split_and!; try reflexivity.
  - apply Forall2_fmap_r, Forall_Forall2_diag, Forall_forall.
    intros cr _. unfold summary.caseResultOf. simpl.
    destruct (runner.Trace cr); by split_and!.
  - by rewrite HP, count_fresh_passed.
  - rewrite HE.
    rewrite (count_fresh _ (fun cr => negb (bool_decide (runner.Error cr = "")))).
    2:{ reflexivity. }
    do 2 f_equal. apply list_filter_iff. intros cr.
    rewrite negb_true_iff, bool_decide_eq_false. tauto.
  - rewrite HF.
    rewrite (count_fresh _ (fun cr => bool_decide (runner.Error cr = ""))).
    2:{ intros cr. unfold summary.isFailed. simpl. apply andb_true_r. }
    do 2 f_equal. apply list_filter_iff. intros cr.
    by rewrite bool_decide_eq_true.
Qed.

Lemma FromRunResult_fresh_witness :
  exists s,
    @summary.FromRunResult examples.plainCalendar examples.twoRan = Some s /\
    result.RunID s = "10-two" /\
    result.ErroredCases (result.Stats_ s) = 1 /\
    result.FailedCases (result.Stats_ s) = 1.
Proof.
  destruct (@summary.FromRunResult examples.plainCalendar examples.twoRan)
    as [s|] eqn:Hs.
  - exists s. split; [reflexivity|].
    destruct (@FromRunResult_fresh examples.plainCalendar _ _ Hs)
      as (Hid & _ & _ & _ & _ & HE & HF).
    split; [exact Hid|]. split; [exact HE | exact HF].
  - vm_compute in Hs. discriminate.
Defined.

(** X22.  Fresh summaries do not differ by score.  FromRunResult leaves
    every score at zero, so when two summaries it returned are compared
    with a threshold >= 0, no case is Improved or Regressed and both
    counters of the summary are 0: every case is Unchanged, New or
    Removed, whatever its pass flag or error. *)
Theorem Compare_fresh `{summary.Calendar} (rrA rrB : runner.RunResult)
    (a b : result.RunSummary) (threshold : float64.t) :
  summary.FromRunResult rrA = Some a ->
  summary.FromRunResult rrB = Some b ->
  float64.leb float64.zero threshold = true ->
  let dr := diff.Compare a b threshold in
  Forall (fun cd => diff.Category_ cd ∈
                      [diff.Unchanged; diff.New; diff.Removed])
         (diff.Cases dr) /\
  diff.sImproved (diff.Summary_ dr) = 0%nat /\
  diff.sRegressed (diff.Summary_ dr) = 0%nat.
Proof.
  intros Ha Hb Ht dr.
  assert (Hzero : forall rr s, summary.FromRunResult rr = Some s ->
            Forall (fun r => result.Score r = float64.zero)
                   (result.Results s)).
  { intros rr s Hs. exact (FromRunResult_scores rr s Hs). }
  pose proof (Hzero _ _ Ha) as HzA. pose proof (Hzero _ _ Hb) as HzB.
  destruct (Compare_entries a b threshold) as (cds & Hcases & Hall & Hok).
  fold dr in Hcases, Hok.
  assert (Hcats : Forall (fun cd => diff.Category_ cd ∈
                            [diff.Unchanged; diff.New; diff.Removed])
                         (diff.Cases dr)).
  { rewrite Hcases. apply Forall_app. split.
    - clear Hcases Hok.
      induction Hall as [|crB cd bs cds' HE _ IH]; [constructor|].
      apply Forall_cons in HzB as [HB HzB].
      constructor; [|by apply IH].
      destruct HE as (_ & _ & _ & HE).
      rewrite indexByName_caseNamed in HE.
      destruct (diff.caseNamed (result.Results a) (result.CaseName crB))
        as [crA|] eqn:Hnamed.
      + destruct HE as (_ & _ & Hdelta & ->). rewrite Hdelta, HB.
        apply caseNamed_Some in Hnamed as [Hin _].
        rewrite Forall_forall in HzA. rewrite (HzA _ Hin).
        rewrite categoryOf_zero by assumption. set_solver.
      + rewrite HE. set_solver.
    - apply Forall_forall. intros cd Hin.
      apply list_elem_of_fmap in Hin as (crA & -> & _). simpl. set_solver. }
  split; [exact Hcats|].
  destruct Hok as (-> & -> & _). unfold diff.countCat.
  split.
  - rewrite filter_none; [reflexivity|].
    eapply Forall_impl; [exact Hcats|]. intros cd Hin Heq. simpl in *.
    rewrite Heq in Hin. revert Hin. rewrite !elem_of_cons, elem_of_nil.
    by intros [?|[?|[?|[]]]].
  - rewrite filter_none; [reflexivity|].
    eapply Forall_impl; [exact Hcats|]. intros cd Hin Heq. simpl in *.
    rewrite Heq in Hin. revert Hin. rewrite !elem_of_cons, elem_of_nil.
    by intros [?|[?|[?|[]]]].
Qed.

Lemma Compare_fresh_witness :
  exists a,
    @summary.FromRunResult examples.plainCalendar examples.twoRan = Some a /\
    diff.sImproved (diff.Summary_ (diff.Compare a a float64.zero)) = 0%nat /\
    diff.sRegressed (diff.Summary_ (diff.Compare a a float64.zero)) = 0%nat.
Proof.
  destruct (@summary.FromRunResult examples.plainCalendar examples.twoRan)
    as [a|] eqn:Ha.
  - exists a. split; [reflexivity|].
    destruct (@Compare_fresh examples.plainCalendar _ _ _ _ float64.zero
                Ha Ha eq_refl) as (_ & HI & HR).
    split; [exact HI | exact HR].
  - vm_compute in Ha. discriminate.
Defined.

(** ** ToolCallJudge: expectations against the calls made *)

Section ToolCalls.

Import judge.

Context `{fmt.Quote} `{fmt.Printer}.

Lemma findCall_found exp calls rest :
  findCall exp calls = (true, rest) ->
  exists pre call,
    calls = pre ++ call :: rest /\ callMatches exp call = true /\
    Forall (fun c => callMatches exp c = false) pre.
Proof.
  induction calls as [|c calls IH]; simpl; [discriminate|].
  destruct (callMatches exp c) eqn:Hc.
  - intros [= <-]. exists [], c. by split_and!.
  - intros Hfind. destruct (IH Hfind) as (pre & call & -> & Hcall & Hpre).
    exists (c :: pre), call. split_and!; try done. by constructor.
Qed.

Lemma findCall_missed exp calls rest :
  findCall exp calls = (false, rest) ->
  rest = [] /\ Forall (fun c => callMatches exp c = false) calls.
Proof.
  induction calls as [|c calls IH]; simpl.
  - intros [= <-]. by split.
  - destruct (callMatches exp c) eqn:Hc; [discriminate|].
    intros Hfind. destruct (IH Hfind) as [-> Hall]. split; [done|].
    by constructor.
Qed.

Lemma embeds_prepend exps pre calls :
  embeds exps calls -> embeds exps (pre ++ calls).
Proof.
  intros Hemb. induction pre as [|c pre IH]; [exact Hemb|].
  simpl. by constructor.
Qed.

Lemma embeds_tail exp exps calls :
  embeds (exp :: exps) calls -> embeds exps calls.
Proof.
  intros Hemb. remember (exp :: exps) as l eqn:Hl.
  induction Hemb as [calls|e es c cs Hc Hemb _|es c cs Hemb IH].
  - discriminate.
  - injection Hl as -> ->. by constructor.
  - constructor. by apply IH.
Qed.

Lemma embeds_first exp exps pre call rest :
  Forall (fun c => callMatches exp c = false) pre ->
  embeds (exp :: exps) (pre ++ call :: rest) -> embeds exps rest.
Proof.
  intros Hpre. induction Hpre as [|c pre Hc _ IH]; simpl; intros Hemb.
  - inversion Hemb; subst; [assumption|]. by eapply embeds_tail.
  - inversion Hemb; subst; [congruence|]. by apply IH.
Qed.

Lemma embeds_none exp exps calls :
  Forall (fun c => callMatches exp c = false) calls ->
  ~ embeds (exp :: exps) calls.
Proof.
  intros Hall. induction Hall as [|c calls Hc _ IH]; intros Hemb.
  - inversion Hemb.
  - inversion Hemb; subst; [congruence|]. by apply IH.
Qed.

(** The greedy loop over the positive expectations leaves no failure
    exactly when it started with none and the expectations embed. *)
Lemma positives_loop (msg : ExpectedToolCall -> string) exps :
  forall failures calls,
    (foldl (fun '(failures, calls) exp =>
              let '(found, calls) := findCall exp calls in
              (if found then failures else failures ++ [msg exp], calls))
           (failures, calls) exps).1 = [] <->
    failures = [] /\ embeds exps calls.
Proof.
  induction exps as [|exp exps IH]; intros failures calls.
  - simpl. split; [intros ->; split; [done | constructor] | by intros [-> _]].
  - rewrite foldl_step.
    destruct (findCall exp calls) as [[] rest] eqn:Hfind.
    + rewrite IH.
      destruct (findCall_found _ _ _ Hfind) as (pre & call & -> & Hcall & Hpre).
      split; intros [-> Hemb]; (split; [done|]).
      * apply embeds_prepend. by constructor.
      * by eapply embeds_first.
    + rewrite IH.
      destruct (findCall_missed _ _ _ Hfind) as [-> Hall].
      split.
      * intros [Hnil _]. by destruct failures.
      * intros [_ Hemb]. by destruct (embeds_none _ _ _ Hall Hemb).
Qed.

Lemma negatives_loop (msg : ExpectedToolCall -> string) calls negs :
  forall failures,
    foldl (fun failures neg =>
             if wasCalled (etToolName neg) calls
             then failures ++ [msg neg] else failures)
          failures negs = [] <->
    failures = [] /\
    Forall (fun neg => wasCalled (etToolName neg) calls = false) negs.
Proof.
  induction negs as [|neg negs IH]; intros failures.
  - simpl. split; [intros ->; by split | by intros [-> _]].
  - rewrite foldl_step, IH, Forall_cons.
    destruct (wasCalled (etToolName neg) calls).
    + split; [intros [Hnil _]; by destruct failures | by intros [_ [? _]]].
    + tauto.
Qed.

Lemma wasCalled_elem_of name calls :
  wasCalled name calls = false <-> name ∉ map trace.ToolName calls.
Proof.
  unfold wasCalled. induction calls as [|c calls IH]; simpl.
  - split; [intros _; apply not_elem_of_nil | done].
  - rewrite orb_false_iff, IH, not_elem_of_cons, bool_decide_eq_false.
    split; intros [? ?]; split; congruence.
Qed.

End ToolCalls.

(** X23.  ToolCallJudge.  Evaluate never fails.  It passes exactly when
    no tool named by a negated expectation was called at all, whatever
    the parameters, and the expectations that are not negated can be
    met in their order by calls taken in their order, each call being
    used for at most one expectation: scanning the calls once, always
    taking the first call that matches, finds such an assignment
    whenever there is one.  The score is 1 on a pass and 0 otherwise. *)
Theorem ToolCallJudge_passes `{fmt.Quote} `{fmt.Printer}
    (j : judge.ToolCallJudge) (input : judge.Input) :
  let res := judge.ToolCallJudge_Evaluate j input in
  res.2 = None /\
  (judge.Pass res.1 = true <->
   Forall (fun exp => judge.Negate exp = true ->
             judge.etToolName exp ∉
               map trace.ToolName (judge.ToolCalls input))
          (judge.Expected j) /\
   judge.embeds (filter (fun exp => judge.Negate exp = false)
                        (judge.Expected j))
                (judge.ToolCalls input)) /\
  judge.Score res.1 =
    (if judge.Pass res.1 then float64.one else float64.zero).
Proof.
  intros res. unfold res, judge.ToolCallJudge_Evaluate. cbv zeta.
  match goal with
  | |- context [foldl ?f (?fs, ?cs) ?l] =>
      pose proof (positives_loop
                    (fun exp => "expected tool call " +:+
                                fmt.q (judge.etToolName exp) +:+
                                " not found in sequence") l fs cs) as Hpos;
      destruct (foldl f (fs, cs) l) as [failures rest]
  end.
  cbn [fst] in Hpos.
  rewrite (negatives_loop
             (fun neg => "tool " +:+ fmt.q (judge.etToolName neg) +:+
                         " was called but should not have been")) in Hpos.
  assert (Hneg :
    Forall (fun neg => judge.wasCalled (judge.etToolName neg)
                         (judge.ToolCalls input) = false)
           (filter (fun exp => judge.Negate exp = true) (judge.Expected j)) <->
    Forall (fun exp => judge.Negate exp = true ->
              judge.etToolName exp ∉
                map trace.ToolName (judge.ToolCalls input))
           (judge.Expected j)).
  { rewrite !Forall_forall. split.
    - intros Hall exp Hin Hn. apply wasCalled_elem_of, Hall.
      by apply list_elem_of_filter.
    - intros Hall exp Hin. apply list_elem_of_filter in Hin as [Hn Hin].
      by apply wasCalled_elem_of, Hall. }
  destruct (decide (length failures = 0%nat)) as [Hlen|Hlen]; cbn.
  - split; [reflexivity|]. split; [|reflexivity].
    split; [intros _|reflexivity].
    destruct failures; [|discriminate].
    destruct (proj1 Hpos eq_refl) as [[_ Hn] Hemb].
    split; [by apply Hneg | exact Hemb].
  - split; [reflexivity|]. split; [|reflexivity].
    split; [discriminate|]. intros [Hn Hemb]. exfalso. apply Hlen.
    rewrite (proj2 Hpos); [reflexivity|].
    split; [split; [reflexivity | by apply Hneg] | exact Hemb].
Qed.

Section Params.

Import judge.

Context `{fmt.Printer}.

Lemma isSubset_covers a b : isSubset a b = true <-> covers a b.
Proof.
  unfold isSubset, covers. rewrite forallb_forall. split.
  - intros Hall k v Hk.
    assert (Hin : In (k, v) (entries a)).
    { destruct a as [m|]; [|discriminate]. simpl in *.
      by apply list_elem_of_In, elem_of_map_to_list. }
    specialize (Hall _ Hin). simpl in Hall.
    destruct (paramsLookup b k) as [sv|]; [|discriminate].
    exists sv. split; [reflexivity|]. by apply bool_decide_eq_true in Hall.
  - intros Hcov [k v] Hin. simpl.
    assert (Hk : paramsLookup a k = Some v).
    { destruct a as [m|]; [|by destruct Hin]. simpl in *.
      by apply elem_of_map_to_list, list_elem_of_In. }
    destruct (Hcov k v Hk) as (sv & -> & Heq).
    by apply bool_decide_eq_true.
Qed.

(** With as many entries on both sides, covering goes both ways. *)
Lemma covers_sym a b :
  paramsLen a = paramsLen b -> covers a b -> covers b a.
Proof.
  assert (Hmaps : forall ma mb : gmap string trace.Value,
            size ma = size mb ->
            (forall k v, ma !! k = Some v ->
               exists sv, mb !! k = Some sv /\ fmt.v v = fmt.v sv) ->
            forall k sv, mb !! k = Some sv ->
              exists v, ma !! k = Some v /\ fmt.v sv = fmt.v v).
  { intros ma mb Hsize Hcov k sv Hk.
    assert (Hsub : dom ma ⊆ dom mb).
    { intros k' Hk'. apply elem_of_dom in Hk' as [v' Hv'].
      destruct (Hcov k' v' Hv') as (sv' & Hsv' & _).
      apply elem_of_dom. by eexists. }
    assert (Heq : dom ma ≡ dom mb).
    { apply set_subseteq_size_equiv; [exact Hsub|].
      rewrite !size_dom. by rewrite Hsize. }
    assert (Hin : k ∈ dom ma).
    { rewrite Heq. apply elem_of_dom. by eexists. }
    apply elem_of_dom in Hin as [v Hv]. exists v. split; [exact Hv|].
    destruct (Hcov k v Hv) as (sv' & Hsv' & Hshow).
    rewrite Hk in Hsv'. by injection Hsv' as <-. }
  intros Hlen Hcov.
  destruct a as [ma|], b as [mb|]; unfold covers in *; simpl in *.
  - by apply Hmaps.
  - discriminate.
  - intros k sv Hk. symmetry in Hlen. apply map_size_empty_inv in Hlen.
    subst mb. by rewrite lookup_empty in Hk.
  - discriminate.
Qed.

Lemma covers_refl a : covers a a.
Proof. intros k v Hk. by exists v. Qed.

End Params.

(** X24.  Parameter matching of the ToolCallJudge.  An expectation
    without parameters matches any call parameters, in every mode, the
    exact one included.  Otherwise, in every mode but "exact" the
    expectation matches when each of its entries is among the call
    parameters with the same printed value; in mode "exact" it matches
    when in addition the two maps have as many entries, and then the
    call parameters are covered by the expectation as well, although
    the code only walks through one of the two maps.  An exact match is
    a match in every mode, and parameters match themselves. *)
Theorem paramsMatch_modes `{fmt.Printer} (expected actual : trace.Params)
    (mode : string) :
  (judge.paramsLen expected = 0%nat ->
   judge.paramsMatch expected actual mode = true) /\
  (judge.paramsLen expected <> 0%nat -> mode <> "exact" ->
   (judge.paramsMatch expected actual mode = true <->
    judge.covers expected actual)) /\
  (judge.paramsLen expected <> 0%nat ->
   (judge.paramsMatch expected actual "exact" = true <->
    judge.paramsLen expected = judge.paramsLen actual /\
    judge.covers expected actual /\ judge.covers actual expected)) /\
  (judge.paramsMatch expected actual "exact" = true ->
   judge.paramsMatch expected actual mode = true) /\
  judge.paramsMatch expected expected mode = true.
Proof.
  unfold judge.paramsMatch, judge.mapsEqual. split_and!.
  - intros Hlen. by destruct (decide _).
  - intros Hlen Hmode. destruct (decide _); [done|].
    destruct (decide _); [done|]. apply isSubset_covers.
  - intros Hlen. destruct (decide _); [done|].
    destruct (decide ("exact" = "exact")); [|done].
    destruct (decide _) as [Heq|Hne].
    + rewrite isSubset_covers. split.
      * intros Hcov. split_and!; try done. by apply covers_sym.
      * by intros (_ & Hcov & _).
    + split; [discriminate | by intros (? & _)].
  - destruct (decide _); [done|].
    destruct (decide ("exact" = "exact")); [|done].
    destruct (decide (judge.paramsLen expected = judge.paramsLen actual));
      [|discriminate].
    by destruct (decide (mode = "exact")).
  - destruct (decide _); [done|].
    assert (Hself : judge.isSubset expected expected = true)
      by apply isSubset_covers, covers_refl.
    destruct (decide (mode = "exact")); [|exact Hself].
    by destruct (decide _).
Qed.

Lemma paramsMatch_modes_witness :
  @judge.paramsMatch examples.plainPrinter
    (Some ∅) (Some {[ "n" := trace.VInt 1 ]}) "exact" = true /\
  @judge.paramsMatch examples.plainPrinter
    (Some {[ "n" := trace.VInt 1 ]}) (Some {[ "n" := trace.VString "1" ]})
    "exact" = true.
Proof.
  split.
  - apply (@paramsMatch_modes examples.plainPrinter). reflexivity.
  - vm_compute. reflexivity.
Defined.

(** ** The loop of the test harness and the loop of the runner *)

Section Harness.

Import evaltest.

Context `{fmt.Quote} `{prompt.Engine} {PS : Type} `{provider.Provider PS}.

Lemma resolveCall_asRunner final err (vars : loopVars PS) call :
  runner.resolveToolCall (asRunner final err vars) call =
    asRunner final err (resolveCall vars call).
Proof.
  unfold runner.resolveToolCall, resolveCall, asRunner.
  cbn [runner.lsRegistry runner.lsClock runner.lsTrace runner.lsMessages
       runner.lsProvider runner.lsModel runner.lsFinalResponse
       runner.lsError].
  by destruct (mock.Resolve _ _ _ _) as [[[content mockErr] registry] clock].
Qed.

Lemma resolveCalls_asRunner final err calls : forall vars : loopVars PS,
  foldl runner.resolveToolCall (asRunner final err vars) calls =
    asRunner final err (foldl resolveCall vars calls).
Proof.
  induction calls as [|call calls IH]; intros vars; [reflexivity|].
  by rewrite !foldl_step, resolveCall_asRunner, IH.
Qed.

(** The two loops run in step; they differ in what they leave behind
    at their three exits. *)
Lemma toolLoop_inputLoop ctx system tools fuel :
  forall (vars : loopVars PS) final err,
    runner.toolLoop ctx system tools fuel (asRunner final err vars) =
      match inputLoop ctx system tools fuel vars with
      | (vars', ProviderFailed e) =>
          asRunner final ("provider error: " +:+ e) vars'
      | (vars', Answered content) => asRunner content err vars'
      | (vars', Exceeded) => asRunner final err vars'
      end.
Proof.
  induction fuel as [|fuel IH]; intros vars final err; [reflexivity|].
  simpl runner.toolLoop. simpl inputLoop.
  cbn [asRunner runner.lsProvider runner.lsClock runner.lsMessages].
  destruct (provider.Complete _ _ _ _) as [[[resp|e] p'] clock'];
    [|reflexivity].
  destruct (provider.respToolCalls resp) as [|call calls] eqn:Hcalls;
    [reflexivity|].
  rewrite <- IH, <- resolveCalls_asRunner. reflexivity.
Qed.

End Harness.

(** X25.  The test harness and the runner run the same agent loop and
    part at its exits.  Take a case whose prompt renders to the system
    prompt, the tools and the input text of a harness, whose mocks are
    those of the test case, and the same timeout, provider and clock.
    Then Input and runCase leave the same trace, provider and clock, and
    the output of the test case is the final response of the case.
    When the provider answers without tool calls, neither reports an
    error.  When the provider fails with [e], the harness records [e]
    and the runner "provider error: " and [e].  When twenty iterations
    are used up, the harness records "max iterations exceeded" and
    fails the test, while the runner returns a case without error and
    without final response. *)
Theorem Input_follows_runCase `{fmt.Quote} `{prompt.Engine} {PS : Type}
    `{provider.Provider PS}
    (r : runner.Runner) (c : suite.EvalCase)
    (pv rendered : prompt.PromptVariant)
    (h : evaltest.Harness) (name text : string) (p : PS)
    (now : trace.Time) :
  let tc := {| evaltest.name := name;
               evaltest.registry := mock.NewRegistry (suite.Mocks c);
               evaltest.output := ""; evaltest.trace_ := None;
               evaltest.executed := false |} in
  prompt.Interpolate pv (suite.Input c) = inl rendered ->
  prompt.System rendered = evaltest.System (evaltest.cfg h) ->
  prompt.User rendered = text ->
  evaltest.toolsOf rendered = evaltest.Tools (evaltest.cfg h) ->
  (if 0 <? suite.Timeout c then suite.Timeout c
   else runner.Timeout (runner.cfg r)) =
    evaltest.Timeout (evaltest.cfg h) ->
  let '(h', tc', p1, now1) := evaltest.Input h tc text p now in
  let '(cr, p2, now2) :=
    runner.runCase r context.Background c pv p now in
  p1 = p2 /\ now1 = now2 /\
  evaltest.trace_ tc' = runner.Trace cr /\
  evaltest.output tc' = runner.FinalResponse cr /\
  exists res,
    evaltest.results h' = evaltest.results h ++ [res] /\
    evaltest.Output res = runner.FinalResponse cr /\
    Some (evaltest.ToolCalls res) = trace.ToolCalls <$> runner.Trace cr /\
    ((evaltest.executed tc' = true /\ evaltest.Error res = "" /\
      runner.Error cr = "" /\
      evaltest.reported h' = evaltest.reported h) \/
     (evaltest.executed tc' = false /\
      runner.Error cr = "provider error: " +:+ evaltest.Error res /\
      evaltest.reported h' =
        evaltest.reported h ++ ["provider error: " +:+ evaltest.Error res]) \/
     (evaltest.executed tc' = false /\
      evaltest.Error res = "max iterations exceeded" /\
      runner.Error cr = "" /\ runner.FinalResponse cr = "" /\
      evaltest.reported h' =
        evaltest.reported h ++ ["agent loop exceeded maximum iterations"])).
Proof.
  intros tc Hrender Hsystem Huser Htools Htimeout.
  unfold runner.runCase, evaltest.Input. rewrite Hrender. cbv zeta.
  rewrite Htimeout, Hsystem, Huser.
  fold (evaltest.toolsOf rendered). rewrite Htools.
  change runner.MaxToolLoopIterations with evaltest.maxIterations.
  match goal with
  | |- context [runner.toolLoop ?c0 ?s0 ?t0 ?f0 ?st0] =>
      change st0 with
        (evaltest.asRunner "" ""
           {| evaltest.lvTrace := trace.AddMessage (trace.New now) now "user" text;
              evaltest.lvMessages :=
                [{| provider.Role := "user"; provider.Content := text;
                    provider.ToolCalls := []; provider.ToolCallID := "" |}];
              evaltest.lvRegistry := mock.NewRegistry (suite.Mocks c);
              evaltest.lvProvider := p; evaltest.lvClock := now |});
      rewrite (toolLoop_inputLoop c0 s0 t0 f0)
  end.
  cbn [evaltest.registry tc].
  match goal with
  | |- context [evaltest.inputLoop ?c0 ?s0 ?t0 ?f0 ?v0] =>
      generalize (evaltest.inputLoop c0 s0 t0 f0 v0)
  end.
  clear. intros [vars [e|content|]];
    cbn [evaltest.asRunner runner.lsModel runner.lsFinalResponse
         runner.lsError runner.lsTrace runner.lsProvider runner.lsClock
         evaltest.trace_ evaltest.output evaltest.executed tc
         runner.Trace runner.FinalResponse runner.Error
         evaltest.recordResult evaltest.report evaltest.results
         evaltest.reported evaltest.name];
    (split_and!; try reflexivity);
    eexists; (split; [reflexivity|]);
    cbn [evaltest.Output evaltest.ToolCalls evaltest.Error fmap option_fmap
         option_map];
    (split_and!; try reflexivity).
  - right. left. by split_and!.
  - left. by split_and!.
  - right. right. by split_and!.
Qed.

Lemma Input_follows_runCase_witness :
  match
    @evaltest.Input examples.plainQuote nat examples.loopingProvider
      (evaltest.New (evaltest.mkConfig "You are helpful." [] 0))
      {| evaltest.name := "loop";
         evaltest.registry := mock.NewRegistry (suite.Mocks examples.loopCase);
         evaltest.output := ""; evaltest.trace_ := None;
         evaltest.executed := false |}
      "Go on." 0%nat 0,
    @runner.runCase examples.plainQuote examples.literalEngine nat
      examples.loopingProvider
      (runner.New (runner.mkConfig 1 (30 * runner.Second)))
      context.Background examples.loopCase examples.loopPrompt 0%nat 0
  with
  | (h', tc', _, _), (cr, _, _) =>
      evaltest.output tc' = runner.FinalResponse cr /\
      map evaltest.Error (evaltest.results h') = ["max iterations exceeded"] /\
      runner.Error cr = ""
  end.
Proof.
  pose proof (@Input_follows_runCase examples.plainQuote
                examples.literalEngine nat examples.loopingProvider
                (runner.New (runner.mkConfig 1 (30 * runner.Second)))
                examples.loopCase examples.loopPrompt examples.loopPrompt
                (evaltest.New (evaltest.mkConfig "You are helpful." [] 0))
                "loop" "Go on." 0%nat 0
                eq_refl eq_refl eq_refl eq_refl eq_refl) as Hthm.
  cbv zeta in Hthm.
  destruct (evaltest.Input _ _ _ _ _) as [[[h' tc'] p1] now1] eqn:HI.
  destruct (runner.runCase _ _ _ _ _ _) as [[cr p2] now2] eqn:HR.
  destruct Hthm as (_ & _ & _ & Hout & _).
  split; [exact Hout|].
  vm_compute in HI. injection HI as <- _ _ _.
  vm_compute in HR. injection HR as <- _ _.
  split; reflexivity.
Defined.

(** ** The runner: the requests a case sends *)

Section Requests.

Import runner.

Context `{fmt.Quote} `{prompt.Engine} {PS : Type} `{provider.Provider PS}.

Local Existing Instance examples.loggingProvider.

Lemma resolveToolCalls_messages {P : Type} calls : forall st : loopState P,
  let st' := foldl resolveToolCall st calls in
  lsProvider st' = lsProvider st /\
  exists tools,
    lsMessages st' = lsMessages st ++ tools /\
    map provider.ToolCallID tools = map provider.ID calls /\
    Forall (fun m => provider.Role m = "tool") tools.
Proof.
  induction calls as [|call calls IH]; intros st.
  - cbn. split; [reflexivity|]. exists []. by rewrite app_nil_r.
  - cbv zeta. rewrite foldl_step.
    destruct (IH (resolveToolCall st call)) as (HP & tools & HM & HI & HR).
    rewrite HP, HM. clear IH HP HM.
    unfold resolveToolCall.
    destruct (mock.Resolve _ _ _ _) as [[[content mockErr] registry] clock].
    cbn [lsProvider lsMessages]. split; [reflexivity|].
    eexists (_ :: tools). rewrite <- app_assoc. split; [reflexivity|].
    cbn [map provider.ToolCallID]. rewrite HI. split; [reflexivity|].
    by constructor.
Qed.

(** What the loop adds to the log: at most one call per iteration, each
    with the context, the system prompt and the tools of the loop; the
    first with the messages of the state, the others chained to it. *)
Lemma toolLoop_requests caseCtx system tools fuel :
  forall st : loopState (PS * list examples.Call),
    exists new,
      (lsProvider (toolLoop caseCtx system tools fuel st)).2 =
        (lsProvider st).2 ++ new /\
      (length new <= fuel)%nat /\
      (fuel <> 0%nat -> new <> []) /\
      Forall (fun call =>
                examples.callCtx call = caseCtx /\
                provider.System (examples.callRequest call) = system /\
                provider.Tools (examples.callRequest call) = tools /\
                provider.Model (examples.callRequest call) = "")
             new /\
      match examples.requestsOf new with
      | [] => True
      | first :: rest => first = lsMessages st /\ chained first rest
      end.
Proof.
  induction fuel as [|fuel IH]; intros st.
  { exists []. simpl. rewrite app_nil_r. by split_and!. }
  simpl toolLoop.
  cbn [provider.Complete examples.loggingProvider].
  destruct (provider.Complete (lsProvider st).1 _ _ _)
    as [[[resp|err] p'] clock'].
  - destruct (provider.respToolCalls resp) as [|call calls] eqn:Hcalls.
    + eexists [_]. cbn [lsProvider snd]. split; [reflexivity|].
      simpl. split_and!; try done; try lia. by repeat constructor.
    + match goal with
      | |- context [toolLoop _ _ _ fuel ?s] =>
          destruct (IH s) as (new & Hlog & Hlen & _ & Hall & Hchain)
      end.
      match type of Hlog with
      | context [foldl resolveToolCall ?s ?l] =>
          destruct (resolveToolCalls_messages l s)
            as (HP & tmsgs & HM & HI & HR)
      end.
      rewrite HP in Hlog. cbn [lsProvider snd] in Hlog.
      rewrite <- app_assoc in Hlog.
      eexists (_ :: new). split; [exact Hlog|].
      split; [simpl; lia|]. split; [done|]. split.
      * constructor; [by split_and!|exact Hall].
      * cbn [examples.requestsOf map examples.callRequest provider.Messages].
        split; [reflexivity|].
        fold (examples.requestsOf new).
        destruct (examples.requestsOf new) as [|first rest]; [exact I|].
        destruct Hchain as [-> Hchain]. split; [|exact Hchain].
        rewrite HM. cbn [lsMessages].
        eexists _, tmsgs. rewrite <- app_assoc. split; [reflexivity|].
        cbn [provider.Role provider.ToolCalls]. by split_and!.
  - eexists [_]. cbn [lsProvider snd]. split; [reflexivity|].
    simpl. split_and!; try done; try lia. by repeat constructor.
Qed.

End Requests.

(** X26.  The requests of a case, as a provider that logs its calls
    sees them, whatever the provider behind it.  When the prompt does
    not render no request is sent.  When it renders, runCase sends at
    least one and at most 20 requests; every request carries the
    context with the deadline of the case (set once, before the first
    request), the rendered system prompt, the tools of the prompt and
    an empty model; the first request holds the rendered user message
    alone, and every later request repeats the one before it and adds
    the assistant message that asked for tools followed by one tool
    message per call, in call order and under the ids of the calls. *)
Theorem runCase_requests `{fmt.Quote} `{prompt.Engine} {PS : Type}
    `{provider.Provider PS}
    (r : runner.Runner) (ctx : context.Context) (c : suite.EvalCase)
    (pv : prompt.PromptVariant) (p : PS) (clock : trace.Time) :
  let log :=
    (@runner.runCase _ _ _ examples.loggingProvider r ctx c pv (p, [])
       clock).1.2.2 in
  let timeout :=
    if 0 <? suite.Timeout c then suite.Timeout c
    else runner.Timeout (runner.cfg r) in
  match prompt.Interpolate pv (suite.Input c) with
  | inr _ => log = []
  | inl rendered =>
      (1 <= length log <= runner.MaxToolLoopIterations)%nat /\
      Forall (fun call =>
                examples.callCtx call = context.WithTimeout ctx clock timeout /\
                provider.System (examples.callRequest call) =
                  prompt.System rendered /\
                provider.Tools (examples.callRequest call) =
                  evaltest.toolsOf rendered /\
                provider.Model (examples.callRequest call) = "")
             log /\
      exists rest,
        examples.requestsOf log =
          [{| provider.Role := "user";
              provider.Content := prompt.User rendered;
              provider.ToolCalls := []; provider.ToolCallID := "" |}]
          :: rest /\
        runner.chained
          [{| provider.Role := "user";
              provider.Content := prompt.User rendered;
              provider.ToolCalls := []; provider.ToolCallID := "" |}]
          rest
  end.
Proof.
  unfold runner.runCase. cbv zeta.
  destruct (prompt.Interpolate pv (suite.Input c)) as [rendered|err];
    [|reflexivity].
  fold (evaltest.toolsOf rendered).
  match goal with
  | |- context [@runner.toolLoop _ _ ?I ?c0 ?s0 ?t0 ?f0 ?st0] =>
      destruct (@toolLoop_requests _ PS _ c0 s0 t0 f0 st0)
        as (new & Hlog & Hlen & Hne & Hall & Hchain);
      revert Hlog;
      generalize (@runner.toolLoop _ _ I c0 s0 t0 f0 st0)
  end.
  intros st Hlog. cbn [fst snd runner.lsProvider] in Hlog |- *.
  rewrite Hlog. clear Hlog st. cbn [app].
  split; [|split; [exact Hall|]].
  - split; [|exact Hlen]. destruct new; [by destruct Hne | simpl; lia].
  - destruct (examples.requestsOf new) as [|first rest] eqn:Hreqs.
    + destruct new; [by destruct Hne | discriminate].
    + destruct Hchain as [-> Hchain]. by exists rest.
Qed.

(** ** Reports: labels and truncation *)

Section Reports.

Lemma labelled_count (label : string) (f : result.CaseResult -> bool)
    (results : list result.CaseResult) :
  (forall cr, report.StatusLabelPlain cr = label <-> f cr = true) ->
  report.labelled label results = summary.count f results.
Proof.
  intros Hf. unfold report.labelled, summary.count. do 2 f_equal.
  apply list_filter_iff. exact Hf.
Qed.

Lemma label_cases (cr : result.CaseResult) :
  (report.StatusLabelPlain cr = "ERROR" <-> summary.isErrored cr = true) /\
  (report.StatusLabelPlain cr = "PASS" <-> summary.isPassed cr = true) /\
  (report.StatusLabelPlain cr = "FAIL" <-> summary.isFailed cr = true).
Proof.
  unfold report.StatusLabelPlain, summary.isErrored, summary.isPassed,
    summary.isFailed.
  destruct (decide (result.Error cr = "")) as [He|Hne].
  - rewrite (bool_decide_eq_true_2 _ He). destruct (result.Pass cr); simpl;
      by split_and!.
  - rewrite (bool_decide_eq_false_2 _ Hne). simpl. by split_and!.
Qed.

Lemma length_substring_0 s : forall n,
  (n <= String.length s)%nat -> String.length (String.substring 0 n s) = n.
Proof.
  induction s as [|a s IH]; intros [|n] Hn; simpl in *; try lia.
  rewrite IH; lia.
Qed.

Lemma length_app_string (s t : string) :
  String.length (s +:+ t) = (String.length s + String.length t)%nat.
Proof. induction s as [|a s IH]; simpl; [reflexivity | by rewrite IH]. Qed.

Lemma substring_0_app s : forall n t,
  (n <= String.length s)%nat ->
  String.substring 0 n (String.substring 0 n s +:+ t) = String.substring 0 n s.
Proof.
  induction s as [|a s IH]; intros [|n] t Hn; simpl in *; try lia.
  - by destruct t.
  - by destruct t.
  - rewrite IH; [reflexivity | lia].
Qed.

(** A slice from the start is a prefix. *)
Lemma substring_0_prefix s : forall n,
  (n <= String.length s)%nat ->
  exists rest, s = String.substring 0 n s +:+ rest.
Proof.
  induction s as [|a s IH]; intros [|n] Hn; simpl in *; try lia.
  - by exists "".
  - by exists (String a s).
  - destruct (IH n) as [rest Hrest]; [lia|].
    exists rest.
    change (String a s = String a (String.substring 0 n s +:+ rest)).
    by rewrite <- Hrest.
Qed.

End Reports.

(** X27.  The labels of the report agree with the statistics and with
    the statuses of the diff.  Every result is labelled ERROR, PASS or
    FAIL: ERROR exactly when it has an error (the status "error" of the
    diff), PASS exactly when it has none and its pass flag is set
    ("pass"), FAIL otherwise ("fail"); the coloured label is the plain
    one in green for PASS and in red otherwise.  Whenever ComputeStats
    returns, its three counters are the numbers of results under each
    label. *)
Theorem labels_match_counts (results : list result.CaseResult)
    (stats : result.Stats) :
  summary.ComputeStats results = Some stats ->
  result.PassedCases stats = report.labelled "PASS" results /\
  result.FailedCases stats = report.labelled "FAIL" results /\
  result.ErroredCases stats = report.labelled "ERROR" results /\
  Forall (fun cr =>
            (report.StatusLabelPlain cr = "ERROR" /\
             diff.statusStr cr = "error" /\ result.Error cr <> "") \/
            (report.StatusLabelPlain cr = "PASS" /\
             diff.statusStr cr = "pass" /\ result.Error cr = "" /\
             result.Pass cr = true) \/
            (report.StatusLabelPlain cr = "FAIL" /\
             diff.statusStr cr = "fail" /\ result.Error cr = "" /\
             result.Pass cr = false))
         results /\
  Forall (fun cr =>
            report.StatusLabel cr =
              (if summary.isPassed cr then report.colorGreen
               else report.colorRed) +:+
              report.StatusLabelPlain cr +:+ report.colorReset)
         results.
Proof.
  intros Hstats.
  destruct (ComputeStats_fields results stats Hstats)
    as (_ & HE & HP & HF & _).
  split_and!.
  - rewrite HP. symmetry. apply labelled_count. intros cr.
    apply (label_cases cr).
  - rewrite HF. symmetry. apply labelled_count. intros cr.
    apply (label_cases cr).
  - rewrite HE. symmetry. apply labelled_count. intros cr.
    apply (label_cases cr).
  - apply Forall_forall. intros cr _.
    unfold report.StatusLabelPlain, diff.statusStr.
    destruct (decide (result.Error cr = "")) as [He|Hne];
      [destruct (result.Pass cr)|]; tauto.
  - apply Forall_forall. intros cr _.
    unfold report.StatusLabel, report.StatusLabelPlain, summary.isPassed.
    destruct (decide (result.Error cr = "")) as [He|Hne].
    + rewrite (bool_decide_eq_true_2 _ He). by destruct (result.Pass cr).
    + by rewrite (bool_decide_eq_false_2 _ Hne).
Qed.

Lemma labels_match_counts_witness :
  exists stats,
    summary.ComputeStats examples.fourResults = Some stats /\
    result.PassedCases stats = 2 /\
    map report.StatusLabelPlain examples.fourResults =
      ["PASS"; "PASS"; "FAIL"; "ERROR"].
Proof.
  destruct (summary.ComputeStats examples.fourResults) as [stats|] eqn:Hstats.
  - exists stats. split; [reflexivity|].
    destruct (labels_match_counts _ _ Hstats) as (HP & _).
    split; [rewrite HP; reflexivity | reflexivity].
  - vm_compute in Hstats. discriminate.
Defined.

(** X28.  The two ways of shortening a string.  Both return a string
    that fits unchanged.  For one that does not fit, truncate of the
    judges (and of package evaltest) returns the first maxLen bytes of
    the string followed by "...", so the result is maxLen + 3 bytes
    long, longer than asked for; shortening the result again changes
    nothing; a negative maxLen panics.  truncate of the report returns
    the first max - 3 bytes of the string followed by "...", so the
    result is exactly max bytes long, and it panics when max is below 3
    and the string does not fit. *)
Theorem truncate_lengths (s : string) (n : Z) :
  let len := Z.of_nat (String.length s) in
  (len <= n ->
   judge.truncate s n = Some s /\ report.truncate s n = Some s) /\
  (0 <= n < len ->
   exists prefix rest,
     s = prefix +:+ rest /\
     Z.of_nat (String.length prefix) = n /\
     judge.truncate s n = Some (prefix +:+ "...") /\
     Z.of_nat (String.length (prefix +:+ "...")) = n + 3 /\
     String.substring 0 (Z.to_nat n) (prefix +:+ "...") =
       String.substring 0 (Z.to_nat n) s /\
     judge.truncate (prefix +:+ "...") n = Some (prefix +:+ "...")) /\
  (n < 0 -> judge.truncate s n = None) /\
  (3 <= n < len ->
   exists prefix rest,
     s = prefix +:+ rest /\
     Z.of_nat (String.length prefix) = n - 3 /\
     report.truncate s n = Some (prefix +:+ "...") /\
     Z.of_nat (String.length (prefix +:+ "...")) = n /\
     report.truncate (prefix +:+ "...") n = Some (prefix +:+ "...")) /\
  (n < 3 -> n < len -> report.truncate s n = None).
Proof.
  intros len. unfold judge.truncate, report.truncate. fold len.
  split_and!.
  - intros Hfit. by rewrite (proj2 (Z.leb_le _ _) Hfit).
  - intros [H0 Hlong].
    rewrite (proj2 (Z.leb_gt _ _) Hlong), (proj2 (Z.ltb_ge _ _) H0).
    assert (Hn : (Z.to_nat n <= String.length s)%nat) by lia.
    destruct (substring_0_prefix s _ Hn) as [rest Hrest].
    exists (String.substring 0 (Z.to_nat n) s), rest.
    rewrite length_app_string, (length_substring_0 _ _ Hn),
      (substring_0_app _ _ _ Hn). simpl String.length.
    split; [exact Hrest|]. split; [lia|]. split; [reflexivity|].
    split; [lia|]. split; [reflexivity|].
    destruct (_ <=? n) eqn:Hle; [apply Z.leb_le in Hle; lia|].
    reflexivity.
  - intros Hneg. destruct (len <=? n) eqn:Hle; [apply Z.leb_le in Hle; lia|].
    by rewrite (proj2 (Z.ltb_lt _ _) Hneg).
  - intros [H3 Hlong].
    rewrite (proj2 (Z.leb_gt _ _) Hlong).
    destruct (n - 3 <? 0) eqn:Hlt; [apply Z.ltb_lt in Hlt; lia|].
    assert (Hn : (Z.to_nat (n - 3) <= String.length s)%nat) by lia.
    destruct (substring_0_prefix s _ Hn) as [rest Hrest].
    exists (String.substring 0 (Z.to_nat (n - 3)) s), rest.
    rewrite length_app_string, (length_substring_0 _ _ Hn).
    simpl String.length.
    split; [exact Hrest|]. split; [lia|]. split; [reflexivity|].
    split; [lia|].
    destruct (_ <=? n) eqn:Hle; [reflexivity|].
    apply Z.leb_gt in Hle. lia.
  - intros H3 Hlong.
    rewrite (proj2 (Z.leb_gt _ _) Hlong).
    destruct (n - 3 <? 0) eqn:Hlt; [reflexivity|].
    apply Z.ltb_ge in Hlt. lia.
Qed.

Lemma truncate_lengths_witness :
  judge.truncate "abcdef" 2 = Some "ab..." /\
  report.truncate "abcdef" 2 = None /\
  report.truncate "abcdef" 5 = Some "ab...".
Proof.
  destruct (truncate_lengths "abcdef" 2) as (_ & _ & _ & _ & Hpanic).
  split; [reflexivity|]. split; [|reflexivity].
  apply Hpanic; simpl; lia.
Defined.

(** ** Prompts: how a rendering error reaches the case result *)

Section Prompts.

Import prompt.

Context `{fmt.Quote} `{Engine}.

Lemma renderTemplate_error name text vars e :
  renderTemplate name text vars = inr e ->
  text <> "" /\
  ((exists e0, Parse name text = inr e0 /\ e = "parsing template: " +:+ e0) \/
   (exists tmpl e0, Parse name text = inl tmpl /\
      Execute tmpl vars = inr e0 /\ e = "executing template: " +:+ e0)).
Proof.
  unfold renderTemplate. destruct (decide (text = "")) as [|Hne]; [done|].
  destruct (Parse name text) as [tmpl|e0] eqn:HP.
  - destruct (Execute tmpl vars) as [s|e0] eqn:HE; [done|].
    intros [= <-]. split; [exact Hne|]. right. by exists tmpl, e0.
  - intros [= <-]. split; [exact Hne|]. left. by exists e0.
Qed.

End Prompts.

(** X29.  How a rendering error reaches the case result.  A template
    fails to render only when it is not empty and either does not parse
    or does not execute, and the error says which.  When the system
    template fails with [e], the error of the case is "interpolating
    prompt: interpolating system prompt for ", the quoted prompt name,
    ": " and [e], whatever the user template does; when only the user
    template fails, it is the same with "user prompt".  In both cases
    the case has no trace.  A prompt with both templates empty renders
    to itself without the engine being asked, although Validate rejects
    it. *)
Theorem runCase_prompt_errors `{fmt.Quote} `{prompt.Engine} {PS : Type}
    `{provider.Provider PS}
    (r : runner.Runner) (ctx : context.Context) (c : suite.EvalCase)
    (pv : prompt.PromptVariant) (p : PS) (clock : trace.Time) :
  let cr := (runner.runCase r ctx c pv p clock).1.1 in
  let vars := suite.Input c in
  let system :=
    prompt.renderTemplate (prompt.Name pv +:+ ".system") (prompt.System pv)
      vars in
  let user :=
    prompt.renderTemplate (prompt.Name pv +:+ ".user") (prompt.User pv)
      vars in
  (forall name text e, prompt.renderTemplate name text vars = inr e ->
     text <> "" /\
     ((exists e0, prompt.Parse name text = inr e0 /\
         e = "parsing template: " +:+ e0) \/
      (exists tmpl e0, prompt.Parse name text = inl tmpl /\
         prompt.Execute tmpl vars = inr e0 /\
         e = "executing template: " +:+ e0))) /\
  (forall e, system = inr e ->
     runner.Error cr =
       "interpolating prompt: interpolating system prompt for " +:+
       fmt.q (prompt.Name pv) +:+ ": " +:+ e /\
     runner.Trace cr = None) /\
  (forall sys e, system = inl sys -> user = inr e ->
     runner.Error cr =
       "interpolating prompt: interpolating user prompt for " +:+
       fmt.q (prompt.Name pv) +:+ ": " +:+ e /\
     runner.Trace cr = None) /\
  (prompt.System pv = "" -> prompt.User pv = "" ->
   prompt.Interpolate pv vars = inl pv /\ prompt.Validate pv <> None).
Proof.
  intros cr vars system user. split_and!.
  - intros name text e. apply renderTemplate_error.
  - intros e Hsys. unfold cr, runner.runCase, prompt.Interpolate.
    fold vars system. rewrite Hsys. by split.
  - intros sys e Hsys Huser. unfold cr, runner.runCase, prompt.Interpolate.
    fold vars system user. rewrite Hsys, Huser. by split.
  - intros Hs Hu. split.
    + unfold prompt.Interpolate, prompt.renderTemplate.
      rewrite Hs, Hu. simpl. destruct pv; simpl in *. by subst.
    + unfold prompt.Validate.
      destruct (decide (prompt.Name pv = "")); [done|].
      destruct (decide (prompt.System pv = "" /\ prompt.User pv = ""))
        as [|Hn]; [done|].
      by destruct Hn.
Qed.

Lemma runCase_prompt_errors_witness :
  runner.Error
    (@runner.runCase examples.plainQuote examples.rejectingEngine nat
       examples.loopingProvider (runner.New (runner.mkConfig 1 0))
       context.Background examples.loopCase examples.loopPrompt 0%nat 0).1.1 =
    "interpolating prompt: interpolating system prompt for " +:+
    @fmt.q examples.plainQuote "p" +:+ ": parsing template: unexpected }".
Proof.
  destruct (@runCase_prompt_errors examples.plainQuote
              examples.rejectingEngine nat examples.loopingProvider
              (runner.New (runner.mkConfig 1 0)) context.Background
              examples.loopCase examples.loopPrompt 0%nat 0)
    as (_ & Hsys & _).
  exact (proj1 (Hsys _ eq_refl)).
Defined.

(** ** The harness: searching the output *)

Section Search.

Import evaltest.

Lemma substring_all s : String.substring 0 (String.length s) s = s.
Proof. induction s as [|a s IH]; simpl; [reflexivity | by rewrite IH]. Qed.

Lemma string_app_nil (t : string) : "" +:+ t = t.
Proof. reflexivity. Qed.

Lemma string_app_cons a (s t : string) : String a s +:+ t = String a (s +:+ t).
Proof. reflexivity. Qed.

(** A string is what precedes a slice, the slice and what follows it. *)
Lemma substring_split s : forall i m,
  (i + m <= String.length s)%nat ->
  s = String.substring 0 i s +:+ String.substring i m s +:+
      String.substring (i + m) (String.length s - (i + m)) s.
Proof.
  induction s as [|a s IH]; intros i m Hlen; simpl in Hlen.
  - by destruct i, m.
  - destruct i as [|i].
    + destruct m as [|m].
      * simpl. by rewrite substring_all.
      * pose proof (IH 0%nat m ltac:(lia)) as IH0.
        replace (String.substring 0 0 s) with EmptyString in IH0
          by (by destruct s).
        simpl in IH0 |- *.
        rewrite string_app_nil in IH0 |- *. rewrite string_app_cons.
        f_equal. exact IH0.
    + simpl. rewrite string_app_cons. f_equal. apply IH. lia.
Qed.

Lemma substring_prefix sub : forall post,
  String.substring 0 (String.length sub) (sub +:+ post) = sub.
Proof.
  induction sub as [|b sub IH]; intros post.
  - rewrite string_app_nil. by destruct post.
  - rewrite string_app_cons. simpl. by rewrite IH.
Qed.

Lemma substring_at pre : forall sub post,
  String.substring (String.length pre) (String.length sub)
    (pre +:+ sub +:+ post) = sub.
Proof.
  induction pre as [|a pre IH]; intros sub post.
  - rewrite string_app_nil. apply substring_prefix.
  - rewrite string_app_cons. simpl. apply IH.
Qed.

Lemma searchLoop_found s sub count : forall i,
  searchLoop s sub i count = true <->
  exists j, (i <= j < i + count)%nat /\
    String.substring j (String.length sub) s = sub.
Proof.
  induction count as [|count IH]; intros i; simpl.
  - split; [discriminate | intros (j & Hj & _); lia].
  - destruct (String.eqb _ sub) eqn:Heq.
    + apply String.eqb_eq in Heq. split; [intros _|done].
      exists i. split; [lia | exact Heq].
    + apply String.eqb_neq in Heq. rewrite IH. split.
      * intros (j & Hj & Hsub). exists j. split; [lia | exact Hsub].
      * intros (j & Hj & Hsub). exists j. split; [|exact Hsub].
        destruct (decide (j = i)) as [->|]; [done | lia].
Qed.

Lemma contains_occurs s sub : contains s sub = true <-> occurs sub s.
Proof.
  unfold contains, occurs, searchString. split.
  - intros Hc. apply orb_true_iff in Hc as [Hempty|Hfound].
    + apply Nat.eqb_eq in Hempty. destruct sub; [|discriminate].
      by exists "", s.
    + apply andb_true_iff in Hfound as [Hle Hfound].
      apply Nat.leb_le in Hle.
      apply searchLoop_found in Hfound as (j & Hj & Hsub).
      pose proof (substring_split s j (String.length sub) ltac:(lia)) as Hs.
      rewrite Hsub in Hs. by eexists _, _.
  - intros (pre & post & ->). apply orb_true_iff.
    destruct (decide (String.length sub = 0%nat)) as [Hz|Hnz].
    { left. by apply Nat.eqb_eq. }
    right. rewrite !length_app_string. apply andb_true_iff. split.
    + apply Nat.leb_le. lia.
    + apply searchLoop_found. exists (String.length pre).
      split; [lia | apply substring_at].
Qed.

End Search.

(** X30.  Searching the output.  contains finds a substring exactly when
    the output is some text, the substring, and some text; the empty
    substring is always found, and a substring longer than the output
    never.  So AssertOutputContains, once Input has run, reports a
    failure exactly when the substring does not occur in the output,
    and it reports one in any case before Input has run. *)
Theorem AssertOutputContains_reports `{fmt.Quote} (h : evaltest.Harness)
    (tc : evaltest.TestCase) (substr : string) :
  let h' := evaltest.AssertOutputContains h tc substr in
  (evaltest.contains (evaltest.output tc) substr = true <->
   evaltest.occurs substr (evaltest.output tc)) /\
  evaltest.contains (evaltest.output tc) "" = true /\
  ((String.length (evaltest.output tc) < String.length substr)%nat ->
   evaltest.contains (evaltest.output tc) substr = false) /\
  (evaltest.reported h' = evaltest.reported h <->
   evaltest.executed tc = true /\
   evaltest.occurs substr (evaltest.output tc)) /\
  evaltest.results h' = evaltest.results h /\
  (length (evaltest.reported h') <= S (length (evaltest.reported h)))%nat.
Proof.
  intros h'. split; [apply contains_occurs|]. split; [reflexivity|]. split.
  { intros Hshort.
    destruct (evaltest.contains _ substr) eqn:Hc; [|reflexivity].
    apply contains_occurs in Hc as (pre & post & Hout).
    rewrite Hout, !length_app_string in Hshort. lia. }
  assert (Hgrow : forall msg,
            evaltest.reported h ++ [msg] <> evaltest.reported h).
  { intros msg Heq. apply (f_equal length) in Heq.
    rewrite length_app in Heq. simpl in Heq. lia. }
  unfold h', evaltest.AssertOutputContains, evaltest.report.
  destruct (evaltest.executed tc); cbn [negb].
  - destruct (evaltest.contains _ substr) eqn:Hc;
      cbn [evaltest.reported evaltest.results].
    + apply contains_occurs in Hc. split_and!; [|reflexivity|lia].
      split; [by intros _ | reflexivity].
    + split_and!; [|reflexivity|rewrite length_app; simpl; lia].
      split; [by intros ?%Hgrow|]. intros [_ Hocc].
      apply contains_occurs in Hocc. congruence.
  - cbn [evaltest.reported evaltest.results].
    split_and!; [|reflexivity|rewrite length_app; simpl; lia].
    split; [by intros ?%Hgrow | by intros [? _]].
Qed.

Lemma AssertOutputContains_reports_witness :
  evaltest.contains "the answer is 4" "answer" = true /\
  evaltest.contains "abc" "abcd" = false.
Proof.
  split; [reflexivity|].
  apply (@AssertOutputContains_reports examples.plainQuote
           (evaltest.New (evaltest.mkConfig "" [] 0))
           {| evaltest.name := "t"; evaltest.registry := mock.NewRegistry [];
              evaltest.output := "abc"; evaltest.trace_ := None;
              evaltest.executed := true |} "abcd").
  simpl. lia.
Defined.
